(** * A shallow embedding of [interpreter.py] and its verified properties

    The interpreter is a small Lisp written in Python: [tokenize],
    [read_from_tokens], [atom] and [parse] form the reader, [standard_env]
    builds the global dictionary of primitives, [lisp_eval] evaluates an
    expression against a mutable environment and [lisp_str] prints a value.

    Python objects are modelled by the inductive type [obj]; Python
    exceptions by [exn]; a call that may raise returns a [result]; the
    list of tokens and the environment dictionary, which the source
    mutates, are threaded explicitly through [read_from_tokens] and
    [lisp_eval].

    Conventions of the model (host behaviour that the source relies on):
    - a Python [str] is a [string] whose characters are the code points
      0..255;
    - a Python [int] is a [Z]; a Python [float] is an IEEE-754 binary64
      value, [spec_float] with precision 53 and maximal exponent 1024,
      NaN carrying no payload;
    - recursion depth and memory are unbounded, and CPython's optional
      limit on the number of digits in conversions between [int] and
      [str] is off;
    - object identity is not modelled: [==] on two lists compares their
      elements with [==], where the host first asks whether the two
      elements are one object (this only matters for a NaN shared by
      both lists), and a NaN used as a dictionary key is never found
      again. *)

From Stdlib Require Import ZArith List String Ascii Bool Lia.
From Stdlib Require Import QArith Qround Qpower Lqa.
From Stdlib Require Import SpecFloat DecimalString DecimalPos.
Import ListNotations.

Local Open Scope string_scope.
Local Open Scope Z_scope.

(** ** Host strings *)

Module PyStr.

(** [str.isspace] on a single code point below 256: the characters that
    [str.split()] treats as separators. *)
Definition isspace (c : ascii) : bool :=
  let n := N_of_ascii c in
  ((9 <=? n) && (n <=? 13) || (28 <=? n) && (n <=? 32)
   || (n =? 133) || (n =? 160))%N.

Definition isdigit (c : ascii) : bool :=
  let n := N_of_ascii c in ((48 <=? n) && (n <=? 57))%N.

Definition digit_value (c : ascii) : Z := Z.of_N (N_of_ascii c) - 48.

(** [s.replace(old, new)] for a one-character [old]. *)
Fixpoint replace (old : ascii) (new : string) (s : string) : string :=
  match s with
  | EmptyString => EmptyString
  | String c s' =>
      if Ascii.eqb c old then new ++ replace old new s'
      else String c (replace old new s')
  end.

(** [s.split()]: scan left to right, [word] is the run of non-space
    characters read so far. *)
Fixpoint split_from (word : string) (s : string) : list string :=
  match s with
  | EmptyString => match word with EmptyString => [] | _ => [word] end
  | String c s' =>
      if isspace c then
        match word with
        | EmptyString => split_from EmptyString s'
        | _ => word :: split_from EmptyString s'
        end
      else split_from (word ++ String c EmptyString) s'
  end.

Definition split (s : string) : list string := split_from EmptyString s.

(** [sep.join(l)] *)
Fixpoint join (sep : string) (l : list string) : string :=
  match l with
  | [] => EmptyString
  | [x] => x
  | x :: rest => x ++ sep ++ join sep rest
  end.

(** [lstrip], [rstrip] and [strip] for the set [space] of characters.
    [rstrip] gives the shortest prefix after which only characters of
    [space] follow. *)
Fixpoint lstrip (space : ascii -> bool) (s : string) : string :=
  match s with
  | String c s' => if space c then lstrip space s' else s
  | EmptyString => EmptyString
  end.

Fixpoint rstrip (space : ascii -> bool) (s : string) : string :=
  match s with
  | EmptyString => EmptyString
  | String c s' =>
      match rstrip space s' with
      | EmptyString => if space c then EmptyString else String c EmptyString
      | r => String c r
      end
  end.

Definition strip (space : ascii -> bool) (s : string) : string :=
  rstrip space (lstrip space s).

Definition lower (c : ascii) : ascii :=
  let n := N_of_ascii c in
  if ((65 <=? n) && (n <=? 90))%N then ascii_of_N (n + 32) else c.

Fixpoint lowercase (s : string) : string :=
  match s with
  | EmptyString => EmptyString
  | String c s' => String (lower c) (lowercase s')
  end.

Fixpoint repeat_string (n : nat) (s : string) : string :=
  match n with O => EmptyString | S n' => s ++ repeat_string n' s end.

End PyStr.

(** ** Host numbers: [int()], [float()] and [str()] on numbers *)

Module PyNum.
Import PyStr.

(** The white space that [int()] and [float()] strip from both ends of
    their argument: that of [str.isspace] but for the four separators
    28..31. *)
Definition blank (c : ascii) : bool :=
  let n := N_of_ascii c in
  ((9 <=? n) && (n <=? 13) || (n =? 32) || (n =? 133) || (n =? 160))%N.

(** A run of decimal digits in which single underscores may separate
    digits, read most significant digit first; [prev_digit] tells whether
    the previous character was a digit. *)
Fixpoint digits_from (prev_digit : bool) (acc : Z) (s : string) : option Z :=
  match s with
  | EmptyString => if prev_digit then Some acc else None
  | String c s' =>
      if isdigit c then digits_from true (10 * acc + digit_value c) s'
      else if Ascii.eqb c "_" && prev_digit then digits_from false acc s'
      else None
  end.

Definition signed (s : string) : bool * string :=
  match s with
  | String "-" r => (true, r)
  | String "+" r => (false, r)
  | _ => (false, s)
  end.

(** [int(s)]; [None] stands for [ValueError]. *)
Definition py_int (s : string) : option Z :=
  let (neg, body) := signed (strip blank s) in
  option_map (fun n => if neg then - n else n) (digits_from false 0 body).

(** [str(n)] for an [int]. *)
Definition py_str_int (n : Z) : string :=
  match n with
  | Z0 => "0"
  | Zpos p => NilEmpty.string_of_uint (Pos.to_uint p)
  | Zneg p => "-" ++ NilEmpty.string_of_uint (Pos.to_uint p)
  end.

(** *** Floats *)

Definition prec : Z := 53.
Definition emax : Z := 1024.

(** [float()] accepts an underscore only between two digits. *)
Fixpoint underscores_ok (prev : ascii) (s : string) : bool :=
  match s with
  | EmptyString => negb (Ascii.eqb prev "_")
  | String c s' =>
      (if Ascii.eqb c "_" then isdigit prev
       else if Ascii.eqb prev "_" then isdigit c else true)
      && underscores_ok c s'
  end.

Fixpoint remove_underscores (s : string) : string :=
  match s with
  | EmptyString => EmptyString
  | String c s' =>
      if Ascii.eqb c "_" then remove_underscores s'
      else String c (remove_underscores s')
  end.

(** The longest prefix of digits, and what follows it. *)
Fixpoint span_digits (s : string) : string * string :=
  match s with
  | EmptyString => (EmptyString, EmptyString)
  | String c s' =>
      if isdigit c then let (d, r) := span_digits s' in (String c d, r)
      else (EmptyString, s)
  end.

Fixpoint digits_value (acc : Z) (s : string) : Z :=
  match s with
  | EmptyString => acc
  | String c s' => digits_value (10 * acc + digit_value c) s'
  end.

(** What may follow the mantissa: nothing, or [e], an optional sign and
    at least one digit. *)
Definition exponent_of (s : string) : option Z :=
  match s with
  | EmptyString => Some 0
  | String c r =>
      if Ascii.eqb (lower c) "e" then
        let (neg, ds) := signed r in
        match span_digits ds with
        | (String _ _ as d, EmptyString) =>
            Some (if neg then - digits_value 0 d else digits_value 0 d)
        | _ => None
        end
      else None
  end.

(** A decimal literal [digits [. digits] [exponent]] or
    [. digits [exponent]] as a pair [(m, x)] standing for [m * 10^x]. *)
Definition decimal_of_string (s : string) : option (Z * Z) :=
  let (ip, r1) := span_digits s in
  let (fp, r2) :=
    match r1 with
    | String "." r => span_digits r
    | _ => (EmptyString, r1)
    end in
  match ip ++ fp with
  | EmptyString => None
  | ds =>
      match exponent_of r2 with
      | Some x => Some (digits_value 0 ds, x - Z.of_nat (String.length fp))
      | None => None
      end
  end.

Definition Qlt_bool (a b : Q) : bool := negb (Qle_bool b a).

(** The binary magnitude of a positive rational [v]: the [k] with
    [2^(k-1) <= v < 2^k]. *)
Definition magnitude (v : Q) : Z :=
  let k := Z.log2 (Qnum v) - Z.log2 (Zpos (Qden v)) in
  if Qlt_bool v (Qpower 2 k) then k else k + 1.

(** The integer nearest to [x], the even one on a tie. *)
Definition round_half_even (x : Q) : Z :=
  let q := Qfloor x in
  match Qcompare (x - inject_Z q) (1 # 2) with
  | Lt => q
  | Eq => if Z.even q then q else q + 1
  | Gt => q + 1
  end.

(** The binary64 value nearest to the rational [v], which is not
    negative, ties going to the even mantissa, with the sign [neg]: the
    exponent is that of the format at the magnitude of [v], the mantissa
    is [v] rounded at this exponent; a mantissa that reaches [2^53]
    moves to the next exponent, and past the largest exponent the value
    is an infinity. *)
Definition nearest_float (neg : bool) (v : Q) : spec_float :=
  if Qle_bool v 0 then S754_zero neg
  else
    let e := Z.max (magnitude v - prec) (-1074) in
    let m := round_half_even (v * Qpower 2 (- e)) in
    let (m, e) := if m =? 2 ^ prec then (2 ^ (prec - 1), e + 1) else (m, e) in
    match m with
    | Zpos p =>
        if e <=? emax - prec then S754_finite neg p e else S754_infinity neg
    | _ => S754_zero neg
    end.

(** The binary64 value nearest to [m * 10^x], with the sign [neg]; [m]
    is not negative. *)
Definition float_of_decimal (neg : bool) (m x : Z) : spec_float :=
  nearest_float neg (inject_Z m * Qpower 10 x).

(** [float(s)]; [None] stands for [ValueError]. *)
Definition py_float (s : string) : option spec_float :=
  let t := strip blank s in
  if negb (underscores_ok zero t) then None
  else
    let (neg, body) := signed (remove_underscores t) in
    let lb := lowercase body in
    if String.eqb lb "inf" || String.eqb lb "infinity"
    then Some (S754_infinity neg)
    else if String.eqb lb "nan" then Some S754_nan
    else
      match decimal_of_string body with
      | Some (m, x) => Some (float_of_decimal neg m x)
      | None => None
      end.

(** [float(n)] for an [int]: the nearest binary64 value, or
    [OverflowError] (here [None]) when it is not finite. *)
Definition float_of_int (n : Z) : option spec_float :=
  match nearest_float (n <? 0) (inject_Z (Z.abs n)) with
  | S754_infinity _ => None
  | f => Some f
  end.

(** The exact value of a finite float [m * 2^e] and the half-widths of
    the interval of reals that round to it. *)
Definition float_value (m : positive) (e : Z) : Q :=
  inject_Z (Zpos m) * Qpower 2 e.

Definition gap_above (e : Z) : Q := Qpower 2 (e - 1).

Definition gap_below (m : positive) (e : Z) : Q :=
  if Pos.eqb m (2 ^ 52) && (-1074 <? e) then Qpower 2 (e - 2)
  else Qpower 2 (e - 1).

(** Does the real [q] round to the float [m * 2^e]?  The ends of the
    interval are included when [m] is even. *)
Definition rounds_to (m : positive) (e : Z) (q : Q) : bool :=
  let v := float_value m e in
  let lo := (v - gap_below m e)%Q in
  let hi := (v + gap_above e)%Q in
  if Z.even (Zpos m) then Qle_bool lo q && Qle_bool q hi
  else Qlt_bool lo q && Qlt_bool q hi.

(** The least [k] at or above [k0] with [v < 10^k], looking at [fuel]
    values. *)
Fixpoint decimal_point_from (fuel : nat) (k0 : Z) (v : Q) : Z :=
  match fuel with
  | O => k0
  | S fuel' =>
      if Qlt_bool v (Qpower 10 k0) then k0
      else decimal_point_from fuel' (k0 + 1) v
  end.

(** Binary64 values lie between [10^-324] and [10^309]. *)
Definition decimal_point (v : Q) : Z := decimal_point_from 640 (-324) v.

Definition strip_zeros_fuel : nat := 400.

(** Drops the trailing zeros of [c * 10^q]. *)
Fixpoint strip_zeros (fuel : nat) (c q : Z) : Z * Z :=
  match fuel with
  | O => (c, q)
  | S fuel' =>
      if (c mod 10 =? 0) && negb (c =? 0)
      then strip_zeros fuel' (c / 10) (q + 1)
      else (c, q)
  end.

(** The decimals with [n] significant digits next to [v], and the one
    [repr] picks among those that round back to the float: the nearer,
    the even one on a tie. *)
Definition candidate (m : positive) (e : Z) (k : Z) (n : Z) : option (Z * Z) :=
  let v := float_value m e in
  let w := (v * Qpower 10 (n - k))%Q in
  let lo := Qfloor w in
  let hi := lo + 1 in
  let value c := (inject_Z c * Qpower 10 (k - n))%Q in
  let ok_lo := (0 <? lo) && rounds_to m e (value lo) in
  let ok_hi := rounds_to m e (value hi) in
  let d_lo := (w - inject_Z lo)%Q in
  let d_hi := (inject_Z hi - w)%Q in
  let pick_lo := Qlt_bool d_lo d_hi || (Qeq_bool d_lo d_hi && Z.even lo) in
  match ok_lo, ok_hi with
  | true, true => Some (if pick_lo then lo else hi, k - n)
  | true, false => Some (lo, k - n)
  | false, true => Some (hi, k - n)
  | false, false => None
  end.

Fixpoint shortest_from (fuel : nat) (m : positive) (e k n : Z) : Z * Z :=
  match fuel with
  | O => (Qfloor (float_value m e * Qpower 10 (n - k)), k - n)
  | S fuel' =>
      match candidate m e k n with
      | Some cq => cq
      | None => shortest_from fuel' m e k (n + 1)
      end
  end.

(** The shortest decimal [c * 10^q] that rounds to the float; seventeen
    digits always suffice for binary64. *)
Definition shortest_decimal (m : positive) (e : Z) : Z * Z :=
  let (c, q) := shortest_from 17 m e (decimal_point (float_value m e)) 1 in
  strip_zeros strip_zeros_fuel c q.

Fixpoint string_take (n : nat) (s : string) : string :=
  match n, s with
  | S n', String c s' => String c (string_take n' s')
  | _, _ => EmptyString
  end.

Fixpoint string_drop (n : nat) (s : string) : string :=
  match n, s with
  | S n', String _ s' => string_drop n' s'
  | _, _ => s
  end.

(** The layout of [repr]: [digits] are the significant digits and the
    value is [0.digits * 10^decpt]. *)
Definition format_repr (digits : string) (decpt : Z) : string :=
  let n := Z.of_nat (String.length digits) in
  if (decpt <=? -4) || (16 <? decpt) then
    let x := decpt - 1 in
    let xs := py_str_int (Z.abs x) in
    string_take 1 digits
    ++ (if 1 <? n then "." ++ string_drop 1 digits else "")
    ++ "e" ++ (if x <? 0 then "-" else "+")
    ++ (if Z.abs x <? 10 then "0" else "") ++ xs
  else if decpt <=? 0 then
    "0." ++ repeat_string (Z.to_nat (- decpt)) "0" ++ digits
  else if n <=? decpt then
    digits ++ repeat_string (Z.to_nat (decpt - n)) "0" ++ ".0"
  else
    string_take (Z.to_nat decpt) digits ++ "."
    ++ string_drop (Z.to_nat decpt) digits.

(** [str(f)], which is [repr(f)], for a [float]. *)
Definition py_str_float (f : spec_float) : string :=
  match f with
  | S754_nan => "nan"
  | S754_infinity s => (if s then "-" else "") ++ "inf"
  | S754_zero s => (if s then "-" else "") ++ "0.0"
  | S754_finite s m e =>
      let (c, q) := shortest_decimal m e in
      let digits := py_str_int c in
      (if s then "-" else "")
      ++ format_repr digits (Z.of_nat (String.length digits) + q)
  end.

End PyNum.

(** ** Python objects, exceptions and dictionaries *)

(** The exceptions the interpreter can raise.  [RecursionError] is only
    the answer of the fuelled reader when its fuel runs out, which
    [read_fuel_enough] below shows never happens. *)
Inductive exn : Type :=
| SyntaxError (msg : string)
| KeyError (key : string)
| ZeroDivisionError
| TypeError
| ValueError
| IndexError
| OverflowError
| RecursionError.

Inductive result (A : Type) : Type :=
| Return (a : A)
| Raise (e : exn).

Arguments Return {A} a.
Arguments Raise {A} e.

(** The functions of the [operator] module that [standard_env] installs,
    and the four [lambda]s it creates. *)
Inductive builtin : Type :=
| op_add | op_sub | op_mul | op_truediv
| op_gt | op_lt | op_ge | op_le | op_eq.

Inductive lam : Type :=
| lambda_cons | lambda_car | lambda_cdr | lambda_atom.

(** A Python object: [int], [float], [str], [list], [bool], [None] and
    the two kinds of function objects. *)
#[local] Unset Elimination Schemes.
Inductive obj : Type :=
| Int (n : Z)
| Float (f : spec_float)
| Str (s : string)
| Lst (l : list obj)
| Bool (b : bool)
| PyNone
| Builtin (f : builtin)
| Lambda (f : lam).
#[local] Set Elimination Schemes.

(** Induction over objects that reaches inside lists. *)
Section ObjInd.
Variable P : obj -> Prop.
Hypothesis HInt : forall n, P (Int n).
Hypothesis HFloat : forall f, P (Float f).
Hypothesis HStr : forall s, P (Str s).
Hypothesis HLst : forall l, Forall P l -> P (Lst l).
Hypothesis HBool : forall b, P (Bool b).
Hypothesis HNone : P PyNone.
Hypothesis HBuiltin : forall f, P (Builtin f).
Hypothesis HLambda : forall f, P (Lambda f).

Fixpoint obj_ind (x : obj) : P x :=
  match x with
  | Int n => HInt n
  | Float f => HFloat f
  | Str s => HStr s
  | Lst l =>
      HLst l
        ((fix all (l : list obj) : Forall P l :=
            match l with
            | [] => Forall_nil P
            | y :: l' => Forall_cons y (obj_ind y) (all l')
            end) l)
  | Bool b => HBool b
  | PyNone => HNone
  | Builtin f => HBuiltin f
  | Lambda f => HLambda f
  end.
End ObjInd.

(** The type aliases of the source, as the [isinstance] tests they are
    used for.  [bool] is a subclass of [int]. *)
Definition isinstance_Symbol (x : obj) : bool :=
  match x with Str _ => true | _ => false end.

Definition isinstance_Number (x : obj) : bool :=
  match x with Int _ | Float _ | Bool _ => true | _ => false end.

Definition isinstance_Atom (x : obj) : bool :=
  isinstance_Symbol x || isinstance_Number x.

Definition isinstance_List (x : obj) : bool :=
  match x with Lst _ => true | _ => false end.

(** *** Numbers: exact comparison and arithmetic *)

(** The exact value of a number: a rational, an infinity or NaN. *)
Inductive xreal : Type :=
| XNaN
| XInf (neg : bool)
| XFin (q : Q).

Definition int_of_bool (b : bool) : Z := if b then 1 else 0.

Definition xreal_of_float (f : spec_float) : xreal :=
  match f with
  | S754_nan => XNaN
  | S754_infinity s => XInf s
  | S754_zero _ => XFin 0
  | S754_finite s m e =>
      XFin (if s then - PyNum.float_value m e else PyNum.float_value m e)
  end.

Definition xreal_of (x : obj) : option xreal :=
  match x with
  | Int n => Some (XFin (inject_Z n))
  | Bool b => Some (XFin (inject_Z (int_of_bool b)))
  | Float f => Some (xreal_of_float f)
  | _ => None
  end.

(** [None] when one side is NaN. *)
Definition xreal_compare (a b : xreal) : option comparison :=
  match a, b with
  | XNaN, _ | _, XNaN => None
  | XInf s1, XInf s2 =>
      Some (match s1, s2 with
            | true, false => Lt
            | false, true => Gt
            | _, _ => Eq
            end)
  | XInf s, XFin _ => Some (if s then Lt else Gt)
  | XFin _, XInf s => Some (if s then Gt else Lt)
  | XFin p, XFin q => Some (Qcompare p q)
  end.

(** The comparison operators of the source. *)
Inductive cmpop : Type := CmpGt | CmpLt | CmpGe | CmpLe.

Definition cmp_holds (op : cmpop) (c : option comparison) : bool :=
  match op, c with
  | _, None => false
  | CmpGt, Some Gt => true
  | CmpLt, Some Lt => true
  | CmpGe, Some (Gt | Eq) => true
  | CmpLe, Some (Lt | Eq) => true
  | _, _ => false
  end.

(** [a == b] *)
Fixpoint py_eq (a b : obj) {struct a} : bool :=
  match a, b with
  | Str s, Str t => String.eqb s t
  | Lst l1, Lst l2 =>
      (fix all (l1 l2 : list obj) {struct l1} : bool :=
         match l1, l2 with
         | [], [] => true
         | x :: l1', y :: l2' => py_eq x y && all l1' l2'
         | _, _ => false
         end) l1 l2
  | PyNone, PyNone => true
  | Builtin f, Builtin g =>
      match f, g with
      | op_add, op_add | op_sub, op_sub | op_mul, op_mul
      | op_truediv, op_truediv | op_gt, op_gt | op_lt, op_lt
      | op_ge, op_ge | op_le, op_le | op_eq, op_eq => true
      | _, _ => false
      end
  | Lambda f, Lambda g =>
      match f, g with
      | lambda_cons, lambda_cons | lambda_car, lambda_car
      | lambda_cdr, lambda_cdr | lambda_atom, lambda_atom => true
      | _, _ => false
      end
  | _, _ =>
      match xreal_of a, xreal_of b with
      | Some p, Some q =>
          match xreal_compare p q with Some Eq => true | _ => false end
      | _, _ => false
      end
  end.

(** [bool(x)]: what [if] and the conditional expression test. *)
Definition truthy (x : obj) : bool :=
  match x with
  | Int n => negb (n =? 0)
  | Float (S754_zero _) => false
  | Float _ => true
  | Str s => negb (String.eqb s "")
  | Lst l => match l with [] => false | _ => true end
  | Bool b => b
  | PyNone => false
  | Builtin _ | Lambda _ => true
  end.

(** *** Dictionaries *)

(** A [dict] in insertion order.  Keys are compared as the host does,
    with [==]; a [list] is not hashable. *)
Definition Env : Type := list (obj * obj).

Definition hashable (k : obj) : bool :=
  match k with Lst _ => false | _ => true end.

Fixpoint dict_get (d : Env) (k : obj) : option obj :=
  match d with
  | [] => None
  | (k', v) :: d' => if py_eq k' k then Some v else dict_get d' k
  end.

Fixpoint dict_put (d : Env) (k v : obj) : Env :=
  match d with
  | [] => [(k, v)]
  | (k', v') :: d' =>
      if py_eq k' k then (k', v) :: d' else (k', v') :: dict_put d' k v
  end.

(** [d[k] = v]; [None] stands for the [TypeError] of an unhashable key. *)
Definition dict_set (d : Env) (k v : obj) : option Env :=
  if hashable k then Some (dict_put d k v) else None.

(** *** The primitives *)

Inductive arith : Type := ArAdd | ArSub | ArMul | ArDiv.

(** [a / b] on two [int]s: the [float] nearest to the quotient. *)
Definition int_true_divide (a b : Z) : result obj :=
  if b =? 0 then Raise ZeroDivisionError
  else
    match
      PyNum.nearest_float (xorb (a <? 0) (b <? 0))
        (inject_Z (Z.abs a) / inject_Z (Z.abs b))
    with
    | S754_infinity _ => Raise OverflowError
    | f => Return (Float f)
    end.

Definition int_arith (op : arith) (a b : Z) : result obj :=
  match op with
  | ArAdd => Return (Int (a + b))
  | ArSub => Return (Int (a - b))
  | ArMul => Return (Int (a * b))
  | ArDiv => int_true_divide a b
  end.

Definition float_arith (op : arith) (x y : spec_float) : result obj :=
  match op with
  | ArAdd => Return (Float (SFadd PyNum.prec PyNum.emax x y))
  | ArSub => Return (Float (SFsub PyNum.prec PyNum.emax x y))
  | ArMul => Return (Float (SFmul PyNum.prec PyNum.emax x y))
  | ArDiv =>
      match y with
      | S754_zero _ => Raise ZeroDivisionError
      | _ => Return (Float (SFdiv PyNum.prec PyNum.emax x y))
      end
  end.

(** A number as an [int] or as a [float]. *)
Definition as_number (x : obj) : option (Z + spec_float) :=
  match x with
  | Int n => Some (inl n)
  | Bool b => Some (inl (int_of_bool b))
  | Float f => Some (inr f)
  | _ => None
  end.

(** The conversion of an operand to [float] when the other one is a
    [float]; it raises [OverflowError] on an [int] that is too large. *)
Definition to_double (n : Z + spec_float) : result spec_float :=
  match n with
  | inr f => Return f
  | inl z =>
      match PyNum.float_of_int z with
      | Some f => Return f
      | None => Raise OverflowError
      end
  end.

Definition number_arith (op : arith) (a b : Z + spec_float) : result obj :=
  match a, b with
  | inl x, inl y => int_arith op x y
  | _, _ =>
      match to_double a with
      | Raise e => Raise e
      | Return x =>
          match to_double b with
          | Raise e => Raise e
          | Return y => float_arith op x y
          end
      end
  end.

Definition repeat_list (n : nat) (l : list obj) : list obj :=
  List.concat (List.repeat l n).

Definition py_add (a b : obj) : result obj :=
  match as_number a, as_number b with
  | Some x, Some y => number_arith ArAdd x y
  | _, _ =>
      match a, b with
      | Str s, Str t => Return (Str (s ++ t))
      | Lst l1, Lst l2 => Return (Lst (l1 ++ l2))
      | _, _ => Raise TypeError
      end
  end.

Definition py_sub (a b : obj) : result obj :=
  match as_number a, as_number b with
  | Some x, Some y => number_arith ArSub x y
  | _, _ => Raise TypeError
  end.

Definition py_mul (a b : obj) : result obj :=
  match as_number a, as_number b with
  | Some x, Some y => number_arith ArMul x y
  | Some (inl n), None =>
      match b with
      | Str s => Return (Str (PyStr.repeat_string (Z.to_nat n) s))
      | Lst l => Return (Lst (repeat_list (Z.to_nat n) l))
      | _ => Raise TypeError
      end
  | None, Some (inl n) =>
      match a with
      | Str s => Return (Str (PyStr.repeat_string (Z.to_nat n) s))
      | Lst l => Return (Lst (repeat_list (Z.to_nat n) l))
      | _ => Raise TypeError
      end
  | _, _ => Raise TypeError
  end.

Definition py_truediv (a b : obj) : result obj :=
  match as_number a, as_number b with
  | Some x, Some y => number_arith ArDiv x y
  | _, _ => Raise TypeError
  end.

(** [a > b], [a < b], [a >= b], [a <= b]: numbers are compared exactly,
    strings and lists in lexicographic order. *)
Fixpoint py_richcmp (op : cmpop) (a b : obj) {struct a} : result obj :=
  match a, b with
  | Str s, Str t => Return (Bool (cmp_holds op (Some (String.compare s t))))
  | Lst l1, Lst l2 =>
      (fix cmp_lists (l1 l2 : list obj) {struct l1} : result obj :=
         match l1, l2 with
         | [], [] => Return (Bool (cmp_holds op (Some Eq)))
         | [], _ :: _ => Return (Bool (cmp_holds op (Some Lt)))
         | _ :: _, [] => Return (Bool (cmp_holds op (Some Gt)))
         | x :: l1', y :: l2' =>
             if py_eq x y then cmp_lists l1' l2' else py_richcmp op x y
         end) l1 l2
  | _, _ =>
      match xreal_of a, xreal_of b with
      | Some p, Some q => Return (Bool (cmp_holds op (xreal_compare p q)))
      | _, _ => Raise TypeError
      end
  end.

(** A call of one of the [operator] functions: two arguments exactly. *)
Definition call_builtin (f : builtin) (args : list obj) : result obj :=
  match args with
  | [a; b] =>
      match f with
      | op_add => py_add a b
      | op_sub => py_sub a b
      | op_mul => py_mul a b
      | op_truediv => py_truediv a b
      | op_gt => py_richcmp CmpGt a b
      | op_lt => py_richcmp CmpLt a b
      | op_ge => py_richcmp CmpGe a b
      | op_le => py_richcmp CmpLe a b
      | op_eq => Return (Bool (py_eq a b))
      end
  | _ => Raise TypeError
  end.

(** [x[i]] for a non-negative index. *)
Definition subscript (x : obj) (i : nat) : result obj :=
  match x with
  | Lst l =>
      match nth_error l i with
      | Some v => Return v
      | None => Raise IndexError
      end
  | Str s =>
      match String.get i s with
      | Some c => Return (Str (String c EmptyString))
      | None => Raise IndexError
      end
  | _ => Raise TypeError
  end.

(** A call of one of the lambdas of [standard_env]:
    [cons = lambda x, y: [x, y]], [car = lambda x: x[0]],
    [cdr = lambda x: x[1]], [atom = lambda x: isinstance(x, Atom)]. *)
Definition call_lambda (f : lam) (args : list obj) : result obj :=
  match f, args with
  | lambda_cons, [x; y] => Return (Lst [x; y])
  | lambda_car, [x] => subscript x 0
  | lambda_cdr, [x] => subscript x 1
  | lambda_atom, [x] => Return (Bool (isinstance_Atom x))
  | _, _ => Raise TypeError
  end.

(** The call of [proc] on the unpacked list [args]. *)
Definition call (proc : obj) (args : list obj) : result obj :=
  match proc with
  | Builtin f => call_builtin f args
  | Lambda f => call_lambda f args
  | _ => Raise TypeError
  end.

(** ** The interpreter *)

(** [tokenize(chars)]:
    [chars.replace('(', ' ( ').replace(')', ' ) ').split()] *)
Definition tokenize (chars : string) : list string :=
  PyStr.split (PyStr.replace ")" " ) " (PyStr.replace "(" " ( " chars)).

(** [atom(token)]: [int(token)], on [ValueError] [float(token)], on
    [ValueError] again the token itself as a [Symbol]. *)
Definition atom (token : string) : obj :=
  match PyNum.py_int token with
  | Some n => Int n
  | None =>
      match PyNum.py_float token with
      | Some f => Float f
      | None => Str token
      end
  end.

(** [read_from_tokens(tokens)].  The list of tokens is mutated by the
    source, so the reader returns what is left of it together with its
    result.  [read_fuel] is the function itself and [read_form] its
    [while] loop with the list [form] built so far; the fuel bounds the
    depth of the calls and [None] means that it ran out. *)
Fixpoint read_fuel (fuel : nat) (tokens : list string)
  : option (result obj * list string) :=
  match fuel with
  | O => None
  | S fuel' =>
      match tokens with
      | [] => Some (Raise (SyntaxError "unexpected EOF"), tokens)
      | token :: tokens' =>
          if String.eqb token "(" then read_form fuel' [] tokens'
          else if String.eqb token ")"
               then Some (Raise (SyntaxError "unexpected )"), tokens')
               else Some (Return (atom token), tokens')
      end
  end
with read_form (fuel : nat) (form : list obj) (tokens : list string)
  : option (result obj * list string) :=
  match fuel with
  | O => None
  | S fuel' =>
      match tokens with
      | [] => Some (Raise IndexError, tokens)
      | token :: tokens' =>
          if negb (String.eqb token ")") then
            match read_fuel fuel' tokens with
            | Some (Return x, rest) => read_form fuel' (form ++ [x]) rest
            | other => other
            end
          else Some (Return (Lst form), tokens')
      end
  end.

Definition read_from_tokens (tokens : list string)
  : result obj * list string :=
  match read_fuel (2 * List.length tokens + 1) tokens with
  | Some r => r
  | None => (Raise RecursionError, tokens)
  end.

(** [parse(input_program)] *)
Definition parse (input_program : string) : result obj :=
  fst (read_from_tokens (tokenize input_program)).

(** [standard_env()] *)
Definition standard_env : Env :=
  [ (Str "+", Builtin op_add);
    (Str "-", Builtin op_sub);
    (Str "*", Builtin op_mul);
    (Str "/", Builtin op_truediv);
    (Str ">", Builtin op_gt);
    (Str "<", Builtin op_lt);
    (Str ">=", Builtin op_ge);
    (Str "<=", Builtin op_le);
    (Str "eq", Builtin op_eq);
    (Str "cons", Lambda lambda_cons);
    (Str "car", Lambda lambda_car);
    (Str "cdr", Lambda lambda_cdr);
    (Str "atom", Lambda lambda_atom) ].

Definition global_env : Env := standard_env.

(** [lisp_eval(x, env)].  The dictionary [env] is mutated by [define],
    also when an exception is raised later on, so the evaluator returns
    the dictionary together with its result. *)
Fixpoint lisp_eval (x : obj) (env : Env) {struct x} : result obj * Env :=
  match x with
  | Str s =>
      match dict_get env x with
      | Some v => (Return v, env)
      | None => (Raise (KeyError s), env)
      end
  | Int _ | Float _ | Bool _ => (Return x, env)
  | PyNone | Builtin _ | Lambda _ => (Raise TypeError, env)
  | Lst [] => (Raise IndexError, env)
  | Lst (head :: operands) =>
      if py_eq head (Str "quote") then
        match operands with
        | [result] => (Return result, env)
        | _ => (Raise ValueError, env)
        end
      else if py_eq head (Str "if") then
        match operands with
        | [condition; consequent; alternative] =>
            match lisp_eval condition env with
            | (Return c, env1) =>
                if truthy c then lisp_eval consequent env1
                else lisp_eval alternative env1
            | (Raise e, env1) => (Raise e, env1)
            end
        | _ => (Raise ValueError, env)
        end
      else if py_eq head (Str "define") then
        match operands with
        | [symbol; exp] =>
            match lisp_eval exp env with
            | (Return v, env1) =>
                match dict_set env1 symbol v with
                | Some env2 => (Return PyNone, env2)
                | None => (Raise TypeError, env1)
                end
            | (Raise e, env1) => (Raise e, env1)
            end
        | _ => (Raise ValueError, env)
        end
      else
        match lisp_eval head env with
        | (Return proc, env1) =>
            match
              (fix eval_args (args : list obj) (env : Env) {struct args}
                 : result (list obj) * Env :=
                 match args with
                 | [] => (Return [], env)
                 | arg :: args' =>
                     match lisp_eval arg env with
                     | (Return v, env') =>
                         match eval_args args' env' with
                         | (Return vs, env'') => (Return (v :: vs), env'')
                         | (Raise e, env'') => (Raise e, env'')
                         end
                     | (Raise e, env') => (Raise e, env')
                     end
                 end) operands env1
            with
            | (Return args, env2) => (call proc args, env2)
            | (Raise e, env2) => (Raise e, env2)
            end
        | (Raise e, env1) => (Raise e, env1)
        end
  end.

(** The list comprehension [[lisp_eval(arg, env) for arg in x[1:]]]. *)
Fixpoint eval_args (args : list obj) (env : Env) : result (list obj) * Env :=
  match args with
  | [] => (Return [], env)
  | arg :: args' =>
      match lisp_eval arg env with
      | (Return v, env') =>
          match eval_args args' env' with
          | (Return vs, env'') => (Return (v :: vs), env'')
          | (Raise e, env'') => (Raise e, env'')
          end
      | (Raise e, env') => (Raise e, env')
      end
  end.

(** [lisp_str(exp)].  The text of a function object ends with the
    address at which the host allocated it; [address] gives its
    hexadecimal digits for each lambda. *)
Definition builtin_name (f : builtin) : string :=
  match f with
  | op_add => "add" | op_sub => "sub" | op_mul => "mul"
  | op_truediv => "truediv" | op_gt => "gt" | op_lt => "lt"
  | op_ge => "ge" | op_le => "le" | op_eq => "eq"
  end.

Fixpoint lisp_str (address : lam -> string) (exp : obj) : string :=
  match exp with
  | Lst l => "(" ++ PyStr.join " " (map (lisp_str address) l) ++ ")"
  | Int n => PyNum.py_str_int n
  | Float f => PyNum.py_str_float f
  | Str s => s
  | Bool b => if b then "True" else "False"
  | PyNone => "None"
  | Builtin f => "<built-in function " ++ builtin_name f ++ ">"
  | Lambda f =>
      "<function standard_env.<locals>.<lambda> at 0x" ++ address f ++ ">"
  end.

(** The body of the loop of [repl]: a value is printed unless it is
    [None], and of the exceptions of the model the loop catches
    [SyntaxError], [ZeroDivisionError] and [KeyError]; any other one
    leaves the loop and ends the program. *)
Definition repl_print (address : lam -> string) (val : obj) : option string :=
  match val with
  | PyNone => None
  | _ => Some (lisp_str address val)
  end.

Definition repl_catches (e : exn) : bool :=
  match e with
  | SyntaxError _ | ZeroDivisionError | KeyError _ => true
  | _ => false
  end.

(** ** Notions used to state the properties *)

(** Evaluation of the text of a program in an environment, as one turn
    of [repl] does it: [lisp_eval(parse(text), env)]. *)
Definition run (text : string) (env : Env) : result obj * Env :=
  match parse text with
  | Return x => lisp_eval x env
  | Raise e => (Raise e, env)
  end.

(** The values that the host takes for false in a test, listed. *)
Definition falsy (v : obj) : Prop :=
  v = Bool false \/ v = Int 0 \/ (exists s, v = Float (S754_zero s))
  \/ v = Str "" \/ v = Lst [] \/ v = PyNone.

(** The three forms of the language. *)
Definition quote_form (t : obj) : obj := Lst [Str "quote"; t].

Definition if_form (condition consequent alternative : obj) : obj :=
  Lst [Str "if"; condition; consequent; alternative].

Definition define_form (symbol exp : obj) : obj :=
  Lst [Str "define"; symbol; exp].

(** What the evaluator does with the operands of each special form, and
    what it does with a procedure application. *)
Definition special_form (name : string) (operands : list obj) (env : Env)
  : result obj * Env :=
  if String.eqb name "quote" then
    match operands with
    | [result] => (Return result, env)
    | _ => (Raise ValueError, env)
    end
  else if String.eqb name "if" then
    match operands with
    | [condition; consequent; alternative] =>
        match lisp_eval condition env with
        | (Return c, env1) =>
            lisp_eval (if truthy c then consequent else alternative) env1
        | (Raise e, env1) => (Raise e, env1)
        end
    | _ => (Raise ValueError, env)
    end
  else
    match operands with
    | [symbol; exp] =>
        match lisp_eval exp env with
        | (Return v, env1) =>
            match dict_set env1 symbol v with
            | Some env2 => (Return PyNone, env2)
            | None => (Raise TypeError, env1)
            end
        | (Raise e, env1) => (Raise e, env1)
        end
    | _ => (Raise ValueError, env)
    end.

Definition application (head : obj) (operands : list obj) (env : Env)
  : result obj * Env :=
  match lisp_eval head env with
  | (Return proc, env1) =>
      match eval_args operands env1 with
      | (Return args, env2) => (call proc args, env2)
      | (Raise e, env2) => (Raise e, env2)
      end
  | (Raise e, env1) => (Raise e, env1)
  end.

(** An integer literal in the words of the specification: an optional
    leading sign and then digits only, at least one. *)
Fixpoint string_all (p : ascii -> bool) (s : string) : bool :=
  match s with
  | EmptyString => true
  | String c s' => p c && string_all p s'
  end.

Definition all_digits (s : string) : bool := string_all PyStr.isdigit s.

Definition not_blank (c : ascii) : bool := negb (PyNum.blank c).

Definition plain_integer (s : string) : option Z :=
  let (neg, body) := PyNum.signed s in
  match body with
  | EmptyString => None
  | _ =>
      if all_digits body
      then Some (if neg then - PyNum.digits_value 0 body
                 else PyNum.digits_value 0 body)
      else None
  end.

(** Numbers as arguments of [/]. *)
Definition zero_number (n : Z + spec_float) : bool :=
  match n with
  | inl z => z =? 0
  | inr (S754_zero _) => true
  | inr _ => false
  end.

(** An [int] with no finite [float] next to it, met by a [float]. *)
Definition overflows_with (a b : Z + spec_float) : bool :=
  match a, b with
  | inl z, inr _ =>
      match PyNum.float_of_int z with None => true | Some _ => false end
  | _, _ => false
  end.

(** A token: a non-empty run of characters that are neither white space
    nor parentheses. *)
Definition token_char (c : ascii) : bool :=
  negb (PyStr.isspace c) && negb (Ascii.eqb c "(") && negb (Ascii.eqb c ")").

Definition token_chars (s : string) : bool := string_all token_char s.

Definition is_token (s : string) : bool :=
  match s with
  | EmptyString => false
  | _ => token_chars s
  end.

(** A [float] of the format that is not NaN. *)
Definition float_number (f : spec_float) : bool :=
  valid_binary PyNum.prec PyNum.emax f
  && match f with S754_nan => false | _ => true end.

(** The atoms that the reader gives back from their printed form: every
    [int]; a [Symbol] that is a token and reads neither as an [int] nor
    as a [float]; a [float] other than NaN. *)
Definition reads_back (a : obj) : bool :=
  match a with
  | Int _ => true
  | Str s =>
      is_token s
      && match PyNum.py_int s with None => true | Some _ => false end
      && match PyNum.py_float s with None => true | Some _ => false end
  | Float f => float_number f
  | _ => false
  end.

(** The terms made of lists and of such atoms. *)
Fixpoint readable (t : obj) : bool :=
  match t with
  | Lst l => forallb readable l
  | a => reads_back a
  end.

(** The tokens of the printed form of a term. *)
Fixpoint tokens_of (address : lam -> string) (t : obj) : list string :=
  match t with
  | Lst l => "(" :: flat_map (tokens_of address) l ++ [")"]
  | a => [lisp_str address a]
  end.

(** The text on which [split] works in [tokenize]: [(] and [)] set off
    by spaces. *)
Definition spaced (chars : string) : string :=
  PyStr.replace ")" " ) " (PyStr.replace "(" " ( " chars).

(** What may follow a term in a printed form: nothing, a space or a
    closing parenthesis. *)
Definition delimited (rest : string) : Prop :=
  rest = "" \/ (exists r, rest = String " " r)
  \/ (exists r, rest = String ")" r).

Definition unexpected_EOF : exn := SyntaxError "unexpected EOF".

(** ** Notions on the text of a number *)

(** The text does not start with a digit. *)
Definition no_digit_first (s : string) : bool :=
  match s with
  | EmptyString => true
  | String c _ => negb (PyStr.isdigit c)
  end.

(** The text starts with a digit. *)
Definition digit_first (s : string) : bool :=
  match s with
  | EmptyString => false
  | String c _ => PyStr.isdigit c
  end.

(** The exponent part as [PyNum.format_repr] writes it: a sign and at
    least two digits. *)
Definition exponent_text (x : Z) : string :=
  "e" ++ (if x <? 0 then "-" else "+")
  ++ (if Z.abs x <? 10 then "0" else "") ++ PyNum.py_str_int (Z.abs x).

(** The characters of the text of a finite [float]. *)
Definition float_char (c : ascii) : bool :=
  PyStr.isdigit c || Ascii.eqb c "." || Ascii.eqb c "e"
  || Ascii.eqb c "+" || Ascii.eqb c "-".

Definition not_underscore (c : ascii) : bool := negb (Ascii.eqb c "_").

(** The characters of an [int] literal after its sign. *)
Definition int_char (c : ascii) : bool :=
  PyStr.isdigit c || Ascii.eqb c "_".

(** ** The read-eval-print loop *)

(** [repr(s)] for a [str] of code points below 256: the text between
    quotes, a single quote unless the text holds one and no double
    quote, with the quote, the backslash and what cannot be printed
    escaped. *)
Module PyRepr.

Definition double_quote : ascii := ascii_of_N 34.
Definition backslash : ascii := ascii_of_N 92.

(** [str.isprintable] on one code point below 256. *)
Definition isprintable (c : ascii) : bool :=
  let n := N_of_ascii c in
  ((32 <=? n) && (n <=? 126) || (161 <=? n) && negb (n =? 173))%N.

Definition hex_digit (n : N) : ascii :=
  if (n <? 10)%N then ascii_of_N (48 + n) else ascii_of_N (87 + n).

Definition escape (quote c : ascii) : string :=
  if Ascii.eqb c quote || Ascii.eqb c backslash
  then String backslash (String c "")
  else if Ascii.eqb c (ascii_of_N 9) then String backslash "t"
  else if Ascii.eqb c (ascii_of_N 10) then String backslash "n"
  else if Ascii.eqb c (ascii_of_N 13) then String backslash "r"
  else if isprintable c then String c ""
  else
    String backslash
      (String "x"
         (String (hex_digit (N_of_ascii c / 16))
            (String (hex_digit (N_of_ascii c mod 16)) ""))).

Fixpoint contains (c : ascii) (s : string) : bool :=
  match s with
  | EmptyString => false
  | String c' s' => Ascii.eqb c' c || contains c s'
  end.

Fixpoint escape_all (quote : ascii) (s : string) : string :=
  match s with
  | EmptyString => EmptyString
  | String c s' => escape quote c ++ escape_all quote s'
  end.

Definition repr (s : string) : string :=
  let quote :=
    if contains "'" s && negb (contains double_quote s)
    then double_quote else "'"%char in
  String quote (escape_all quote s ++ String quote "").

End PyRepr.

(** What the handlers of [repl] print for the exceptions that
    [repl_catches] selects: [str(e)] of a [SyntaxError] is its message
    and [str(e)] of a [KeyError] is [repr] of the key. *)
Definition repl_message (e : exn) : string :=
  match e with
  | SyntaxError msg => "Syntax error: " ++ msg
  | ZeroDivisionError => "Zero Division Error"
  | KeyError key => "Lisp syntax error: " ++ PyRepr.repr key
  | _ => ""
  end.

(** What [input(prompt)] gives to one turn of the loop: a line of text,
    or the [KeyboardInterrupt] of the user at the prompt (one that
    arrives while a line is evaluated is not modelled).  When no event
    is left the input has ended and [input] raises [EOFError]. *)
Inductive event : Type :=
| Line (text : string)
| Interrupt.

(** What the loop writes to the standard output: the prompt of [input]
    and the lines of [print]. *)
Inductive output : Type :=
| Prompt (text : string)
| Printed (line : string).

(** How the loop ends: by [break], by an exception that no handler
    catches, or by the [EOFError] of [input], which none catches
    either. *)
Inductive ending : Type :=
| Break
| Uncaught (e : exn)
| EndOfInput.

(** The [while] loop of [repl] on the global environment [env]. *)
Fixpoint repl_loop (address : lam -> string) (prompt : string)
  (events : list event) (env : Env) : list output * Env * ending :=
  match events with
  | [] => ([Prompt prompt], env, EndOfInput)
  | Interrupt :: _ =>
      ([Prompt prompt; Printed "Keyboard Interrupt"], env, Break)
  | Line text :: events' =>
      match run text env with
      | (Return val, env') =>
          let '(out, env'', e) := repl_loop address prompt events' env' in
          (Prompt prompt
           :: match repl_print address val with
              | Some line => Printed line :: out
              | None => out
              end,
           env'', e)
      | (Raise e, env') =>
          if repl_catches e then
            let '(out, env'', e') := repl_loop address prompt events' env' in
            (Prompt prompt :: Printed (repl_message e) :: out, env'', e')
          else ([Prompt prompt], env', Uncaught e)
      end
  end.

(** [repl(prompt)] *)
Definition repl (address : lam -> string) (prompt : string)
  (events : list event) : list output * Env * ending :=
  let '(out, env, e) := repl_loop address prompt events global_env in
  (Printed "Lisp interpreter" :: out, env, e).

(** ** Notions used to state further properties *)

(** [tokenize] as one scan from left to right: [word] is the token
    read so far, white space ends it and each parenthesis is a token of
    its own. *)
Definition flush (word : string) (l : list string) : list string :=
  match word with
  | EmptyString => l
  | _ => word :: l
  end.

Fixpoint scan (word : string) (s : string) : list string :=
  match s with
  | EmptyString => flush word []
  | String c s' =>
      if PyStr.isspace c then flush word (scan "" s')
      else if Ascii.eqb c "(" || Ascii.eqb c ")"
           then flush word (String c "" :: scan "" s')
           else scan (word ++ String c "") s'
  end.

(** What a token of [tokenize] can be. *)
Definition lexeme (token : string) : bool :=
  String.eqb token "(" || String.eqb token ")" || is_token token.

(** A text of white space only. *)
Definition blank_text (s : string) : bool := string_all PyStr.isspace s.

(** What is left of the tokens after the [)] that closes the list in
    which [depth] more lists are open; [None] when it is missing. *)
Fixpoint after_close (depth : nat) (tokens : list string)
  : option (list string) :=
  match tokens with
  | [] => None
  | token :: tokens' =>
      if String.eqb token "(" then after_close (S depth) tokens'
      else if String.eqb token ")" then
        match depth with
        | O => Some tokens'
        | S depth' => after_close depth' tokens'
        end
      else after_close depth tokens'
  end.

(** The text is empty or starts with white space or a parenthesis. *)
Definition breaks (s : string) : bool :=
  match s with
  | EmptyString => true
  | String c _ => PyStr.isspace c || Ascii.eqb c "(" || Ascii.eqb c ")"
  end.

(** The environment [env'] keeps the keys of [env], in their order, and
    may hold more after them. *)
Definition keeps (env env' : Env) : Prop :=
  exists more, map fst env' = (map fst env ++ more)%list.

Definition bound (env : Env) (k : obj) : Prop := dict_get env k <> None.

(** An expression with a [define] form that is not inside a [quote]
    form. *)
Fixpoint may_define (x : obj) : bool :=
  match x with
  | Lst (head :: operands) =>
      negb (py_eq head (Str "quote"))
      && (py_eq head (Str "define") || may_define head
          || existsb may_define operands)
  | _ => false
  end.

(** The exceptions of a call of a primitive, and those of the
    evaluator. *)
Definition call_error (e : exn) : bool :=
  match e with
  | TypeError | ZeroDivisionError | OverflowError | IndexError => true
  | _ => false
  end.

Definition eval_error (e : exn) : bool :=
  match e with
  | SyntaxError _ | RecursionError => false
  | _ => true
  end.

(** The number of parameters of a procedure of [standard_env]; [None]
    for an object that cannot be called. *)
Definition arity (proc : obj) : option nat :=
  match proc with
  | Builtin _ => Some 2%nat
  | Lambda lambda_cons => Some 2%nat
  | Lambda _ => Some 1%nat
  | _ => None
  end.

(** The operator that holds of [b] and [a] when [op] holds of [a] and
    [b]. *)
Definition mirrored (op : cmpop) : cmpop :=
  match op with
  | CmpGt => CmpLt
  | CmpLt => CmpGt
  | CmpGe => CmpLe
  | CmpLe => CmpGe
  end.





(** The terms that the reader can give: lists of them, [int]s, [float]s
    of the format, and the tokens that are read neither as an [int] nor
    as a [float]. *)
Fixpoint parsed (t : obj) : bool :=
  match t with
  | Lst l => forallb parsed l
  | Float f => valid_binary PyNum.prec PyNum.emax f
  | a => reads_back a
  end.

(** A character that [repr] writes as it is between single quotes. *)
Definition plain_char (c : ascii) : bool :=
  PyRepr.isprintable c && negb (Ascii.eqb c "'")
  && negb (Ascii.eqb c PyRepr.backslash).

(** The exceptions that end the loop of [repl]. *)
Definition fatal (e : exn) : bool :=
  match e with
  | TypeError | ValueError | IndexError | OverflowError => true
  | _ => false
  end.

(** * Properties *)

(** ** The reader *)

(** The reader reports an unexpected end of input only on an empty list
    of tokens; its loop never does. *)
Lemma read_fuel_EOF :
  forall fuel,
    (forall tokens rest,
        read_fuel fuel tokens = Some (Raise unexpected_EOF, rest) ->
        tokens = [])
    /\ (forall form tokens rest,
           read_form fuel form tokens <> Some (Raise unexpected_EOF, rest)).
Proof.
  induction fuel as [|fuel [IHr IHf]]; split; intros; try discriminate.
  - destruct tokens as [|token tokens']; [reflexivity|].
    simpl in H.
    destruct (String.eqb token "(").
    + exfalso. eapply IHf; eauto.
    + destruct (String.eqb token ")"); discriminate.
  - simpl. destruct tokens as [|token tokens']; [discriminate|].
    destruct (negb (String.eqb token ")")); [|discriminate].
    destruct (read_fuel fuel (token :: tokens')) as [[[x|e] r]|] eqn:E.
    + apply IHf.
    + intro H. inversion H; subst. apply IHr in E. discriminate.
    + discriminate.
Qed.

(** More fuel does not change an answer. *)
Lemma read_fuel_S :
  forall fuel,
    (forall tokens r,
        read_fuel fuel tokens = Some r -> read_fuel (S fuel) tokens = Some r)
    /\ (forall form tokens r,
           read_form fuel form tokens = Some r ->
           read_form (S fuel) form tokens = Some r).
Proof.
  induction fuel as [|fuel [IHr IHf]]; split; intros; try discriminate.
  - destruct tokens as [|token tokens']; [exact H|].
    cbn [read_fuel] in H |- *.
    destruct (String.eqb token "("); [apply IHf; exact H|exact H].
  - destruct tokens as [|token tokens']; [exact H|].
    cbn [read_form] in H |- *.
    destruct (negb (String.eqb token ")")); [|exact H].
    destruct (read_fuel fuel (token :: tokens')) as [[[x|e] rest]|] eqn:E;
      try discriminate.
    + rewrite (IHr _ _ E). apply IHf. exact H.
    + rewrite (IHr _ _ E). exact H.
Qed.

Lemma read_fuel_mono :
  forall fuel fuel' tokens r,
    (fuel <= fuel')%nat ->
    read_fuel fuel tokens = Some r -> read_fuel fuel' tokens = Some r.
Proof.
  intros fuel fuel' tokens r Hle H.
  induction Hle; [exact H|].
  apply (proj1 (read_fuel_S m)). exact IHHle.
Qed.

(** A successful read consumes at least one token. *)
Lemma read_fuel_consumes :
  forall fuel,
    (forall tokens x rest,
        read_fuel fuel tokens = Some (Return x, rest) ->
        (List.length rest < List.length tokens)%nat)
    /\ (forall form tokens x rest,
           read_form fuel form tokens = Some (Return x, rest) ->
           (List.length rest < List.length tokens)%nat).
Proof.
  induction fuel as [|fuel [IHr IHf]]; split; intros; try discriminate.
  - destruct tokens as [|token tokens']; [discriminate|].
    cbn [read_fuel] in H.
    destruct (String.eqb token "(").
    + apply IHf in H. simpl. lia.
    + destruct (String.eqb token ")"); inversion H; subst. simpl. lia.
  - destruct tokens as [|token tokens']; [discriminate|].
    cbn [read_form] in H.
    destruct (negb (String.eqb token ")")).
    + destruct (read_fuel fuel (token :: tokens')) as [[[y|e] r]|] eqn:E;
        try discriminate.
      apply IHr in E. apply IHf in H. lia.
    + inversion H; subst. simpl. lia.
Qed.

(** The fuel that [read_from_tokens] gives is enough. *)
Lemma read_fuel_enough :
  forall fuel,
    (forall tokens,
        (2 * List.length tokens <= fuel)%nat -> (1 <= fuel)%nat ->
        read_fuel fuel tokens <> None)
    /\ (forall form tokens,
           (2 * List.length tokens + 1 <= fuel)%nat ->
           read_form fuel form tokens <> None).
Proof.
  induction fuel as [|fuel [IHr IHf]]; split; intros; try lia.
  - destruct tokens as [|token tokens']; [discriminate|].
    cbn [read_fuel].
    destruct (String.eqb token "(").
    + apply IHf. simpl in H. lia.
    + destruct (String.eqb token ")"); discriminate.
  - destruct tokens as [|token tokens']; [discriminate|].
    cbn [read_form].
    destruct (negb (String.eqb token ")")); [|discriminate].
    destruct (read_fuel fuel (token :: tokens')) as [[[y|e] r]|] eqn:E.
    + apply IHf.
      apply (proj1 (read_fuel_consumes fuel)) in E. simpl in *. lia.
    + discriminate.
    + exfalso. revert E. apply IHr; simpl in *; lia.
Qed.

Lemma read_from_tokens_total :
  forall tokens,
    read_fuel (2 * List.length tokens + 1) tokens
    = Some (read_from_tokens tokens).
Proof.
  intros tokens. unfold read_from_tokens.
  destruct (read_fuel (2 * List.length tokens + 1) tokens) eqn:E;
    [reflexivity|].
  exfalso. revert E. apply read_fuel_enough; lia.
Qed.

(** Whatever fuel gives an answer gives the answer of the function. *)
Lemma read_from_tokens_fuel :
  forall fuel tokens r,
    read_fuel fuel tokens = Some r -> read_from_tokens tokens = r.
Proof.
  intros fuel tokens r H.
  pose proof (read_from_tokens_total tokens) as T.
  apply (read_fuel_mono _ (Nat.max fuel (2 * List.length tokens + 1))) in H;
    [|lia].
  apply (read_fuel_mono _ (Nat.max fuel (2 * List.length tokens + 1))) in T;
    [|lia].
  congruence.
Qed.

(** C1. An unterminated list does not fail with the reader's
    "unexpected EOF": that [SyntaxError] is raised on the empty sequence
    of tokens and on no other one.  On ["(+ 1"] the loop of
    [read_from_tokens] looks at [tokens[0]] of the exhausted list and
    the host raises [IndexError], which the loop of [repl] does not
    catch. *)
Theorem C1_unexpected_EOF_only_on_empty_input :
  (forall tokens,
      fst (read_from_tokens tokens) = Raise unexpected_EOF <-> tokens = [])
  /\ parse "" = Raise unexpected_EOF
  /\ parse "(+ 1" = Raise IndexError
  /\ repl_catches IndexError = false.
Proof.
  split; [|repeat split; reflexivity].
  intros tokens. split.
  - intros H.
    pose proof (read_from_tokens_total tokens) as T.
    destruct (read_from_tokens tokens) as [r rest]. simpl in H. subst r.
    eapply (proj1 (read_fuel_EOF _)). exact T.
  - intros ->. reflexivity.
Qed.

(** ** The evaluator *)

Lemma py_eq_Str :
  forall k s, py_eq k (Str s) = true -> k = Str s.
Proof.
  intros k s H. destruct k; simpl in H; try discriminate.
  apply String.eqb_eq in H. congruence.
Qed.

Lemma py_eq_Str_refl : forall s, py_eq (Str s) (Str s) = true.
Proof. intros s. simpl. apply String.eqb_refl. Qed.

(** A list whose head is one of the three reserved symbols is evaluated
    by the rules of that special form. *)
Lemma lisp_eval_special :
  forall name operands env,
    In name ["quote"; "if"; "define"] ->
    lisp_eval (Lst (Str name :: operands)) env
    = special_form name operands env.
Proof.
  intros name operands env [<-|[<-|[<-|[]]]]; unfold special_form; simpl.
  - reflexivity.
  - destruct operands as [|c [|a [|b [|]]]]; try reflexivity.
    destruct (lisp_eval c env) as [[v|e] env1]; [|reflexivity].
    destruct (truthy v); reflexivity.
  - reflexivity.
Qed.

(** Any other non-empty list is a procedure application. *)
Lemma lisp_eval_application :
  forall head operands env,
    py_eq head (Str "quote") = false ->
    py_eq head (Str "if") = false ->
    py_eq head (Str "define") = false ->
    lisp_eval (Lst (head :: operands)) env = application head operands env.
Proof.
  intros head operands env Hq Hi Hd.
  cbn [lisp_eval]. rewrite Hq, Hi, Hd. reflexivity.
Qed.

Lemma truthy_false_iff : forall v, truthy v = false <-> falsy v.
Proof.
  intros v. unfold falsy. split.
  - destruct v as [n|f|s|l|b| | | ]; simpl; intros H; try discriminate.
    + apply negb_false_iff, Z.eqb_eq in H. subst. auto.
    + destruct f; try discriminate. right; right; left. eauto.
    + apply negb_false_iff, String.eqb_eq in H. subst. auto 6.
    + destruct l; [auto 6|discriminate].
    + subst. auto.
    + auto 7.
  - intros [->|[->|[[s ->]|[->|[->| ->]]]]]; reflexivity.
Qed.

(** *** Dictionaries *)

Lemma dict_get_put_same :
  forall d k v, py_eq k k = true -> dict_get (dict_put d k v) k = Some v.
Proof.
  intros d k v Hk. induction d as [|[k' v'] d IH]; simpl.
  - rewrite Hk. reflexivity.
  - destruct (py_eq k' k) eqn:E; simpl; rewrite E; [reflexivity|exact IH].
Qed.

Lemma dict_get_put_other :
  forall d s t v,
    s <> t ->
    dict_get (dict_put d (Str s) v) (Str t) = dict_get d (Str t).
Proof.
  intros d s t v Hst. induction d as [|[k' v'] d IH]; simpl.
  - destruct (String.eqb s t) eqn:E; [|reflexivity].
    apply String.eqb_eq in E. contradiction.
  - destruct (py_eq k' (Str s)) eqn:E; simpl.
    + apply py_eq_Str in E. subst k'. simpl.
      destruct (String.eqb s t) eqn:E'; [|reflexivity].
      apply String.eqb_eq in E'. contradiction.
    + rewrite IH. reflexivity.
Qed.

(** C2. The condition of an [if] form is tested as the host tests any
    object: its value counts as false exactly when it is [False], the
    number zero ([0], [0.0] or [-0.0]), the empty string, the empty list
    or [None]; then the alternative is evaluated and returned, and
    otherwise the consequent. *)
Theorem C2_if_tests_host_truth :
  forall condition consequent alternative env c env1,
    lisp_eval condition env = (Return c, env1) ->
    (falsy c ->
     lisp_eval (if_form condition consequent alternative) env
     = lisp_eval alternative env1)
    /\ (~ falsy c ->
        lisp_eval (if_form condition consequent alternative) env
        = lisp_eval consequent env1).
Proof.
  intros condition consequent alternative env c env1 Hc.
  unfold if_form. rewrite lisp_eval_special by (simpl; auto).
  unfold special_form; simpl. rewrite Hc. split; intros H.
  - apply truthy_false_iff in H. rewrite H. reflexivity.
  - destruct (truthy c) eqn:E; [reflexivity|].
    apply truthy_false_iff in E. contradiction.
Qed.

(** With the number [0] as condition the alternative is returned. *)
Lemma C2_witness :
  lisp_eval (if_form (Int 0) (Int 1) (Int 2)) standard_env
  = lisp_eval (Int 2) standard_env.
Proof.
  apply (proj1 (C2_if_tests_host_truth (Int 0) (Int 1) (Int 2)
                  standard_env (Int 0) standard_env eq_refl)).
  right; left; reflexivity.
Defined.

(** The claim that [(if 0 a b)] returns the consequent fails on
    [(if 0 1 2)], whose value is [2]. *)
Lemma C2_counterexample :
  parse "(if 0 1 2)" = Return (if_form (Int 0) (Int 1) (Int 2))
  /\ fst (run "(if 0 1 2)" standard_env) = Return (Int 2)
  /\ fst (run "(if 0 1 2)" standard_env) <> Return (Int 1).
Proof. repeat split. discriminate. Qed.

(** C3. The empty list fails with the host's [IndexError] and a [quote],
    [if] or [define] form with a wrong number of operands fails with the
    host's [ValueError], before anything is evaluated and with the
    environment unchanged; the loop of [repl] catches neither. *)
Theorem C3_malformed_forms_fail :
  forall operands env,
    lisp_eval (Lst []) env = (Raise IndexError, env)
    /\ (List.length operands <> 1%nat ->
        lisp_eval (Lst (Str "quote" :: operands)) env
        = (Raise ValueError, env))
    /\ (List.length operands <> 3%nat ->
        lisp_eval (Lst (Str "if" :: operands)) env = (Raise ValueError, env))
    /\ (List.length operands <> 2%nat ->
        lisp_eval (Lst (Str "define" :: operands)) env
        = (Raise ValueError, env))
    /\ repl_catches IndexError = false
    /\ repl_catches ValueError = false.
Proof.
  intros operands env. repeat split.
  - destruct operands as [|a [|b l]]; simpl; intros H;
      [reflexivity|contradiction|reflexivity].
  - destruct operands as [|a [|b [|c [|d l]]]]; simpl; intros H;
      try reflexivity; contradiction.
  - destruct operands as [|a [|b [|c l]]]; simpl; intros H;
      try reflexivity; contradiction.
Qed.

Lemma C3_witness :
  lisp_eval (Lst [Str "quote"]) standard_env = (Raise ValueError, standard_env)
  /\ lisp_eval (Lst [Str "if"; Int 1; Int 2]) standard_env
     = (Raise ValueError, standard_env)
  /\ lisp_eval (Lst [Str "define"; Str "x"]) standard_env
     = (Raise ValueError, standard_env).
Proof.
  split; [|split].
  - apply (proj1 (proj2 (C3_malformed_forms_fail [] standard_env))).
    simpl. discriminate.
  - apply (proj1 (proj2 (proj2
             (C3_malformed_forms_fail [Int 1; Int 2] standard_env)))).
    simpl. discriminate.
  - apply (proj1 (proj2 (proj2 (proj2
             (C3_malformed_forms_fail [Str "x"] standard_env))))).
    simpl. discriminate.
Defined.

(** The malformed forms do not fail with one error: the empty list
    raises [IndexError], the error of any index out of range, and
    [(quote)] raises [ValueError]. *)
Lemma C3_counterexample :
  fst (run "()" standard_env) = Raise IndexError
  /\ fst (run "(quote)" standard_env) = Raise ValueError
  /\ fst (run "(car (quote ()))" standard_env) = Raise IndexError
  /\ ~ (exists e,
          fst (run "()" standard_env) = Raise e
          /\ fst (run "(quote)" standard_env) = Raise e).
Proof.
  repeat split. intros [e [H1 H2]].
  vm_compute in H1, H2. congruence.
Qed.

(** C4. [car] and [cdr] are the host's [x[0]] and [x[1]]: on a
    two-element list they return its first and its second element; on a
    number, [None] or a procedure they fail with [TypeError]; on any
    list [car] returns the first element when there is one and [cdr]
    the second when there is one, and both fail with [IndexError]
    otherwise; on a symbol they index its characters the same way. *)
Theorem C4_car_cdr_index :
  forall v x y l s,
    call (Lambda lambda_car) [Lst [x; y]] = Return x
    /\ call (Lambda lambda_cdr) [Lst [x; y]] = Return y
    /\ (isinstance_List v = false -> isinstance_Symbol v = false ->
        call (Lambda lambda_car) [v] = Raise TypeError
        /\ call (Lambda lambda_cdr) [v] = Raise TypeError)
    /\ call (Lambda lambda_car) [Lst l]
       = match l with
         | first :: _ => Return first
         | [] => Raise IndexError
         end
    /\ call (Lambda lambda_cdr) [Lst l]
       = match l with
         | _ :: second :: _ => Return second
         | _ => Raise IndexError
         end
    /\ call (Lambda lambda_car) [Str s]
       = match s with
         | String c _ => Return (Str (String c ""))
         | EmptyString => Raise IndexError
         end
    /\ call (Lambda lambda_cdr) [Str s]
       = match s with
         | String _ (String c _) => Return (Str (String c ""))
         | _ => Raise IndexError
         end.
Proof.
  intros v x y l s. repeat split.
  - destruct v; simpl in *; try reflexivity; discriminate.
  - destruct v; simpl in *; try reflexivity; discriminate.
  - destruct l; reflexivity.
  - destruct l as [|a [|b l]]; reflexivity.
  - destruct s; reflexivity.
  - destruct s as [|a [|b s]]; reflexivity.
Qed.

Lemma C4_witness :
  call (Lambda lambda_car) [Int 5] = Raise TypeError
  /\ call (Lambda lambda_cdr) [Int 5] = Raise TypeError.
Proof.
  apply (proj1 (proj2 (proj2
           (C4_car_cdr_index (Int 5) PyNone PyNone [] "")))); reflexivity.
Defined.

(** On a list of three elements [car] and [cdr] do not fail, on the
    empty list they fail with [IndexError] and not with [TypeError], and
    on a symbol they return one of its characters. *)
Lemma C4_counterexample :
  fst (run "(car (quote (1 2 3)))" standard_env) = Return (Int 1)
  /\ fst (run "(cdr (quote (1 2 3)))" standard_env) = Return (Int 2)
  /\ fst (run "(car (quote ()))" standard_env) = Raise IndexError
  /\ fst (run "(cdr (quote (1)))" standard_env) = Raise IndexError
  /\ fst (run "(car (quote abc))" standard_env) = Return (Str "a").
Proof. repeat split. Qed.

(** C5. Only the selected branch of an [if] form is evaluated: when the
    value of the condition is true the result and the environment are
    those of the condition followed by the consequent, whatever the
    alternative is, and when it is false those of the condition followed
    by the alternative, whatever the consequent is. *)
Theorem C5_if_evaluates_one_branch :
  forall condition consequent alternative env c env1,
    lisp_eval condition env = (Return c, env1) ->
    (truthy c = true ->
     forall other,
       lisp_eval (if_form condition consequent alternative) env
       = lisp_eval consequent env1
       /\ lisp_eval (if_form condition consequent other) env
          = lisp_eval (if_form condition consequent alternative) env)
    /\ (truthy c = false ->
        forall other,
          lisp_eval (if_form condition consequent alternative) env
          = lisp_eval alternative env1
          /\ lisp_eval (if_form condition other alternative) env
             = lisp_eval (if_form condition consequent alternative) env).
Proof.
  intros condition consequent alternative env c env1 Hc.
  unfold if_form.
  split; intros Ht other;
    rewrite !lisp_eval_special by (simpl; auto);
    unfold special_form; simpl; rewrite Hc, Ht; split; reflexivity.
Qed.

(** [(if (> 3 2) 1 (define y 7))] returns [1] and leaves the
    environment as it was: [y] is not bound. *)
Lemma C5_witness :
  lisp_eval (if_form (Lst [Str ">"; Int 3; Int 2]) (Int 1)
               (define_form (Str "y") (Int 7))) standard_env
  = (Return (Int 1), standard_env)
  /\ dict_get
       (snd (lisp_eval (if_form (Lst [Str ">"; Int 3; Int 2]) (Int 1)
                          (define_form (Str "y") (Int 7))) standard_env))
       (Str "y") = None.
Proof.
  assert (H : lisp_eval (if_form (Lst [Str ">"; Int 3; Int 2]) (Int 1)
                           (define_form (Str "y") (Int 7))) standard_env
              = (Return (Int 1), standard_env)).
  { apply (proj1 (C5_if_evaluates_one_branch
                    (Lst [Str ">"; Int 3; Int 2]) (Int 1)
                    (define_form (Str "y") (Int 7))
                    standard_env (Bool true) standard_env
                    eq_refl) eq_refl PyNone). }
  split; [exact H|]. rewrite H. reflexivity.
Defined.

(** C6. In every environment where [+] is bound to the addition of the
    host, [(define x 5)] returns [None], for which the loop prints
    nothing, and binds [x] to [5] in the environment, where [(+ x 1)]
    then returns [6] and changes nothing. *)
Theorem C6_define_then_use :
  forall address env,
    dict_get env (Str "+") = Some (Builtin op_add) ->
    let env1 := dict_put env (Str "x") (Int 5) in
    run "(define x 5)" env = (Return PyNone, env1)
    /\ repl_print address PyNone = None
    /\ dict_get env1 (Str "x") = Some (Int 5)
    /\ run "(+ x 1)" env1 = (Return (Int 6), env1).
Proof.
  intros address env Hplus env1.
  assert (Hx : dict_get env1 (Str "x") = Some (Int 5)).
  { apply dict_get_put_same. reflexivity. }
  assert (Hp : dict_get env1 (Str "+") = Some (Builtin op_add)).
  { unfold env1. rewrite dict_get_put_other by discriminate. exact Hplus. }
  repeat split; try assumption.
  change (run "(+ x 1)" env1)
    with (lisp_eval (Lst [Str "+"; Str "x"; Int 1]) env1).
  rewrite lisp_eval_application by reflexivity.
  unfold application. cbn [lisp_eval eval_args].
  rewrite Hp, Hx. reflexivity.
Qed.

Lemma C6_witness :
  run "(define x 5)" standard_env
  = (Return PyNone, dict_put standard_env (Str "x") (Int 5))
  /\ run "(+ x 1)" (dict_put standard_env (Str "x") (Int 5))
     = (Return (Int 6), dict_put standard_env (Str "x") (Int 5)).
Proof.
  pose proof (C6_define_then_use (fun _ => "0") standard_env eq_refl) as H.
  split; [apply H|apply H].
Defined.

(** The statement does not hold in every environment: after
    [(define + -)] the same two programs return [4], and in the empty
    environment the second one fails on the unbound [+]. *)
Lemma C6_counterexample :
  fst (run "(+ x 1)"
         (snd (run "(define x 5)" (snd (run "(define + -)" standard_env)))))
  = Return (Int 4)
  /\ fst (run "(+ x 1)" (snd (run "(define x 5)" []))) = Raise (KeyError "+").
Proof. split; reflexivity. Qed.

(** C10. A binding made by [define] for [quote], [if] or [define] does
    not change how a list headed by that symbol is evaluated: it is
    still evaluated by the rule of the special form, and the value
    stored in the environment is not applied. *)
Theorem C10_special_forms_not_shadowed :
  forall name exp env env' operands,
    In name ["quote"; "if"; "define"] ->
    lisp_eval (define_form (Str name) exp) env = (Return PyNone, env') ->
    dict_get env' (Str name) <> None
    /\ lisp_eval (Lst (Str name :: operands)) env'
       = special_form name operands env'.
Proof.
  intros name exp env env' operands Hname Hdef. split.
  - unfold define_form in Hdef.
    rewrite lisp_eval_special in Hdef by (simpl; auto).
    unfold special_form in Hdef; simpl in Hdef.
    destruct (lisp_eval exp env) as [[v|e] env1]; [|discriminate].
    inversion Hdef; subst.
    rewrite dict_get_put_same by apply py_eq_Str_refl. discriminate.
  - apply lisp_eval_special. exact Hname.
Qed.

(** After [(define quote car)], [(quote (1 2))] is still the list
    [(1 2)] and not its first element. *)
Lemma C10_witness :
  dict_get (dict_put standard_env (Str "quote") (Lambda lambda_car))
    (Str "quote") <> None
  /\ lisp_eval (Lst [Str "quote"; Lst [Int 1; Int 2]])
       (dict_put standard_env (Str "quote") (Lambda lambda_car))
     = (Return (Lst [Int 1; Int 2]),
        dict_put standard_env (Str "quote") (Lambda lambda_car)).
Proof.
  apply (C10_special_forms_not_shadowed "quote" (Str "car") standard_env
           (dict_put standard_env (Str "quote") (Lambda lambda_car))
           [Lst [Int 1; Int 2]]).
  - simpl. auto.
  - reflexivity.
Defined.

(** ** Host strings and numbers *)

Lemma string_all_impl :
  forall (p q : ascii -> bool) s,
    (forall c, p c = true -> q c = true) ->
    string_all p s = true -> string_all q s = true.
Proof.
  intros p q s Hpq. induction s as [|c s IH]; simpl; [reflexivity|].
  intros H. apply andb_true_iff in H as [Hc Hs].
  rewrite (Hpq _ Hc), (IH Hs). reflexivity.
Qed.

Lemma lstrip_not_blank :
  forall s,
    string_all not_blank s = true -> PyStr.lstrip PyNum.blank s = s.
Proof.
  intros [|c s] H; [reflexivity|]. simpl in *.
  apply andb_true_iff in H as [Hc _].
  unfold not_blank in Hc. apply negb_true_iff in Hc. rewrite Hc. reflexivity.
Qed.

Lemma rstrip_not_blank :
  forall s,
    string_all not_blank s = true -> PyStr.rstrip PyNum.blank s = s.
Proof.
  induction s as [|c s IH]; [reflexivity|]. simpl. intros H.
  apply andb_true_iff in H as [Hc Hs]. rewrite (IH Hs).
  unfold not_blank in Hc. apply negb_true_iff in Hc.
  destruct s; [rewrite Hc|]; reflexivity.
Qed.

Lemma strip_not_blank :
  forall s,
    string_all not_blank s = true -> PyStr.strip PyNum.blank s = s.
Proof.
  intros s H. unfold PyStr.strip.
  rewrite (lstrip_not_blank s H). apply rstrip_not_blank. exact H.
Qed.

Lemma isdigit_not_blank :
  forall c, PyStr.isdigit c = true -> not_blank c = true.
Proof.
  intros [[] [] [] [] [] [] [] []]; vm_compute; intros H;
    first [reflexivity | discriminate].
Qed.

Lemma digits_from_all_digits :
  forall s prev acc,
    all_digits s = true ->
    (s <> "" \/ prev = true) ->
    PyNum.digits_from prev acc s = Some (PyNum.digits_value acc s).
Proof.
  induction s as [|c s IH]; intros prev acc Hd Hne.
  - destruct Hne as [Hne| ->]; [contradiction|reflexivity].
  - unfold all_digits in Hd. simpl in Hd.
    apply andb_true_iff in Hd as [Hc Hs]. simpl. rewrite Hc.
    apply IH; [exact Hs|right; reflexivity].
Qed.

Lemma signed_cases :
  forall s,
    (exists r, s = String "-" r /\ PyNum.signed s = (true, r))
    \/ (exists r, s = String "+" r /\ PyNum.signed s = (false, r))
    \/ PyNum.signed s = (false, s).
Proof.
  intros [|c r]; [right; right; reflexivity|].
  destruct (Ascii.eqb c "-") eqn:E1.
  - apply Ascii.eqb_eq in E1. subst. left. eauto.
  - destruct (Ascii.eqb c "+") eqn:E2.
    + apply Ascii.eqb_eq in E2. subst. right; left. eauto.
    + right; right.
      destruct c as [[] [] [] [] [] [] [] []]; try reflexivity; discriminate.
Qed.

Lemma py_int_plain_integer :
  forall s n, plain_integer s = Some n -> PyNum.py_int s = Some n.
Proof.
  intros s n H. unfold plain_integer in H.
  assert (Hbody : forall neg body,
             PyNum.signed s = (neg, body) ->
             body <> "" /\ all_digits body = true
             /\ n = (if neg then - PyNum.digits_value 0 body
                     else PyNum.digits_value 0 body)).
  { intros neg body E. rewrite E in H.
    destruct body as [|a b]; [discriminate|].
    destruct (all_digits (String a b)); [|discriminate].
    inversion H. repeat split. discriminate. }
  assert (Hdig : forall body, all_digits body = true ->
                              string_all not_blank body = true).
  { intros body. apply string_all_impl. exact isdigit_not_blank. }
  assert (Hstrip : PyStr.strip PyNum.blank s = s).
  { apply strip_not_blank.
    destruct (signed_cases s) as [[r [-> E]]|[[r [-> E]]|E]];
      destruct (Hbody _ _ E) as [_ [Hd _]].
    - simpl. apply Hdig. exact Hd.
    - simpl. apply Hdig. exact Hd.
    - apply Hdig. exact Hd. }
  unfold PyNum.py_int. rewrite Hstrip.
  destruct (PyNum.signed s) as [neg body].
  destruct (Hbody neg body eq_refl) as [Hne [Hd ->]].
  rewrite digits_from_all_digits by auto. reflexivity.
Qed.



(** ** Rounding a rational to binary64 *)

Section FloatRounding.
Local Open Scope Q_scope.

(** *** Powers of two as rationals *)

Lemma pow2_pos : forall e : Z, 0 < 2 ^ e.
Proof. intros e. apply Qpower_0_lt. reflexivity. Qed.

Lemma pow2_add : forall a b : Z, 2 ^ (a + b) == 2 ^ a * 2 ^ b.
Proof. intros a b. apply Qpower_plus. discriminate. Qed.

Lemma pow2_succ : forall a : Z, 2 ^ (a + 1) == 2 * 2 ^ a.
Proof. intros a. rewrite pow2_add. change (2 ^ 1) with 2. lra. Qed.

Lemma pow2_pred : forall a : Z, 2 ^ (a - 1) == 2 ^ a * (1 # 2).
Proof.
  intros a. pose proof (pow2_succ (a - 1)) as H.
  replace (a - 1 + 1)%Z with a in H by lia. lra.
Qed.

Lemma pow2_le : forall a b : Z, (a <= b)%Z -> 2 ^ a <= 2 ^ b.
Proof. intros a b H. apply Qpower_le_compat_l; [exact H|lra]. Qed.

Lemma pow2_lt : forall a b : Z, (a < b)%Z -> 2 ^ a < 2 ^ b.
Proof. intros a b H. apply Qpower_lt_compat_l; [exact H|lra]. Qed.

Lemma pow2_inject : forall n : Z, (0 <= n)%Z -> inject_Z (2 ^ n) == 2 ^ n.
Proof. intros n H. apply Zpower_Qpower. exact H. Qed.

Lemma pow2_cancel : forall e : Z, 2 ^ e * 2 ^ (- e) == 1.
Proof.
  intros e. rewrite <- pow2_add. replace (e + - e)%Z with 0%Z by lia.
  reflexivity.
Qed.

Lemma Qlt_bool_iff : forall a b, PyNum.Qlt_bool a b = true <-> a < b.
Proof.
  intros a b. unfold PyNum.Qlt_bool. rewrite negb_true_iff.
  split; intros H.
  - apply Qnot_le_lt. intros Hle. apply Qle_bool_iff in Hle. congruence.
  - destruct (Qle_bool b a) eqn:E; [|reflexivity].
    apply Qle_bool_iff in E. lra.
Qed.

Lemma Qlt_bool_false_iff : forall a b, PyNum.Qlt_bool a b = false <-> b <= a.
Proof.
  intros a b. unfold PyNum.Qlt_bool. rewrite negb_false_iff.
  apply Qle_bool_iff.
Qed.

(** *** The magnitude of a rational *)

Lemma log2_bounds :
  forall n : Z,
    (0 < n)%Z ->
    2 ^ Z.log2 n <= inject_Z n /\ inject_Z n < 2 * 2 ^ Z.log2 n.
Proof.
  intros n Hn. destruct (Z.log2_spec n Hn) as [H1 H2].
  pose proof (Z.log2_nonneg n) as H0.
  rewrite <- pow2_succ, <- !pow2_inject by lia.
  rewrite <- Zle_Qle, <- Zlt_Qlt.
  replace (Z.log2 n + 1)%Z with (Z.succ (Z.log2 n)) by lia.
  split; assumption.
Qed.

Lemma magnitude_spec :
  forall v : Q,
    0 < v ->
    2 ^ (PyNum.magnitude v - 1) <= v /\ v < 2 ^ PyNum.magnitude v.
Proof.
  intros v Hv. unfold PyNum.magnitude.
  set (k := (Z.log2 (Qnum v) - Z.log2 (Zpos (Qden v)))%Z).
  assert (Hnum : (0 < Qnum v)%Z).
  { destruct v as [a b]. unfold Qlt in Hv. simpl in *. lia. }
  destruct (log2_bounds _ Hnum) as [A1 A2].
  destruct (log2_bounds (Zpos (Qden v)) (Pos2Z.is_pos _)) as [B1 B2].
  assert (Hv' : v * inject_Z (Zpos (Qden v)) == inject_Z (Qnum v)).
  { destruct v as [a b]. unfold Qeq, Qmult, inject_Z. simpl. lia. }
  assert (Hk : 2 ^ Z.log2 (Qnum v) == 2 ^ k * 2 ^ Z.log2 (Zpos (Qden v))).
  { rewrite <- pow2_add. unfold k.
    replace (Z.log2 (Qnum v) - Z.log2 (Zpos (Qden v))
             + Z.log2 (Zpos (Qden v)))%Z with (Z.log2 (Qnum v)) by lia.
    reflexivity. }
  pose proof (pow2_pos k) as Pk.
  pose proof (pow2_pos (Z.log2 (Zpos (Qden v)))) as Pb.
  set (B := inject_Z (Zpos (Qden v))) in *.
  set (A := inject_Z (Qnum v)) in *.
  set (pa := 2 ^ Z.log2 (Qnum v)) in *.
  set (pb := 2 ^ Z.log2 (Zpos (Qden v))) in *.
  assert (HB : 0 < B) by lra.
  destruct (PyNum.Qlt_bool v (2 ^ k)) eqn:E.
  - apply Qlt_bool_iff in E. split; [|exact E].
    rewrite pow2_pred.
    apply Qmult_lt_0_le_reg_r with B; [exact HB|].
    rewrite Hv'.
    apply Qle_trans with (2 ^ k * (1 # 2) * (2 * pb)); [|nra].
    apply Qmult_le_l; [nra|lra].
  - apply Qlt_bool_false_iff in E. replace (k + 1 - 1)%Z with k by lia.
    split; [exact E|].
    rewrite pow2_succ.
    apply Qmult_lt_r with B; [exact HB|].
    rewrite Hv'.
    apply Qlt_le_trans with (2 * 2 ^ k * pb); [nra|].
    apply Qmult_le_l; [nra|lra].
Qed.

Lemma magnitude_unique :
  forall (v : Q) (k : Z),
    2 ^ (k - 1) <= v -> v < 2 ^ k -> PyNum.magnitude v = k.
Proof.
  intros v k H1 H2.
  assert (Hv : 0 < v) by (pose proof (pow2_pos (k - 1)); lra).
  destruct (magnitude_spec v Hv) as [M1 M2].
  destruct (Z.lt_trichotomy (PyNum.magnitude v) k) as [H|[H|H]];
    [exfalso|exact H|exfalso].
  - pose proof (pow2_le (PyNum.magnitude v) (k - 1) ltac:(lia)). lra.
  - pose proof (pow2_le k (PyNum.magnitude v - 1) ltac:(lia)). lra.
Qed.

(** *** Rounding to the nearest integer *)

Lemma Qfloor_unique :
  forall (x : Q) (n : Z),
    inject_Z n <= x -> x < inject_Z (n + 1) -> Qfloor x = n.
Proof.
  intros x n H1 H2.
  pose proof (Qfloor_le x) as F1. pose proof (Qlt_floor x) as F2.
  assert (A : inject_Z (Qfloor x) < inject_Z (n + 1)) by lra.
  assert (B : inject_Z n < inject_Z (Qfloor x + 1)) by lra.
  rewrite <- Zlt_Qlt in A, B. lia.
Qed.

Lemma inject_Z_succ : forall n : Z, inject_Z (n + 1) == inject_Z n + 1.
Proof. intros n. rewrite inject_Z_plus. reflexivity. Qed.

Lemma inject_Z_pred : forall n : Z, inject_Z (n - 1) == inject_Z n - 1.
Proof.
  intros n. replace (n - 1)%Z with (n + -1)%Z by lia.
  rewrite inject_Z_plus. reflexivity.
Qed.

(** [x] within a half of the integer [n] rounds to [n]; on the two
    ties this asks for an even [n]. *)
Lemma round_half_even_near :
  forall (x : Q) (n : Z),
    inject_Z n - (1 # 2) <= x -> x <= inject_Z n + (1 # 2) ->
    (Z.even n = true
     \/ (inject_Z n - (1 # 2) < x /\ x < inject_Z n + (1 # 2))) ->
    PyNum.round_half_even x = n.
Proof.
  intros x n H1 H2 H3. unfold PyNum.round_half_even.
  pose proof (inject_Z_succ n) as S1. pose proof (inject_Z_pred n) as S2.
  destruct (Qlt_le_dec x (inject_Z n)) as [Hlt|Hge].
  - assert (F : Qfloor x = (n - 1)%Z).
    { apply Qfloor_unique; [lra|]. replace (n - 1 + 1)%Z with n by lia. lra. }
    rewrite F.
    destruct (Qcompare_spec (x - inject_Z (n - 1)) (1 # 2)) as [E|E|E].
    + assert (Hev : Z.even n = true)
        by (destruct H3 as [H|[H _]]; [exact H|lra]).
      replace (Z.even (n - 1)) with (negb (Z.even n)).
      * rewrite Hev. simpl. lia.
      * replace (n - 1)%Z with (Z.pred n) by lia. rewrite Z.even_pred.
        rewrite <- Z.negb_even. reflexivity.
    + lra.
    + lia.
  - assert (F : Qfloor x = n) by (apply Qfloor_unique; lra).
    rewrite F.
    destruct (Qcompare_spec (x - inject_Z n) (1 # 2)) as [E|E|E].
    + assert (Hev : Z.even n = true)
        by (destruct H3 as [H|[_ H]]; [exact H|lra]).
      rewrite Hev. reflexivity.
    + reflexivity.
    + lra.
Qed.

(** Above a half below the integer [n], and below [n], [x] rounds to
    [n] when [n - 1] is odd. *)
Lemma round_half_even_up :
  forall (x : Q) (n : Z),
    inject_Z n - (1 # 2) <= x -> x < inject_Z n -> Z.even n = true ->
    PyNum.round_half_even x = n.
Proof.
  intros x n H1 H2 H3. apply round_half_even_near; [exact H1|lra|].
  left. exact H3.
Qed.

(** *** The float nearest to a rational *)

Lemma nearest_float_at :
  forall neg v e m,
    0 < v ->
    Z.max (PyNum.magnitude v - PyNum.prec) (-1074) = e ->
    PyNum.round_half_even (v * 2 ^ (- e)) = Zpos m ->
    Zpos m <> (2 ^ PyNum.prec)%Z ->
    (e <= PyNum.emax - PyNum.prec)%Z ->
    PyNum.nearest_float neg v = S754_finite neg m e.
Proof.
  intros neg v e m Hv He Hm Hne Hle. unfold PyNum.nearest_float.
  destruct (Qle_bool v 0) eqn:E; [apply Qle_bool_iff in E; lra|].
  rewrite He, Hm.
  destruct (Z.eqb_spec (Zpos m) (2 ^ PyNum.prec)); [contradiction|].
  apply Z.leb_le in Hle. rewrite Hle. reflexivity.
Qed.

Lemma nearest_float_carry :
  forall neg v e,
    0 < v ->
    Z.max (PyNum.magnitude v - PyNum.prec) (-1074) = e ->
    PyNum.round_half_even (v * 2 ^ (- e)) = (2 ^ PyNum.prec)%Z ->
    (e + 1 <= PyNum.emax - PyNum.prec)%Z ->
    PyNum.nearest_float neg v
    = S754_finite neg (2 ^ 52)%positive (e + 1).
Proof.
  intros neg v e Hv He Hm Hle. unfold PyNum.nearest_float.
  destruct (Qle_bool v 0) eqn:E; [apply Qle_bool_iff in E; lra|].
  rewrite He, Hm. rewrite Z.eqb_refl.
  apply Z.leb_le in Hle. change (2 ^ (PyNum.prec - 1))%Z with (Zpos (2 ^ 52)).
  cbv iota beta. rewrite Hle. reflexivity.
Qed.

Lemma digits2_pos_bounds :
  forall m : positive,
    (2 ^ (Zpos (digits2_pos m) - 1) <= Zpos m < 2 ^ Zpos (digits2_pos m))%Z.
Proof.
  induction m as [m IH|m IH|]; cbn [digits2_pos]; [| |simpl; lia].
  - rewrite Pos2Z.inj_succ.
    replace (Z.succ (Zpos (digits2_pos m)) - 1)%Z
      with (1 + (Zpos (digits2_pos m) - 1))%Z by lia.
    replace (Z.succ (Zpos (digits2_pos m)))
      with (1 + Zpos (digits2_pos m))%Z by lia.
    rewrite !Z.pow_add_r, Z.pow_1_r by lia. lia.
  - rewrite Pos2Z.inj_succ.
    replace (Z.succ (Zpos (digits2_pos m)) - 1)%Z
      with (1 + (Zpos (digits2_pos m) - 1))%Z by lia.
    replace (Z.succ (Zpos (digits2_pos m)))
      with (1 + Zpos (digits2_pos m))%Z by lia.
    rewrite !Z.pow_add_r, Z.pow_1_r by lia. lia.
Qed.

(** A float of the format is normal, with a mantissa of 53 bits, or
    subnormal, with the least exponent and a shorter mantissa. *)
Lemma bounded_cases :
  forall m e,
    bounded PyNum.prec PyNum.emax m e = true ->
    (-1074 <= e <= 971)%Z
    /\ ((2 ^ 52 <= Zpos m < 2 ^ 53)%Z
        \/ (e = -1074 /\ Zpos m < 2 ^ 52)%Z).
Proof.
  intros m e H. unfold bounded, canonical_mantissa in H.
  apply andb_true_iff in H as [H1 H2].
  apply Z.eqb_eq in H1. apply Z.leb_le in H2.
  unfold fexp, emin, PyNum.prec, PyNum.emax in *.
  pose proof (digits2_pos_bounds m) as [D1 D2].
  destruct (Z.eq_dec (Zpos (digits2_pos m)) 53) as [E|E].
  - rewrite E in *. split; [lia|]. left. split; [exact D1|exact D2].
  - split; [lia|]. right. split; [lia|].
    apply Z.lt_le_trans with (2 ^ Zpos (digits2_pos m))%Z; [exact D2|].
    apply Z.pow_le_mono_r; lia.
Qed.

(** The interval of the rationals that round to a float, in units of
    the last place of the float. *)
Lemma rounds_to_units :
  forall m e v,
    PyNum.rounds_to m e v = true ->
    let g := if Pos.eqb m (2 ^ 52) && (-1074 <? e)%Z then 1 # 4 else 1 # 2 in
    let x := v * 2 ^ (- e) in
    inject_Z (Zpos m) - g <= x /\ x <= inject_Z (Zpos m) + (1 # 2)
    /\ (Z.even (Zpos m) = true
        \/ (inject_Z (Zpos m) - g < x /\ x < inject_Z (Zpos m) + (1 # 2))).
Proof.
  intros m e v H g x. unfold PyNum.rounds_to in H.
  unfold PyNum.float_value, PyNum.gap_above, PyNum.gap_below in H.
  fold g in H.
  pose proof (pow2_pos e) as P. pose proof (pow2_pos (- e)) as Pi.
  pose proof (pow2_cancel e) as PPi.
  assert (Ga : 2 ^ (e - 1) == 2 ^ e * (1 # 2)) by apply pow2_pred.
  assert (Gb : (if Pos.eqb m (2 ^ 52) && (-1074 <? e)%Z
                then 2 ^ (e - 2) else 2 ^ (e - 1)) == 2 ^ e * g).
  { unfold g. destruct (Pos.eqb m (2 ^ 52) && (-1074 <? e)%Z).
    - replace (e - 2)%Z with (e - 1 - 1)%Z by lia.
      rewrite !pow2_pred. lra.
    - exact Ga. }
  assert (Lo : (inject_Z (Zpos m) * 2 ^ e
                - (if Pos.eqb m (2 ^ 52) && (-1074 <? e)%Z
                   then 2 ^ (e - 2) else 2 ^ (e - 1))) * 2 ^ (- e)
               == inject_Z (Zpos m) - g).
  { rewrite Gb.
    transitivity (inject_Z (Zpos m) * (2 ^ e * 2 ^ (- e))
                  - g * (2 ^ e * 2 ^ (- e))); [ring|].
    rewrite PPi. ring. }
  assert (Hi : (inject_Z (Zpos m) * 2 ^ e + 2 ^ (e - 1)) * 2 ^ (- e)
               == inject_Z (Zpos m) + (1 # 2)).
  { rewrite Ga.
    transitivity (inject_Z (Zpos m) * (2 ^ e * 2 ^ (- e))
                  + (1 # 2) * (2 ^ e * 2 ^ (- e))); [ring|].
    rewrite PPi. ring. }
  unfold x.
  destruct (Z.even (Zpos m)).
  - apply andb_true_iff in H as [H1 H2].
    apply Qle_bool_iff in H1, H2.
    apply (Qmult_le_compat_r _ _ (2 ^ (- e))) in H1; [|lra].
    apply (Qmult_le_compat_r _ _ (2 ^ (- e))) in H2; [|lra].
    split; [lra|]. split; [lra|]. left. reflexivity.
  - apply andb_true_iff in H as [H1 H2].
    apply Qlt_bool_iff in H1, H2.
    apply (Qmult_lt_compat_r _ _ (2 ^ (- e))) in H1; [|lra].
    apply (Qmult_lt_compat_r _ _ (2 ^ (- e))) in H2; [|lra].
    split; [lra|]. split; [lra|]. right. split; lra.
Qed.

Lemma units_scale :
  forall (v : Q) (e k : Z), v * 2 ^ (- e) * 2 ^ (e + k) == v * 2 ^ k.
Proof.
  intros v e k. rewrite pow2_add.
  transitivity (v * (2 ^ e * 2 ^ (- e)) * 2 ^ k); [ring|].
  rewrite pow2_cancel. ring.
Qed.

Lemma units_back : forall (v : Q) (e : Z), v * 2 ^ (- e) * 2 ^ e == v.
Proof.
  intros v e. transitivity (v * (2 ^ e * 2 ^ (- e))); [ring|].
  rewrite pow2_cancel. ring.
Qed.

(** The magnitude of [v] from that of [v] in units of [2^e]. *)
Lemma magnitude_units :
  forall (v : Q) (e k : Z),
    (1 <= k)%Z ->
    inject_Z (2 ^ (k - 1)) <= v * 2 ^ (- e) ->
    v * 2 ^ (- e) < inject_Z (2 ^ k) ->
    PyNum.magnitude v = (e + k)%Z.
Proof.
  intros v e k Hk H1 H2.
  rewrite pow2_inject in H1, H2 by lia.
  pose proof (pow2_pos e) as P.
  apply magnitude_unique.
  - rewrite <- (units_back v e).
    replace (e + k - 1)%Z with ((k - 1) + e)%Z by lia. rewrite pow2_add.
    apply Qmult_le_compat_r; lra.
  - rewrite <- (units_back v e).
    replace (e + k)%Z with (k + e)%Z by lia. rewrite pow2_add.
    apply Qmult_lt_compat_r; lra.
Qed.

Lemma magnitude_units_le :
  forall (v : Q) (e k : Z),
    0 < v -> (0 <= k)%Z ->
    v * 2 ^ (- e) < inject_Z (2 ^ k) ->
    (PyNum.magnitude v <= e + k)%Z.
Proof.
  intros v e k Hv Hk H. rewrite pow2_inject in H by lia.
  destruct (magnitude_spec v Hv) as [M1 _].
  pose proof (pow2_pos e) as P.
  assert (H' : v < 2 ^ (e + k)).
  { rewrite <- (units_back v e).
    replace (e + k)%Z with (k + e)%Z by lia. rewrite pow2_add.
    apply Qmult_lt_compat_r; lra. }
  assert (L : 2 ^ (PyNum.magnitude v - 1) < 2 ^ (e + k)) by lra.
  apply Qpower_lt_compat_l_inv in L; [lia|lra].
Qed.

(** A positive rational in the interval of a float of the format has
    this float for nearest float. *)
Lemma nearest_float_rounds_to :
  forall neg m e v,
    bounded PyNum.prec PyNum.emax m e = true ->
    0 < v ->
    PyNum.rounds_to m e v = true ->
    PyNum.nearest_float neg v = S754_finite neg m e.
Proof.
  intros neg m e v Hb Hv Hr.
  destruct (bounded_cases m e Hb) as [He Hm].
  pose proof (rounds_to_units m e v Hr) as U. cbv zeta in U.
  destruct U as [U1 [U2 U3]].
  assert (Hne : Zpos m <> (2 ^ PyNum.prec)%Z).
  { unfold PyNum.prec. destruct Hm as [Hm|[_ Hm]]; lia. }
  assert (Hle : (e <= PyNum.emax - PyNum.prec)%Z).
  { unfold PyNum.prec, PyNum.emax. lia. }
  destruct (Pos.eqb m (2 ^ 52) && (-1074 <? e)%Z) eqn:Bd.
  - (* the least mantissa of a binade: the interval is narrower below *)
    apply andb_true_iff in Bd as [Bm Be].
    apply Pos.eqb_eq in Bm. apply Z.ltb_lt in Be. subst m.
    change (inject_Z (Zpos (2 ^ 52))) with (inject_Z (2 ^ 52)) in *.
    destruct (Qlt_le_dec (v * 2 ^ (- e)) (inject_Z (2 ^ 52))) as [Lt|Ge].
    + assert (Mg : PyNum.magnitude v = (e + 52)%Z).
      { apply magnitude_units; [lia| |exact Lt].
        change (inject_Z (2 ^ (52 - 1))) with (2251799813685248 # 1).
        change (inject_Z (2 ^ 52)) with (4503599627370496 # 1) in *. lra. }
      pose proof (nearest_float_carry neg v (e - 1) Hv) as C.
      replace (e - 1 + 1)%Z with e in C by lia.
      apply C; clear C.
      * rewrite Mg. unfold PyNum.prec. lia.
      * apply round_half_even_up; [| |reflexivity].
        -- replace (- (e - 1))%Z with (- e + 1)%Z by lia.
           rewrite pow2_succ.
           change (inject_Z (2 ^ PyNum.prec)) with (9007199254740992 # 1).
           change (inject_Z (2 ^ 52)) with (4503599627370496 # 1) in *.
           lra.
        -- replace (- (e - 1))%Z with (- e + 1)%Z by lia.
           rewrite pow2_succ.
           change (inject_Z (2 ^ PyNum.prec)) with (9007199254740992 # 1).
           change (inject_Z (2 ^ 52)) with (4503599627370496 # 1) in *.
           lra.
      * unfold PyNum.prec, PyNum.emax. lia.
    + assert (Mg : PyNum.magnitude v = (e + 53)%Z).
      { apply magnitude_units; [lia|exact Ge|].
        change (inject_Z (2 ^ 53)) with (9007199254740992 # 1).
        change (inject_Z (2 ^ 52)) with (4503599627370496 # 1) in *. lra. }
      apply nearest_float_at; try assumption.
      * rewrite Mg. unfold PyNum.prec. lia.
      * apply round_half_even_near.
        -- change (inject_Z (Zpos (2 ^ 52))) with (inject_Z (2 ^ 52)). lra.
        -- exact U2.
        -- left. reflexivity.
  - (* any other float: a half unit on each side *)
    assert (Hx : PyNum.round_half_even (v * 2 ^ (- e)) = Zpos m).
    { apply round_half_even_near; assumption. }
    assert (M1 : inject_Z 1 <= inject_Z (Zpos m)).
    { rewrite <- Zle_Qle. lia. }
    destruct Hm as [[N1 N2]|[Emin Hsub]].
    + assert (N2' : (Zpos m <= 2 ^ 53 - 1)%Z) by lia.
      pose proof N1 as N1q.
      rewrite Zle_Qle in N1q, N2'.
      change (inject_Z (2 ^ 53 - 1)) with (9007199254740991 # 1) in N2'.
      change (inject_Z (2 ^ 52)) with (4503599627370496 # 1) in N1q.
      destruct (Qlt_le_dec (v * 2 ^ (- e)) (inject_Z (2 ^ 52))) as [Lt|Ge].
      * change (inject_Z (2 ^ 52)) with (4503599627370496 # 1) in Lt.
        assert (Em : Zpos m = (2 ^ 52)%Z).
        { assert (A : inject_Z (Zpos m) < inject_Z (2 ^ 52 + 1)).
          { change (inject_Z (2 ^ 52 + 1)) with (4503599627370497 # 1). lra. }
          rewrite <- Zlt_Qlt in A. lia. }
        assert (Ee : e = (-1074)%Z).
        { apply andb_false_iff in Bd as [Bd|Bd].
          - apply Pos.eqb_neq in Bd. exfalso. apply Bd.
            apply Pos2Z.inj. exact Em.
          - apply Z.ltb_ge in Bd. lia. }
        assert (Mg : PyNum.magnitude v = (e + 52)%Z).
        { apply magnitude_units; [lia| |exact Lt].
          change (inject_Z (2 ^ (52 - 1))) with (2251799813685248 # 1).
          rewrite Em in U1.
          change (inject_Z (2 ^ 52)) with (4503599627370496 # 1) in U1. lra. }
        apply nearest_float_at; try assumption.
        rewrite Mg. unfold PyNum.prec. lia.
      * assert (Mg : PyNum.magnitude v = (e + 53)%Z).
        { apply magnitude_units; [lia|exact Ge|].
          change (inject_Z (2 ^ 53)) with (9007199254740992 # 1). lra. }
        apply nearest_float_at; try assumption.
        rewrite Mg. unfold PyNum.prec. lia.
    + assert (Hsub' : (Zpos m <= 2 ^ 52 - 1)%Z) by lia.
      rewrite Zle_Qle in Hsub'.
      change (inject_Z (2 ^ 52 - 1)) with (4503599627370495 # 1) in Hsub'.
      assert (Mg : (PyNum.magnitude v <= e + 52)%Z).
      { apply magnitude_units_le; [exact Hv|lia|].
        change (inject_Z (2 ^ 52)) with (4503599627370496 # 1). lra. }
      apply nearest_float_at; try assumption.
      unfold PyNum.prec. lia.
Qed.

(** *** Powers of ten as rationals *)

Lemma pow10_pos : forall e : Z, 0 < 10 ^ e.
Proof. intros e. apply Qpower_0_lt. reflexivity. Qed.

Lemma pow10_add : forall a b : Z, 10 ^ (a + b) == 10 ^ a * 10 ^ b.
Proof. intros a b. apply Qpower_plus. discriminate. Qed.

Lemma pow10_le : forall a b : Z, (a <= b)%Z -> 10 ^ a <= 10 ^ b.
Proof. intros a b H. apply Qpower_le_compat_l; [exact H|lra]. Qed.

Lemma pow10_cancel : forall e : Z, 10 ^ e * 10 ^ (- e) == 1.
Proof.
  intros e. rewrite <- pow10_add. replace (e + - e)%Z with 0%Z by lia.
  reflexivity.
Qed.

(** *** The position of the decimal point *)

Lemma decimal_point_from_spec :
  forall (v : Q) (fuel : nat) (k0 : Z),
    10 ^ (k0 - 1) <= v ->
    v < 10 ^ (k0 + Z.of_nat fuel - 1) ->
    10 ^ (PyNum.decimal_point_from fuel k0 v - 1) <= v
    /\ v < 10 ^ PyNum.decimal_point_from fuel k0 v.
Proof.
  intros v. induction fuel as [|fuel IH]; intros k0 H1 H2.
  - simpl. split; [exact H1|].
    apply Qlt_le_trans with (10 ^ (k0 + Z.of_nat 0 - 1)); [exact H2|].
    apply pow10_le. lia.
  - cbn [PyNum.decimal_point_from].
    destruct (PyNum.Qlt_bool v (10 ^ k0)) eqn:E.
    + apply Qlt_bool_iff in E. split; assumption.
    + apply Qlt_bool_false_iff in E. apply IH.
      * replace (k0 + 1 - 1)%Z with k0 by lia. exact E.
      * replace (k0 + 1 + Z.of_nat fuel - 1)%Z
          with (k0 + Z.of_nat (S fuel) - 1)%Z by lia.
        exact H2.
Qed.

(** The value of a float of the format lies between the least
    subnormal and the first power of two that is out of range. *)
Lemma float_value_range :
  forall m e,
    bounded PyNum.prec PyNum.emax m e = true ->
    2 ^ (-1074) <= PyNum.float_value m e
    /\ PyNum.float_value m e < 2 ^ 1024.
Proof.
  intros m e Hb. destruct (bounded_cases m e Hb) as [He Hm].
  unfold PyNum.float_value.
  assert (M1 : 1 <= inject_Z (Zpos m)).
  { change 1 with (inject_Z 1). rewrite <- Zle_Qle. lia. }
  assert (M2 : inject_Z (Zpos m) < 2 ^ 53).
  { rewrite <- pow2_inject by lia. rewrite <- Zlt_Qlt.
    destruct Hm as [Hm|[_ Hm]]; lia. }
  pose proof (pow2_pos e) as P.
  pose proof (pow2_le (-1074) e ltac:(lia)) as P1.
  pose proof (pow2_le e 971 ltac:(lia)) as P2.
  pose proof (pow2_pos (-1074)) as P0.
  assert (E : 2 ^ 1024 == 2 ^ 53 * 2 ^ 971)
    by (rewrite <- pow2_add; reflexivity).
  split.
  - apply Qle_trans with (1 * 2 ^ e); [lra|].
    apply Qmult_le_compat_r; lra.
  - rewrite E.
    apply Qlt_le_trans with (2 ^ 53 * 2 ^ e).
    + apply Qmult_lt_compat_r; lra.
    + apply Qmult_le_l; [apply pow2_pos|exact P2].
Qed.

Lemma decimal_point_spec :
  forall m e,
    bounded PyNum.prec PyNum.emax m e = true ->
    10 ^ (PyNum.decimal_point (PyNum.float_value m e) - 1)
    <= PyNum.float_value m e
    /\ PyNum.float_value m e
       < 10 ^ PyNum.decimal_point (PyNum.float_value m e).
Proof.
  intros m e Hb. destruct (float_value_range m e Hb) as [R1 R2].
  unfold PyNum.decimal_point. apply decimal_point_from_spec.
  - apply Qle_trans with (2 ^ (-1074)); [|exact R1].
    apply Qle_bool_iff. vm_compute. reflexivity.
  - apply Qlt_le_trans with (2 ^ 1024); [exact R2|].
    apply Qle_bool_iff. vm_compute. reflexivity.
Qed.

(** *** The shortest decimal that rounds to a float *)

Lemma rounds_to_compat :
  forall m e p q, p == q -> PyNum.rounds_to m e p = PyNum.rounds_to m e q.
Proof.
  intros m e p q H. unfold PyNum.rounds_to, PyNum.Qlt_bool.
  assert (L : forall a, Qle_bool a p = Qle_bool a q).
  { intros a. destruct (Qle_bool a p) eqn:E1, (Qle_bool a q) eqn:E2;
      try reflexivity.
    - apply Qle_bool_iff in E1. rewrite H in E1. apply Qle_bool_iff in E1.
      congruence.
    - apply Qle_bool_iff in E2. rewrite <- H in E2. apply Qle_bool_iff in E2.
      congruence. }
  assert (R : forall a, Qle_bool p a = Qle_bool q a).
  { intros a. destruct (Qle_bool p a) eqn:E1, (Qle_bool q a) eqn:E2;
      try reflexivity.
    - apply Qle_bool_iff in E1. rewrite H in E1. apply Qle_bool_iff in E1.
      congruence.
    - apply Qle_bool_iff in E2. rewrite <- H in E2. apply Qle_bool_iff in E2.
      congruence. }
  rewrite !L, !R. reflexivity.
Qed.

(** What [candidate] returns is positive and rounds to the float. *)
Lemma candidate_sound :
  forall m e k n c q,
    0 < PyNum.float_value m e ->
    PyNum.candidate m e k n = Some (c, q) ->
    (0 < c)%Z /\ PyNum.rounds_to m e (inject_Z c * 10 ^ q) = true.
Proof.
  intros m e k n c q Hv H. unfold PyNum.candidate in H.
  assert (Hw : 0 <= PyNum.float_value m e * 10 ^ (n - k)).
  { apply Qmult_le_0_compat; [lra|]. pose proof (pow10_pos (n - k)). lra. }
  remember (PyNum.float_value m e * 10 ^ (n - k)) as w eqn:Ew. clear Ew.
  assert (Hlo : (0 <= Qfloor w)%Z).
  { change 0%Z with (Qfloor 0). apply Qfloor_resp_le. exact Hw. }
  destruct ((0 <? Qfloor w)%Z
            && PyNum.rounds_to m e (inject_Z (Qfloor w) * 10 ^ (k - n)))
    eqn:Elo;
    destruct (PyNum.rounds_to m e (inject_Z (Qfloor w + 1) * 10 ^ (k - n)))
      eqn:Ehi;
    try discriminate.
  - apply andb_true_iff in Elo as [Epos Elo]. apply Z.ltb_lt in Epos.
    destruct (PyNum.Qlt_bool (w - inject_Z (Qfloor w))
                (inject_Z (Qfloor w + 1) - w)
              || Qeq_bool (w - inject_Z (Qfloor w))
                   (inject_Z (Qfloor w + 1) - w)
                 && Z.even (Qfloor w));
      injection H as <- <-; split; try assumption; lia.
  - apply andb_true_iff in Elo as [Epos Elo]. apply Z.ltb_lt in Epos.
    injection H as <- <-. split; assumption.
  - injection H as <- <-. split; [lia|assumption].
Qed.

Lemma floor_scaled :
  forall (v : Q) (j : Z),
    inject_Z (Qfloor (v * 10 ^ j)) * 10 ^ (- j) <= v
    /\ v < inject_Z (Qfloor (v * 10 ^ j) + 1) * 10 ^ (- j).
Proof.
  intros v j.
  pose proof (Qfloor_le (v * 10 ^ j)) as F1.
  pose proof (Qlt_floor (v * 10 ^ j)) as F2.
  pose proof (pow10_pos (- j)) as P.
  pose proof (pow10_cancel j) as C.
  assert (E : v * 10 ^ j * 10 ^ (- j) == v).
  { transitivity (v * (10 ^ j * 10 ^ (- j))); [ring|]. rewrite C. ring. }
  split.
  - rewrite <- E at 2. apply Qmult_le_compat_r; lra.
  - rewrite <- E at 1. apply Qmult_lt_compat_r; lra.
Qed.

(** Seventeen digits are enough: one of the two decimals with seventeen
    digits next to a float of the format rounds to it. *)
Lemma candidate_17 :
  forall m e,
    bounded PyNum.prec PyNum.emax m e = true ->
    PyNum.candidate m e (PyNum.decimal_point (PyNum.float_value m e)) 17
    <> None.
Proof.
  intros m e Hb.
  destruct (decimal_point_spec m e Hb) as [K1 K2].
  destruct (float_value_range m e Hb) as [R1 _].
  destruct (bounded_cases m e Hb) as [He Hm].
  pose proof (pow2_pos (-1074)) as P0.
  pose proof (pow2_pos e) as P.
  assert (V53 : PyNum.float_value m e < (9007199254740992 # 1) * 2 ^ e).
  { unfold PyNum.float_value. apply Qmult_lt_compat_r; [exact P|].
    change (9007199254740992 # 1) with (inject_Z (2 ^ 53)).
    rewrite <- Zlt_Qlt. destruct Hm as [Hm|[_ Hm]]; lia. }
  assert (V52 : Pos.eqb m (2 ^ 52) = true ->
                PyNum.float_value m e == (4503599627370496 # 1) * 2 ^ e).
  { intros E. apply Pos.eqb_eq in E. unfold PyNum.float_value.
    rewrite E. reflexivity. }
  unfold PyNum.candidate.
  remember (PyNum.decimal_point (PyNum.float_value m e)) as k eqn:Ek.
  clear Ek.
  destruct (floor_scaled (PyNum.float_value m e) (17 - k)) as [F1 F2].
  replace (- (17 - k))%Z with (k - 17)%Z in F1, F2 by lia.
  assert (HT : 0 < 10 ^ (k - 17)) by apply pow10_pos.
  assert (T16 : 10 ^ (k - 17) * (10000000000000000 # 1)
                <= PyNum.float_value m e).
  { change (10000000000000000 # 1) with (10 ^ 16). rewrite <- pow10_add.
    replace (k - 17 + 16)%Z with (k - 1)%Z by lia. exact K1. }
  remember (Qfloor (PyNum.float_value m e * 10 ^ (17 - k))) as lo eqn:El.
  clear El.
  assert (Sp : inject_Z (lo + 1) * 10 ^ (k - 17)
               == inject_Z lo * 10 ^ (k - 17) + 10 ^ (k - 17)).
  { rewrite inject_Z_plus. ring. }
  (* the lower decimal is positive *)
  assert (Lpos : (0 <? lo)%Z = true).
  { apply Z.ltb_lt.
    assert (A : inject_Z 0 < inject_Z (lo + 1)).
    { apply Qmult_lt_r with (10 ^ (k - 17)); [exact HT|].
      change (inject_Z 0) with 0. lra. }
    rewrite <- Zlt_Qlt in A.
    assert (B : lo <> 0%Z).
    { intros B. rewrite B in Sp, F2. change (inject_Z 0) with 0 in Sp. lra. }
    lia. }
  rewrite Lpos. cbn [andb].
  (* one of the two is in the interval *)
  assert (Ga : PyNum.gap_above e == 2 ^ e * (1 # 2)) by apply pow2_pred.
  assert (Gb : PyNum.gap_below m e
               == 2 ^ e * (if Pos.eqb m (2 ^ 52) && (-1074 <? e)%Z
                           then 1 # 4 else 1 # 2)).
  { unfold PyNum.gap_below.
    destruct (Pos.eqb m (2 ^ 52) && (-1074 <? e)%Z); [|apply pow2_pred].
    replace (e - 2)%Z with (e - 1 - 1)%Z by lia. rewrite !pow2_pred. ring. }
  assert (Sm : 10 ^ (k - 17) < PyNum.gap_below m e + PyNum.gap_above e
               /\ 0 < PyNum.gap_below m e /\ 0 < PyNum.gap_above e).
  { rewrite Ga, Gb.
    destruct (Pos.eqb m (2 ^ 52) && (-1074 <? e)%Z) eqn:Bd.
    - apply andb_true_iff in Bd as [Bm _]. specialize (V52 Bm). lra.
    - lra. }
  destruct Sm as [Sm [Gbp Gap]].
  assert (One : PyNum.rounds_to m e (inject_Z lo * 10 ^ (k - 17)) = true
                \/ PyNum.rounds_to m e (inject_Z (lo + 1) * 10 ^ (k - 17))
                   = true).
  { unfold PyNum.rounds_to.
    remember (PyNum.float_value m e) as v.
    remember (PyNum.gap_below m e) as gb.
    remember (PyNum.gap_above e) as ga.
    remember (inject_Z lo * 10 ^ (k - 17)) as VL.
    remember (inject_Z (lo + 1) * 10 ^ (k - 17)) as VH.
    remember (10 ^ (k - 17)) as T.
    destruct (Z.even (Zpos m)).
    - destruct (Qlt_le_dec VL (v - gb)) as [D|D].
      + right. apply andb_true_iff. split; apply Qle_bool_iff; lra.
      + left. apply andb_true_iff. split; apply Qle_bool_iff; lra.
    - destruct (Qlt_le_dec (v - gb) VL) as [D|D].
      + left. apply andb_true_iff. split; apply Qlt_bool_iff; lra.
      + right. apply andb_true_iff. split; apply Qlt_bool_iff; lra. }
  destruct One as [One|One]; rewrite One.
  - destruct (PyNum.rounds_to m e (inject_Z (lo + 1) * 10 ^ (k - 17)));
      discriminate.
  - destruct (PyNum.rounds_to m e (inject_Z lo * 10 ^ (k - 17)));
      discriminate.
Qed.

Lemma float_value_pos : forall m e, 0 < PyNum.float_value m e.
Proof.
  intros m e. unfold PyNum.float_value.
  apply Qmult_lt_0_compat; [|apply pow2_pos].
  change 0 with (inject_Z 0). rewrite <- Zlt_Qlt. lia.
Qed.

Lemma shortest_from_sound :
  forall m e,
    bounded PyNum.prec PyNum.emax m e = true ->
    forall (fuel : nat) (n c q : Z),
      (1 <= fuel)%nat -> (n + Z.of_nat fuel = 18)%Z ->
      PyNum.shortest_from fuel m e
        (PyNum.decimal_point (PyNum.float_value m e)) n = (c, q) ->
      (0 < c)%Z /\ PyNum.rounds_to m e (inject_Z c * 10 ^ q) = true.
Proof.
  intros m e Hb. induction fuel as [|fuel IH]; intros n c q Hf Hn H; [lia|].
  cbn [PyNum.shortest_from] in H.
  destruct (PyNum.candidate m e
              (PyNum.decimal_point (PyNum.float_value m e)) n)
    as [[c' q']|] eqn:E.
  - injection H as -> ->.
    eapply candidate_sound; [apply float_value_pos|exact E].
  - destruct fuel as [|fuel].
    + exfalso. replace n with 17%Z in E by lia.
      revert E. apply candidate_17. exact Hb.
    + apply (IH (n + 1)%Z); [lia|lia|exact H].
Qed.

Lemma strip_zeros_sound :
  forall (fuel : nat) (c q c' q' : Z),
    (0 < c)%Z ->
    PyNum.strip_zeros fuel c q = (c', q') ->
    (0 < c')%Z /\ inject_Z c' * 10 ^ q' == inject_Z c * 10 ^ q.
Proof.
  induction fuel as [|fuel IH]; intros c q c' q' Hc H.
  - injection H as <- <-. split; [exact Hc|reflexivity].
  - cbn [PyNum.strip_zeros] in H.
    destruct ((c mod 10 =? 0)%Z && negb (c =? 0)%Z) eqn:E.
    + apply andb_true_iff in E as [E _]. apply Z.eqb_eq in E.
      assert (Hd : c = (10 * (c / 10))%Z).
      { pose proof (Z.div_mod c 10 ltac:(lia)). lia. }
      destruct (IH (c / 10)%Z (q + 1)%Z c' q' ltac:(lia) H) as [P1 P2].
      split; [exact P1|]. rewrite P2, pow10_add.
      rewrite Hd at 2. rewrite inject_Z_mult.
      change (10 ^ 1) with (inject_Z 10). ring.
    + injection H as <- <-. split; [exact Hc|reflexivity].
Qed.

(** The decimal that [repr] prints is positive and rounds to the
    float. *)
Lemma shortest_decimal_sound :
  forall m e c q,
    bounded PyNum.prec PyNum.emax m e = true ->
    PyNum.shortest_decimal m e = (c, q) ->
    (0 < c)%Z /\ PyNum.rounds_to m e (inject_Z c * 10 ^ q) = true.
Proof.
  intros m e c q Hb H. unfold PyNum.shortest_decimal in H.
  destruct (PyNum.shortest_from 17 m e
              (PyNum.decimal_point (PyNum.float_value m e)) 1)
    as [c0 q0] eqn:E.
  destruct (shortest_from_sound m e Hb 17 1 c0 q0 ltac:(lia) ltac:(lia) E)
    as [S1 S2].
  destruct (strip_zeros_sound _ _ _ _ _ S1 H) as [Z1 Z2].
  split; [exact Z1|]. rewrite (rounds_to_compat m e _ _ Z2). exact S2.
Qed.

(** Reading the decimal that [repr] prints, in any of its forms, gives
    the float back. *)
Lemma float_of_decimal_shortest :
  forall neg m e c q c' q',
    bounded PyNum.prec PyNum.emax m e = true ->
    PyNum.shortest_decimal m e = (c, q) ->
    inject_Z c' * 10 ^ q' == inject_Z c * 10 ^ q ->
    PyNum.float_of_decimal neg c' q' = S754_finite neg m e.
Proof.
  intros neg m e c q c' q' Hb H E.
  destruct (shortest_decimal_sound m e c q Hb H) as [S1 S2].
  unfold PyNum.float_of_decimal.
  apply nearest_float_rounds_to; [exact Hb| |].
  - rewrite E. apply Qmult_lt_0_compat; [|apply pow10_pos].
    change 0 with (inject_Z 0). rewrite <- Zlt_Qlt. exact S1.
  - rewrite (rounds_to_compat m e _ _ E). exact S2.
Qed.

(** *** Division and zero *)

Lemma round_half_even_floor :
  forall x : Q, (Qfloor x <= PyNum.round_half_even x)%Z.
Proof.
  intros x. unfold PyNum.round_half_even.
  destruct (x - inject_Z (Qfloor x) ?= 1 # 2);
    [destruct (Z.even (Qfloor x))| |]; lia.
Qed.

(** Rounding never turns a rational that is at least one into zero. *)
Lemma nearest_float_not_zero :
  forall neg v z, 1 <= v -> PyNum.nearest_float neg v <> S754_zero z.
Proof.
  intros neg v z Hv. unfold PyNum.nearest_float.
  destruct (Qle_bool v 0) eqn:E; [apply Qle_bool_iff in E; lra|].
  destruct (magnitude_spec v ltac:(lra)) as [M1 M2].
  set (k := PyNum.magnitude v) in *.
  assert (Hk : (1 <= k)%Z).
  { destruct (Z_lt_le_dec k 1) as [Hlt|Hge]; [|exact Hge].
    pose proof (pow2_le k 0 ltac:(lia)) as P. change (2 ^ 0) with 1 in P.
    lra. }
  set (e := Z.max (k - PyNum.prec) (-1074)).
  assert (He : (e <= k - 1)%Z) by (unfold e, PyNum.prec; lia).
  assert (Hx : 1 <= v * 2 ^ (- e)).
  { pose proof (pow2_le 0 (k - 1 - e) ltac:(lia)) as P.
    change (2 ^ 0) with 1 in P.
    replace (k - 1 - e)%Z with ((k - 1) + - e)%Z in P by lia.
    rewrite pow2_add in P.
    pose proof (pow2_pos (- e)) as Q0.
    assert (2 ^ (k - 1) * 2 ^ (- e) <= v * 2 ^ (- e)); [|lra].
    apply Qmult_le_compat_r; [exact M1|lra]. }
  pose proof (round_half_even_floor (v * 2 ^ (- e))) as F.
  assert (F1 : (1 <= Qfloor (v * 2 ^ (- e)))%Z).
  { change 1%Z with (Qfloor 1). apply Qfloor_resp_le. exact Hx. }
  set (m := PyNum.round_half_even (v * 2 ^ (- e))) in *.
  destruct (m =? 2 ^ PyNum.prec)%Z.
  - change (2 ^ (PyNum.prec - 1))%Z with (Zpos (2 ^ 52)). cbv iota beta.
    destruct (e + 1 <=? PyNum.emax - PyNum.prec)%Z; discriminate.
  - destruct m as [|p|p]; try lia.
    destruct (e <=? PyNum.emax - PyNum.prec)%Z; discriminate.
Qed.

Lemma float_of_int_zero :
  forall n z, PyNum.float_of_int n = Some (S754_zero z) -> n = 0%Z.
Proof.
  intros n z H. unfold PyNum.float_of_int in H.
  destruct (Z.eq_dec n 0) as [E|E]; [exact E|exfalso].
  assert (Hv : 1 <= inject_Z (Z.abs n)).
  { change 1 with (inject_Z 1). rewrite <- Zle_Qle. lia. }
  pose proof (nearest_float_not_zero (n <? 0)%Z _ z Hv) as N.
  destruct (PyNum.nearest_float (n <? 0)%Z (inject_Z (Z.abs n)));
    try discriminate; congruence.
Qed.

Lemma float_of_int_0 : PyNum.float_of_int 0 = Some (S754_zero false).
Proof. reflexivity. Qed.

Lemma int_true_divide_zero :
  forall a b, int_true_divide a b = Raise ZeroDivisionError <-> b = 0%Z.
Proof.
  intros a b. unfold int_true_divide.
  destruct (b =? 0)%Z eqn:Eb.
  - apply Z.eqb_eq in Eb. tauto.
  - apply Z.eqb_neq in Eb. split; [|contradiction].
    destruct (PyNum.nearest_float (xorb (a <? 0)%Z (b <? 0)%Z)
                (inject_Z (Z.abs a) / inject_Z (Z.abs b))); discriminate.
Qed.

Lemma float_div_zero :
  forall x y,
    float_arith ArDiv x y = Raise ZeroDivisionError
    <-> zero_number (inr y) = true.
Proof.
  intros x y. simpl. destruct y; split; intros H; try discriminate;
    reflexivity.
Qed.

End FloatRounding.

(** C8. On two numbers [/] fails with [ZeroDivisionError] exactly when
    the divisor is zero, unless the dividend is an [int] too large to be
    converted to [float] and the divisor is a [float]: the conversion
    comes first and fails with [OverflowError].  [(/ 1 0)] fails with
    [ZeroDivisionError]. *)
Theorem C8_division_by_zero :
  (forall a b x y,
      as_number a = Some x -> as_number b = Some y ->
      (call (Builtin op_truediv) [a; b] = Raise ZeroDivisionError
       <-> zero_number y = true /\ overflows_with x y = false)
      /\ (overflows_with x y = true ->
          call (Builtin op_truediv) [a; b] = Raise OverflowError))
  /\ run "(/ 1 0)" standard_env = (Raise ZeroDivisionError, standard_env).
Proof.
  split; [|reflexivity].
  intros a b x y Hx Hy. simpl. unfold py_truediv. rewrite Hx, Hy.
  destruct x as [x|x], y as [y|y]; simpl.
  - split; [|discriminate]. rewrite int_true_divide_zero.
    rewrite Z.eqb_eq. tauto.
  - destruct (PyNum.float_of_int x) as [fx|]; simpl.
    + split; [|discriminate].
      destruct y; split; try tauto; try discriminate;
        try (intros [? ?]; discriminate).
    + split; [|reflexivity]. split; [discriminate|].
      intros [_ ?]; discriminate.
  - split; [|discriminate].
    destruct (PyNum.float_of_int y) as [fy|] eqn:E; simpl.
    + destruct fy; split; intros H; try discriminate; try reflexivity;
        try (apply proj1, Z.eqb_eq in H; subst y;
             rewrite float_of_int_0 in E; discriminate).
      apply float_of_int_zero in E. subst. split; reflexivity.
    + split; [discriminate|].
      intros [H _]. apply Z.eqb_eq in H. subst y.
      rewrite float_of_int_0 in E. discriminate.
  - split; [|discriminate].
    destruct y; split; try tauto; try discriminate;
      try (intros [? ?]; discriminate).
Qed.

(** [1 / 0], and [2^1024 / 0.0]. *)
Lemma C8_witness :
  (call (Builtin op_truediv) [Int 1; Int 0] = Raise ZeroDivisionError
   <-> zero_number (inl 0) = true /\ overflows_with (inl 1) (inl 0) = false)
  /\ (call (Builtin op_truediv) [Int (2 ^ 1024); Float (S754_zero false)]
      = Raise OverflowError).
Proof.
  split.
  - apply (proj1 C8_division_by_zero (Int 1) (Int 0) (inl 1) (inl 0));
      reflexivity.
  - apply (proj1 C8_division_by_zero (Int (2 ^ 1024)) (Float (S754_zero false))
             (inl (2 ^ 1024)) (inr (S754_zero false))); reflexivity.
Defined.

(** The divisor [0.0] is zero and yet [10^400 / 0.0] does not fail with
    [ZeroDivisionError]. *)
Lemma C8_counterexample :
  zero_number (inr (S754_zero false)) = true
  /\ fst (lisp_eval (Lst [Str "/"; Int (10 ^ 400); Float (S754_zero false)])
            standard_env) = Raise OverflowError
  /\ fst (lisp_eval (Lst [Str "/"; Int (10 ^ 400); Float (S754_zero false)])
            standard_env) <> Raise ZeroDivisionError.
Proof.
  split; [reflexivity|].
  assert (H : fst (lisp_eval
                     (Lst [Str "/"; Int (10 ^ 400); Float (S754_zero false)])
                     standard_env) = Raise OverflowError)
    by (vm_compute; reflexivity).
  split; [exact H|]. rewrite H. discriminate.
Qed.

(** ** Printing and reading an [int] *)

Lemma string_of_uint_digits :
  forall d, all_digits (NilEmpty.string_of_uint d) = true.
Proof. induction d; simpl; try reflexivity; exact IHd. Qed.

Lemma digits_value_uint_acc :
  forall d acc,
    PyNum.digits_value (Zpos acc) (NilEmpty.string_of_uint d)
    = Zpos (Pos.of_uint_acc d acc).
Proof.
  induction d; intros acc;
    cbn [NilEmpty.string_of_uint PyNum.digits_value Pos.of_uint_acc];
    try reflexivity; rewrite <- IHd; f_equal;
    unfold PyStr.digit_value;
    match goal with
    | |- context [N_of_ascii ?c] =>
        let v := eval vm_compute in (N_of_ascii c) in
        change (N_of_ascii c) with v
    end;
    lia.
Qed.

Lemma digits_value_uint :
  forall d,
    PyNum.digits_value 0 (NilEmpty.string_of_uint d) = Z.of_N (Pos.of_uint d).
Proof.
  induction d;
    cbn [NilEmpty.string_of_uint PyNum.digits_value Pos.of_uint Z.of_N];
    try reflexivity; try exact IHd;
    rewrite <- digits_value_uint_acc; reflexivity.
Qed.

Lemma digits_value_to_uint :
  forall p,
    PyNum.digits_value 0 (NilEmpty.string_of_uint (Pos.to_uint p)) = Zpos p.
Proof.
  intros p. rewrite digits_value_uint, Unsigned.of_to. reflexivity.
Qed.

Lemma string_of_uint_nonempty :
  forall d, d <> Decimal.Nil -> NilEmpty.string_of_uint d <> "".
Proof. intros [] H; simpl; try discriminate. contradiction. Qed.

(** A non-empty run of digits carries no sign. *)
Lemma signed_digits :
  forall s, all_digits s = true -> PyNum.signed s = (false, s).
Proof.
  intros [|c s] H; [reflexivity|].
  unfold all_digits in H. simpl in H. apply andb_true_iff in H as [Hc _].
  destruct c as [[] [] [] [] [] [] [] []]; try reflexivity; discriminate.
Qed.

Lemma plain_integer_str :
  forall n, plain_integer (PyNum.py_str_int n) = Some n.
Proof.
  intros [|p|p]; [reflexivity| |]; unfold plain_integer, PyNum.py_str_int.
  - pose proof (string_of_uint_digits (Pos.to_uint p)) as Hd.
    pose proof (string_of_uint_nonempty _ (Unsigned.to_uint_nonnil p)) as Hne.
    rewrite (signed_digits _ Hd).
    destruct (NilEmpty.string_of_uint (Pos.to_uint p)) eqn:E;
      [contradiction|].
    rewrite Hd. rewrite <- E, digits_value_to_uint. reflexivity.
  - pose proof (string_of_uint_digits (Pos.to_uint p)) as Hd.
    pose proof (string_of_uint_nonempty _ (Unsigned.to_uint_nonnil p)) as Hne.
    cbn [append PyNum.signed].
    destruct (NilEmpty.string_of_uint (Pos.to_uint p)) eqn:E;
      [contradiction|].
    rewrite Hd. rewrite <- E, digits_value_to_uint. reflexivity.
Qed.

Lemma py_int_str : forall n, PyNum.py_int (PyNum.py_str_int n) = Some n.
Proof. intros n. apply py_int_plain_integer, plain_integer_str. Qed.

Lemma atom_str_int : forall n, atom (PyNum.py_str_int n) = Int n.
Proof. intros n. unfold atom. rewrite py_int_str. reflexivity. Qed.

Lemma isdigit_token_char :
  forall c, PyStr.isdigit c = true -> token_char c = true.
Proof.
  intros [[] [] [] [] [] [] [] []]; vm_compute; intros H;
    first [reflexivity | discriminate].
Qed.

Lemma is_token_str_int : forall n, is_token (PyNum.py_str_int n) = true.
Proof.
  assert (H : forall p,
             is_token (NilEmpty.string_of_uint (Pos.to_uint p)) = true
             /\ token_chars (NilEmpty.string_of_uint (Pos.to_uint p))
                = true).
  { intros p.
    pose proof (string_of_uint_digits (Pos.to_uint p)) as Hd.
    pose proof (string_of_uint_nonempty _ (Unsigned.to_uint_nonnil p)) as Hne.
    apply (string_all_impl _ _ _ isdigit_token_char) in Hd.
    split; [|exact Hd]. unfold is_token.
    destruct (NilEmpty.string_of_uint (Pos.to_uint p));
      [contradiction|exact Hd]. }
  intros [|p|p]; [reflexivity|apply H|].
  unfold PyNum.py_str_int, is_token. cbn [append].
  unfold token_chars. cbn [string_all]. apply (proj2 (H p)).
Qed.

(** ** The tokens of a printed term *)

Lemma string_app_assoc :
  forall s t u : string, (s ++ t) ++ u = s ++ (t ++ u).
Proof.
  induction s as [|c s IH]; intros t u; simpl; [reflexivity|].
  rewrite IH. reflexivity.
Qed.

Lemma string_app_nil_r : forall s : string, s ++ "" = s.
Proof. induction s as [|c s IH]; simpl; [|rewrite IH]; reflexivity. Qed.

Lemma replace_app :
  forall old new s t,
    PyStr.replace old new (s ++ t)
    = PyStr.replace old new s ++ PyStr.replace old new t.
Proof.
  intros old new. induction s as [|c s IH]; intros t; simpl; [reflexivity|].
  destruct (Ascii.eqb c old); rewrite IH.
  - rewrite string_app_assoc. reflexivity.
  - reflexivity.
Qed.

Lemma spaced_app : forall s t, spaced (s ++ t) = spaced s ++ spaced t.
Proof. intros s t. unfold spaced. rewrite !replace_app. reflexivity. Qed.

Lemma token_char_spec :
  forall c,
    token_char c = true ->
    PyStr.isspace c = false /\ Ascii.eqb c "(" = false
    /\ Ascii.eqb c ")" = false.
Proof.
  intros c H. unfold token_char in H.
  apply andb_true_iff in H as [H H3]. apply andb_true_iff in H as [H1 H2].
  apply negb_true_iff in H1, H2, H3. auto.
Qed.

Lemma spaced_token :
  forall s, token_chars s = true -> spaced s = s.
Proof.
  unfold spaced, token_chars.
  induction s as [|c s IH]; simpl; [reflexivity|]. intros H.
  apply andb_true_iff in H as [Hc Hs].
  destruct (token_char_spec c Hc) as [_ [H1 H2]].
  rewrite H1. simpl. rewrite H2. rewrite (IH Hs). reflexivity.
Qed.

Lemma split_from_word :
  forall s word rest,
    token_chars s = true ->
    PyStr.split_from word (s ++ rest) = PyStr.split_from (word ++ s) rest.
Proof.
  unfold token_chars.
  induction s as [|c s IH]; intros word rest H; simpl.
  - rewrite string_app_nil_r. reflexivity.
  - simpl in H. apply andb_true_iff in H as [Hc Hs].
    destruct (token_char_spec c Hc) as [H0 _]. rewrite H0.
    rewrite (IH _ _ Hs), string_app_assoc. reflexivity.
Qed.

Lemma tokenize_unfold : forall s, tokenize s = PyStr.split_from "" (spaced s).
Proof. reflexivity. Qed.

Lemma tokenize_open :
  forall s, tokenize (String "(" s) = "(" :: tokenize s.
Proof. reflexivity. Qed.

Lemma tokenize_close :
  forall s, tokenize (String ")" s) = ")" :: tokenize s.
Proof. reflexivity. Qed.

Lemma tokenize_space :
  forall s, tokenize (String " " s) = tokenize s.
Proof. reflexivity. Qed.

Lemma tokenize_token :
  forall s rest,
    is_token s = true -> delimited rest ->
    tokenize (s ++ rest) = s :: tokenize rest.
Proof.
  intros s rest Hs Hrest.
  assert (Hc : token_chars s = true) by (destruct s; [discriminate|exact Hs]).
  rewrite !tokenize_unfold, spaced_app, (spaced_token s Hc).
  rewrite (split_from_word s "" _ Hc). cbn [append].
  destruct s as [|c s]; [discriminate|].
  destruct Hrest as [->|[[r ->]|[r ->]]]; reflexivity.
Qed.

(** ** Printing a float and reading it back *)

(** *** Strings of digits *)

Lemma string_all_app :
  forall p s t, string_all p (s ++ t) = string_all p s && string_all p t.
Proof.
  intros p. induction s as [|c s IH]; intros t; simpl; [reflexivity|].
  rewrite IH, andb_assoc. reflexivity.
Qed.

Lemma string_all_repeat :
  forall p n s, string_all p s = true ->
                string_all p (PyStr.repeat_string n s) = true.
Proof.
  intros p n s H. induction n as [|n IH]; simpl; [reflexivity|].
  rewrite string_all_app, H, IH. reflexivity.
Qed.

Lemma string_all_take :
  forall p n s, string_all p s = true ->
                string_all p (PyNum.string_take n s) = true.
Proof.
  intros p. induction n as [|n IH]; intros [|c s] H; simpl; try reflexivity.
  simpl in H. apply andb_true_iff in H as [Hc Hs].
  rewrite Hc, (IH s Hs). reflexivity.
Qed.

Lemma string_all_drop :
  forall p n s, string_all p s = true ->
                string_all p (PyNum.string_drop n s) = true.
Proof.
  intros p. induction n as [|n IH]; intros [|c s] H; simpl;
    try reflexivity; try exact H.
  simpl in H. apply andb_true_iff in H as [_ Hs]. apply IH. exact Hs.
Qed.

Lemma string_take_drop :
  forall n s, PyNum.string_take n s ++ PyNum.string_drop n s = s.
Proof.
  induction n as [|n IH]; intros [|c s]; simpl; try reflexivity.
  rewrite IH. reflexivity.
Qed.

Lemma string_length_app :
  forall s t : string,
    String.length (s ++ t) = (String.length s + String.length t)%nat.
Proof.
  induction s as [|c s IH]; intros t; simpl; [reflexivity|].
  rewrite IH. reflexivity.
Qed.

Lemma string_length_repeat_0 :
  forall n, String.length (PyStr.repeat_string n "0") = n.
Proof. induction n as [|n IH]; simpl; [|rewrite IH]; reflexivity. Qed.

Lemma string_length_take :
  forall n s, (n <= String.length s)%nat ->
              String.length (PyNum.string_take n s) = n.
Proof.
  induction n as [|n IH]; intros [|c s] H; simpl in *; try reflexivity;
    try lia.
  rewrite IH by lia. reflexivity.
Qed.

Lemma string_length_drop :
  forall n s, String.length (PyNum.string_drop n s)
              = (String.length s - n)%nat.
Proof.
  induction n as [|n IH]; intros [|c s]; simpl; try reflexivity.
  apply IH.
Qed.

(** The value of a run of digits. *)
Lemma digits_value_app :
  forall s t acc,
    PyNum.digits_value acc (s ++ t)
    = PyNum.digits_value (PyNum.digits_value acc s) t.
Proof.
  induction s as [|c s IH]; intros t acc; simpl; [reflexivity|].
  apply IH.
Qed.

Lemma digits_value_acc :
  forall s acc,
    PyNum.digits_value acc s
    = acc * 10 ^ Z.of_nat (String.length s) + PyNum.digits_value 0 s.
Proof.
  induction s as [|c s IH]; intros acc.
  - simpl. lia.
  - cbn [PyNum.digits_value String.length].
    rewrite (IH (10 * acc + PyStr.digit_value c)).
    rewrite (IH (10 * 0 + PyStr.digit_value c)).
    rewrite Nat2Z.inj_succ, Z.pow_succ_r by lia. ring.
Qed.

Lemma digits_value_zeros :
  forall n acc,
    PyNum.digits_value acc (PyStr.repeat_string n "0")
    = acc * 10 ^ Z.of_nat n.
Proof.
  induction n as [|n IH]; intros acc.
  - simpl. lia.
  - cbn [PyStr.repeat_string append PyNum.digits_value].
    rewrite IH. change (PyStr.digit_value "0") with 0.
    rewrite Nat2Z.inj_succ, Z.pow_succ_r by lia. ring.
Qed.

(** [PyNum.span_digits] on a run of digits followed by a text that does
    not start with a digit. *)
Lemma span_digits_app :
  forall s rest,
    all_digits s = true -> no_digit_first rest = true ->
    PyNum.span_digits (s ++ rest) = (s, rest).
Proof.
  unfold all_digits.
  induction s as [|c s IH]; intros rest Hs Hr.
  - simpl. destruct rest as [|c r]; [reflexivity|].
    simpl in Hr. apply negb_true_iff in Hr. simpl. rewrite Hr. reflexivity.
  - simpl in Hs. apply andb_true_iff in Hs as [Hc Hs].
    simpl. rewrite Hc, (IH rest Hs Hr). reflexivity.
Qed.

Lemma span_digits_all :
  forall s, all_digits s = true -> PyNum.span_digits s = (s, "").
Proof.
  intros s H. rewrite <- (string_app_nil_r s) at 1.
  apply span_digits_app; [exact H|reflexivity].
Qed.

(** *** Reading the text that [repr] prints *)

Lemma py_str_int_digits :
  forall z, 0 <= z -> all_digits (PyNum.py_str_int z) = true.
Proof.
  intros [|p|p] H; [reflexivity|apply string_of_uint_digits|lia].
Qed.

Lemma py_str_int_nonempty :
  forall z, 0 <= z -> PyNum.py_str_int z <> "".
Proof.
  intros [|p|p] H; [discriminate| |lia].
  apply string_of_uint_nonempty, Unsigned.to_uint_nonnil.
Qed.

Lemma py_str_int_value :
  forall z, 0 <= z -> PyNum.digits_value 0 (PyNum.py_str_int z) = z.
Proof.
  intros [|p|p] H; [reflexivity|apply digits_value_to_uint|lia].
Qed.

Lemma exponent_of_text :
  forall x, PyNum.exponent_of (exponent_text x) = Some x.
Proof.
  intros x. unfold exponent_text.
  set (xs := PyNum.py_str_int (Z.abs x)).
  set (pad := if Z.abs x <? 10 then "0" else "").
  assert (Hd : all_digits (pad ++ xs) = true).
  { unfold all_digits. rewrite string_all_app.
    fold (all_digits xs). unfold xs.
    rewrite py_str_int_digits by lia. unfold pad.
    destruct (Z.abs x <? 10); reflexivity. }
  assert (Hne : pad ++ xs <> "").
  { unfold pad. destruct (Z.abs x <? 10); [discriminate|].
    apply py_str_int_nonempty. lia. }
  assert (Hv : PyNum.digits_value 0 (pad ++ xs) = Z.abs x).
  { rewrite digits_value_app. unfold xs.
    replace (PyNum.digits_value 0 pad) with 0.
    - apply py_str_int_value. lia.
    - unfold pad. destruct (Z.abs x <? 10); reflexivity. }
  cbn [append PyNum.exponent_of].
  change (Ascii.eqb (PyStr.lower "e") "e") with true. cbv iota.
  destruct (x <? 0) eqn:Ex.
  - cbn [append PyNum.signed]. rewrite (span_digits_all _ Hd).
    destruct (pad ++ xs) eqn:E; [contradiction|].
    rewrite Hv. apply Z.ltb_lt in Ex. f_equal. lia.
  - cbn [append PyNum.signed]. rewrite (span_digits_all _ Hd).
    destruct (pad ++ xs) eqn:E; [contradiction|].
    rewrite Hv. apply Z.ltb_ge in Ex. f_equal. lia.
Qed.

Lemma no_digit_first_exponent :
  forall x, no_digit_first (exponent_text x) = true.
Proof. reflexivity. Qed.

(** A literal with a decimal point. *)
Lemma decimal_of_string_point :
  forall ip fp r2 x,
    all_digits ip = true -> all_digits fp = true -> ip ++ fp <> "" ->
    no_digit_first r2 = true -> PyNum.exponent_of r2 = Some x ->
    PyNum.decimal_of_string (ip ++ "." ++ fp ++ r2)
    = Some (PyNum.digits_value 0 (ip ++ fp),
            x - Z.of_nat (String.length fp)).
Proof.
  intros ip fp r2 x Hi Hf Hne Hr Hx. unfold PyNum.decimal_of_string.
  rewrite (span_digits_app ip _ Hi) by reflexivity.
  cbn [append]. rewrite (span_digits_app fp r2 Hf Hr).
  destruct (ip ++ fp) eqn:E; [contradiction|].
  rewrite Hx. reflexivity.
Qed.

(** A literal without a decimal point, with an exponent. *)
Lemma decimal_of_string_exponent :
  forall ip x,
    all_digits ip = true -> ip <> "" ->
    PyNum.decimal_of_string (ip ++ exponent_text x)
    = Some (PyNum.digits_value 0 ip, x).
Proof.
  intros ip x Hi Hne. unfold PyNum.decimal_of_string.
  rewrite (span_digits_app ip _ Hi) by reflexivity.
  assert (E : exists r, exponent_text x = String "e" r)
    by (eexists; reflexivity).
  destruct E as [r E]. rewrite E. cbv iota beta. rewrite <- E.
  rewrite string_app_nil_r.
  destruct ip as [|c ip]; [contradiction|].
  rewrite exponent_of_text. cbn [String.length Z.of_nat].
  rewrite Z.sub_0_r. reflexivity.
Qed.

Lemma string_take_all :
  forall n s, (String.length s <= n)%nat -> PyNum.string_take n s = s.
Proof.
  induction n as [|n IH]; intros [|c s] H; simpl in *; try reflexivity;
    try lia.
  rewrite IH by lia. reflexivity.
Qed.

Lemma pow10_inject : forall n : Z, 0 <= n -> (inject_Z (10 ^ n) == 10 ^ n)%Q.
Proof. intros n H. apply Zpower_Qpower. exact H. Qed.

(** The decimal literal that [format_repr] writes stands for its digits
    scaled by the position of the decimal point. *)
Lemma decimal_of_format_repr :
  forall digits decpt,
    all_digits digits = true -> digits <> "" ->
    exists c q,
      PyNum.decimal_of_string (PyNum.format_repr digits decpt) = Some (c, q)
      /\ (inject_Z c * 10 ^ q
          == inject_Z (PyNum.digits_value 0 digits)
             * 10 ^ (decpt - Z.of_nat (String.length digits)))%Q.
Proof.
  intros D decpt Hd Hne. unfold PyNum.format_repr.
  set (n := Z.of_nat (String.length D)).
  assert (Hn : 1 <= n).
  { unfold n. destruct D; [contradiction|]. simpl String.length. lia. }
  destruct ((decpt <=? -4) || (16 <? decpt)) eqn:Ee.
  - (* with an exponent *)
    change ("e" ++ (if decpt - 1 <? 0 then "-" else "+")
            ++ (if Z.abs (decpt - 1) <? 10 then "0" else "")
            ++ PyNum.py_str_int (Z.abs (decpt - 1)))
      with (exponent_text (decpt - 1)).
    destruct (1 <? n) eqn:E1.
    + apply Z.ltb_lt in E1. rewrite string_app_assoc.
      exists (PyNum.digits_value 0 D), (decpt - n). split; [|reflexivity].
      change (String "." (PyNum.string_drop 1 D ++ exponent_text (decpt - 1)))
        with ("." ++ PyNum.string_drop 1 D ++ exponent_text (decpt - 1)).
      rewrite decimal_of_string_point with (x := decpt - 1).
      * rewrite string_take_drop, string_length_drop. f_equal. f_equal.
        unfold n. lia.
      * apply string_all_take. exact Hd.
      * apply string_all_drop. exact Hd.
      * rewrite string_take_drop. exact Hne.
      * reflexivity.
      * apply exponent_of_text.
    + apply Z.ltb_ge in E1. cbn [append].
      rewrite string_take_all by (unfold n in *; lia).
      exists (PyNum.digits_value 0 D), (decpt - n). split; [|reflexivity].
      rewrite decimal_of_string_exponent by assumption.
      f_equal. f_equal. lia.
  - destruct (decpt <=? 0) eqn:Ez.
    + (* zeros after the point *)
      apply Z.leb_le in Ez.
      exists (PyNum.digits_value 0 D), (decpt - n). split; [|reflexivity].
      replace ("0." ++ PyStr.repeat_string (Z.to_nat (- decpt)) "0" ++ D)
        with ("0" ++ "."
              ++ (PyStr.repeat_string (Z.to_nat (- decpt)) "0" ++ D) ++ "")
        by (rewrite string_app_nil_r; reflexivity).
      rewrite decimal_of_string_point with (x := 0).
      * f_equal. f_equal.
        -- cbn [append PyNum.digits_value].
           change (10 * 0 + PyStr.digit_value "0") with 0.
           rewrite digits_value_app, digits_value_zeros. reflexivity.
        -- rewrite string_length_app, string_length_repeat_0. unfold n. lia.
      * reflexivity.
      * unfold all_digits. rewrite string_all_app.
        rewrite string_all_repeat by reflexivity. exact Hd.
      * discriminate.
      * reflexivity.
      * reflexivity.
    + destruct (n <=? decpt) eqn:Ei.
      * (* zeros before the point *)
        apply Z.leb_le in Ei.
        exists (PyNum.digits_value 0 D * 10 ^ (decpt - n + 1)), (-1).
        split.
        -- replace (D ++ PyStr.repeat_string (Z.to_nat (decpt - n)) "0"
                     ++ ".0")
             with ((D ++ PyStr.repeat_string (Z.to_nat (decpt - n)) "0")
                   ++ "." ++ "0" ++ "")
             by (rewrite string_app_assoc; reflexivity).
           rewrite decimal_of_string_point with (x := 0).
           ++ f_equal. f_equal.
              rewrite !digits_value_app, digits_value_zeros.
              cbn [PyNum.digits_value].
              change (PyStr.digit_value "0") with 0.
              rewrite Z2Nat.id by lia.
              rewrite Z.pow_add_r by lia. ring.
           ++ unfold all_digits. rewrite string_all_app.
              rewrite string_all_repeat by reflexivity.
              fold (all_digits D). rewrite Hd. reflexivity.
           ++ reflexivity.
           ++ destruct D; [contradiction|discriminate].
           ++ reflexivity.
           ++ reflexivity.
        -- rewrite inject_Z_mult, pow10_inject by lia.
           fold n. replace (decpt - n + 1) with ((decpt - n) + 1) by lia.
           rewrite pow10_add.
           transitivity (inject_Z (PyNum.digits_value 0 D) * 10 ^ (decpt - n)
                         * (10 ^ 1 * 10 ^ (-1)))%Q; [ring|].
           rewrite (pow10_cancel 1). ring.
      * (* the point inside the digits *)
        apply Z.leb_gt in Ez, Ei.
        exists (PyNum.digits_value 0 D), (decpt - n). split; [|reflexivity].
        replace (PyNum.string_take (Z.to_nat decpt) D ++ "."
                 ++ PyNum.string_drop (Z.to_nat decpt) D)
          with (PyNum.string_take (Z.to_nat decpt) D ++ "."
                ++ PyNum.string_drop (Z.to_nat decpt) D ++ "")
          by (rewrite string_app_nil_r; reflexivity).
        rewrite decimal_of_string_point with (x := 0).
        -- rewrite string_take_drop, string_length_drop. f_equal. f_equal.
           unfold n. lia.
        -- apply string_all_take. exact Hd.
        -- apply string_all_drop. exact Hd.
        -- rewrite string_take_drop. exact Hne.
        -- reflexivity.
        -- reflexivity.
Qed.

(** A character of the text of a float is neither stripped, nor an
    underscore, nor a separator of tokens. *)
Lemma float_char_facts :
  forall c,
    float_char c = true ->
    not_blank c = true /\ not_underscore c = true /\ token_char c = true.
Proof.
  intros [[] [] [] [] [] [] [] []]; vm_compute; intros H;
    first [discriminate | repeat split].
Qed.

Lemma isdigit_float_char :
  forall c, PyStr.isdigit c = true -> float_char c = true.
Proof. intros c H. unfold float_char. rewrite H. reflexivity. Qed.

Lemma float_chars_digits :
  forall s, all_digits s = true -> string_all float_char s = true.
Proof. intros s. apply string_all_impl. exact isdigit_float_char. Qed.

Lemma float_chars_exponent :
  forall x, string_all float_char (exponent_text x) = true.
Proof.
  intros x. unfold exponent_text. rewrite !string_all_app.
  rewrite (float_chars_digits (PyNum.py_str_int (Z.abs x)))
    by (apply py_str_int_digits; lia).
  destruct (x <? 0), (Z.abs x <? 10); reflexivity.
Qed.

Lemma float_chars_format :
  forall digits decpt,
    all_digits digits = true ->
    string_all float_char (PyNum.format_repr digits decpt) = true.
Proof.
  intros D decpt Hd. unfold PyNum.format_repr.
  pose proof (float_chars_digits D Hd) as HD.
  destruct ((decpt <=? -4) || (16 <? decpt)).
  - change ("e" ++ (if decpt - 1 <? 0 then "-" else "+")
            ++ (if Z.abs (decpt - 1) <? 10 then "0" else "")
            ++ PyNum.py_str_int (Z.abs (decpt - 1)))
      with (exponent_text (decpt - 1)).
    rewrite !string_all_app, float_chars_exponent.
    rewrite string_all_take by exact HD.
    destruct (1 <? Z.of_nat (String.length D)); [|reflexivity].
    rewrite string_all_app, string_all_drop by exact HD. reflexivity.
  - destruct (decpt <=? 0).
    + change "0." with ("0" ++ "."). rewrite !string_all_app.
      rewrite string_all_repeat by reflexivity. rewrite HD. reflexivity.
    + destruct (Z.of_nat (String.length D) <=? decpt).
      * rewrite !string_all_app.
        rewrite string_all_repeat by reflexivity. rewrite HD. reflexivity.
      * rewrite !string_all_app.
        rewrite string_all_take, string_all_drop by exact HD. reflexivity.
Qed.

Lemma underscores_ok_none :
  forall s prev,
    string_all not_underscore s = true -> not_underscore prev = true ->
    PyNum.underscores_ok prev s = true.
Proof.
  induction s as [|c s IH]; intros prev Hs Hp; simpl.
  - exact Hp.
  - simpl in Hs. apply andb_true_iff in Hs as [Hc Hs].
    unfold not_underscore in Hc, Hp. apply negb_true_iff in Hc, Hp.
    rewrite Hc, Hp. simpl. apply IH; [exact Hs|].
    unfold not_underscore. rewrite Hc. reflexivity.
Qed.

Lemma remove_underscores_none :
  forall s,
    string_all not_underscore s = true -> PyNum.remove_underscores s = s.
Proof.
  induction s as [|c s IH]; intros Hs; simpl; [reflexivity|].
  simpl in Hs. apply andb_true_iff in Hs as [Hc Hs].
  unfold not_underscore in Hc. apply negb_true_iff in Hc.
  rewrite Hc, (IH Hs). reflexivity.
Qed.

Lemma digit_first_app :
  forall s t, digit_first s = true -> digit_first (s ++ t) = true.
Proof. intros [|c s] t H; [discriminate|exact H]. Qed.

Lemma digit_first_digits :
  forall s, all_digits s = true -> s <> "" -> digit_first s = true.
Proof.
  intros [|c s] H Hne; [contradiction|].
  unfold all_digits in H. simpl in H. apply andb_true_iff in H as [Hc _].
  exact Hc.
Qed.

Lemma digit_first_take :
  forall n s, (1 <= n)%nat -> digit_first s = true ->
              digit_first (PyNum.string_take n s) = true.
Proof. intros [|n] [|c s] Hn H; try discriminate; try lia. exact H. Qed.

Lemma digit_first_format :
  forall digits decpt,
    all_digits digits = true -> digits <> "" ->
    digit_first (PyNum.format_repr digits decpt) = true.
Proof.
  intros D decpt Hd Hne. unfold PyNum.format_repr.
  pose proof (digit_first_digits D Hd Hne) as HD.
  destruct ((decpt <=? -4) || (16 <? decpt)).
  - apply digit_first_app, digit_first_take; [lia|exact HD].
  - destruct (decpt <=? 0) eqn:Ez; [reflexivity|].
    destruct (Z.of_nat (String.length D) <=? decpt).
    + apply digit_first_app. exact HD.
    + apply Z.leb_gt in Ez.
      apply digit_first_app, digit_first_take; [lia|exact HD].
Qed.

(** A text that starts with a digit carries no sign and is not the
    name of an infinity or of NaN. *)
Lemma digit_first_signed :
  forall s, digit_first s = true -> PyNum.signed s = (false, s).
Proof.
  intros [|c s] H; [discriminate|]. simpl in H.
  destruct c as [[] [] [] [] [] [] [] []]; try reflexivity; discriminate.
Qed.

Lemma digit_first_not_name :
  forall s,
    digit_first s = true ->
    String.eqb (PyStr.lowercase s) "inf" = false
    /\ String.eqb (PyStr.lowercase s) "infinity" = false
    /\ String.eqb (PyStr.lowercase s) "nan" = false.
Proof.
  intros [|c s] H; [discriminate|]. simpl in H.
  cbn [PyStr.lowercase String.eqb].
  destruct c as [[] [] [] [] [] [] [] []]; try discriminate;
    repeat split; reflexivity.
Qed.

(** [float()] on the text of a sign and a decimal literal of [repr]. *)
Lemma py_float_format :
  forall neg digits decpt,
    all_digits digits = true -> digits <> "" ->
    exists c q,
      PyNum.py_float
        ((if neg : bool then "-" else "") ++ PyNum.format_repr digits decpt)
      = Some (PyNum.float_of_decimal neg c q)
      /\ (inject_Z c * 10 ^ q
          == inject_Z (PyNum.digits_value 0 digits)
             * 10 ^ (decpt - Z.of_nat (String.length digits)))%Q.
Proof.
  intros neg D decpt Hd Hne.
  destruct (decimal_of_format_repr D decpt Hd Hne) as [c [q [Hdec Hq]]].
  exists c, q. split; [|exact Hq].
  pose proof (float_chars_format D decpt Hd) as Hch.
  pose proof (digit_first_format D decpt Hd Hne) as Hdf.
  set (body := PyNum.format_repr D decpt) in *.
  set (text := (if neg then "-" else "") ++ body).
  assert (Ht : string_all float_char text = true).
  { unfold text. rewrite string_all_app, Hch. destruct neg; reflexivity. }
  assert (Hsigned : PyNum.signed text = (neg, body)).
  { unfold text. destruct neg; [reflexivity|].
    apply digit_first_signed. exact Hdf. }
  unfold PyNum.py_float.
  rewrite strip_not_blank
    by (revert Ht; apply string_all_impl; intros a Ha;
        apply (float_char_facts a Ha)).
  rewrite underscores_ok_none;
    [|revert Ht; apply string_all_impl; intros a Ha;
      apply (float_char_facts a Ha)|reflexivity].
  rewrite remove_underscores_none
    by (revert Ht; apply string_all_impl; intros a Ha;
        apply (float_char_facts a Ha)).
  cbn [negb]. rewrite Hsigned.
  destruct (digit_first_not_name body Hdf) as [N1 [N2 N3]].
  rewrite N1, N2, N3. cbn [orb]. rewrite Hdec. reflexivity.
Qed.

(** [int()] rejects a text with a character that is neither a digit nor
    an underscore. *)
Lemma digits_from_other :
  forall s prev acc,
    string_all int_char s = false -> PyNum.digits_from prev acc s = None.
Proof.
  induction s as [|c s IH]; intros prev acc H; simpl in *; [discriminate|].
  unfold int_char in H at 1.
  destruct (PyStr.isdigit c); [apply IH; exact H|].
  destruct (Ascii.eqb c "_"); simpl in H.
  - destruct prev; [apply IH; exact H|reflexivity].
  - reflexivity.
Qed.

Lemma format_repr_not_int :
  forall digits decpt,
    string_all int_char (PyNum.format_repr digits decpt) = false.
Proof.
  intros D decpt. unfold PyNum.format_repr.
  destruct ((decpt <=? -4) || (16 <? decpt)).
  - rewrite !string_all_app.
    change (string_all int_char "e") with false.
    rewrite andb_false_l, !andb_false_r. reflexivity.
  - destruct (decpt <=? 0); [reflexivity|].
    destruct (Z.of_nat (String.length D) <=? decpt).
    + rewrite !string_all_app.
      change (string_all int_char ".0") with false.
      rewrite !andb_false_r. reflexivity.
    + rewrite !string_all_app.
      change (string_all int_char ".") with false.
      rewrite andb_false_l, !andb_false_r. reflexivity.
Qed.

Lemma py_int_format :
  forall neg digits decpt,
    all_digits digits = true -> digits <> "" ->
    PyNum.py_int
      ((if neg : bool then "-" else "") ++ PyNum.format_repr digits decpt)
    = None.
Proof.
  intros neg D decpt Hd Hne.
  pose proof (float_chars_format D decpt Hd) as Hch.
  pose proof (digit_first_format D decpt Hd Hne) as Hdf.
  set (body := PyNum.format_repr D decpt) in *.
  set (text := (if neg then "-" else "") ++ body).
  assert (Ht : string_all float_char text = true).
  { unfold text. rewrite string_all_app, Hch. destruct neg; reflexivity. }
  assert (Hsigned : PyNum.signed text = (neg, body)).
  { unfold text. destruct neg; [reflexivity|].
    apply digit_first_signed. exact Hdf. }
  unfold PyNum.py_int.
  rewrite strip_not_blank
    by (revert Ht; apply string_all_impl; intros a Ha;
        apply (float_char_facts a Ha)).
  rewrite Hsigned.
  rewrite digits_from_other by apply format_repr_not_int. reflexivity.
Qed.

Lemma is_token_format :
  forall neg digits decpt,
    all_digits digits = true -> digits <> "" ->
    is_token
      ((if neg : bool then "-" else "") ++ PyNum.format_repr digits decpt)
    = true.
Proof.
  intros neg D decpt Hd Hne.
  pose proof (float_chars_format D decpt Hd) as Hch.
  pose proof (digit_first_format D decpt Hd Hne) as Hdf.
  set (body := PyNum.format_repr D decpt) in *.
  assert (Ht : token_chars ((if neg then "-" else "") ++ body) = true).
  { unfold token_chars. rewrite string_all_app. apply andb_true_iff. split.
    - destruct neg; reflexivity.
    - revert Hch. apply string_all_impl. intros a Ha.
      apply (float_char_facts a Ha). }
  destruct neg; [exact Ht|].
  destruct body; [discriminate|exact Ht].
Qed.

(** [str] of a [float] other than NaN is one token that [int()] rejects
    and that [float()] reads as the same [float]. *)
Lemma py_float_str_float :
  forall f,
    float_number f = true ->
    is_token (PyNum.py_str_float f) = true
    /\ PyNum.py_int (PyNum.py_str_float f) = None
    /\ PyNum.py_float (PyNum.py_str_float f) = Some f.
Proof.
  intros [s|s| |s m e] H.
  - destruct s; vm_compute; repeat split.
  - destruct s; vm_compute; repeat split.
  - discriminate.
  - unfold float_number in H. rewrite andb_true_r in H.
    cbn [valid_binary] in H.
    cbn [PyNum.py_str_float].
    destruct (PyNum.shortest_decimal m e) as [c q] eqn:E.
    destruct (shortest_decimal_sound m e c q H E) as [Hc _].
    assert (Hd : all_digits (PyNum.py_str_int c) = true)
      by (apply py_str_int_digits; lia).
    assert (Hne : PyNum.py_str_int c <> "")
      by (apply py_str_int_nonempty; lia).
    split; [apply is_token_format; assumption|].
    split; [apply py_int_format; assumption|].
    destruct (py_float_format s _
                (Z.of_nat (String.length (PyNum.py_str_int c)) + q) Hd Hne)
      as [c' [q' [Hf Hq]]].
    rewrite Hf. f_equal.
    apply (float_of_decimal_shortest s m e c q c' q' H E).
    rewrite Hq, py_str_int_value by lia.
    replace (Z.of_nat (String.length (PyNum.py_str_int c)) + q
             - Z.of_nat (String.length (PyNum.py_str_int c)))%Z
      with q by lia.
    reflexivity.
Qed.

(** ** Printing a term and reading it back *)

(** The printed form of an atom that reads back is one token, and
    [atom] maps it to the atom. *)
Lemma reads_back_atom :
  forall address a,
    isinstance_List a = false ->
    reads_back a = true ->
    is_token (lisp_str address a) = true
    /\ atom (lisp_str address a) = a.
Proof.
  intros address [n|f|s|l|b| |g|g] Hl H; try discriminate.
  - split; [apply is_token_str_int|apply atom_str_int].
  - change (lisp_str address (Float f)) with (PyNum.py_str_float f).
    destruct (py_float_str_float f H) as [T [I F]].
    split; [exact T|]. unfold atom. rewrite I, F. reflexivity.
  - simpl in *.
    apply andb_true_iff in H as [H H3]. apply andb_true_iff in H as [H1 H2].
    split; [exact H1|]. unfold atom.
    destruct (PyNum.py_int s); [discriminate|].
    destruct (PyNum.py_float s); [discriminate|reflexivity].
Qed.

Lemma tokens_of_atom :
  forall address a,
    isinstance_List a = false -> tokens_of address a = [lisp_str address a].
Proof. intros address [] H; try reflexivity; discriminate. Qed.

Lemma lisp_str_Lst :
  forall address l,
    lisp_str address (Lst l)
    = "(" ++ PyStr.join " " (map (lisp_str address) l) ++ ")".
Proof. reflexivity. Qed.

Lemma readable_Lst :
  forall l, readable (Lst l) = forallb readable l.
Proof. reflexivity. Qed.

Lemma readable_atom :
  forall a, isinstance_List a = false -> readable a = reads_back a.
Proof. intros [] H; try reflexivity; discriminate. Qed.

(** The elements of a printed list, up to its closing parenthesis. *)
Lemma tokenize_join :
  forall address l rest,
    Forall (fun t => readable t = true ->
                     forall rest, delimited rest ->
                                  tokenize (lisp_str address t ++ rest)
                                  = (tokens_of address t ++ tokenize rest)%list)
           l ->
    forallb readable l = true ->
    tokenize (PyStr.join " " (map (lisp_str address) l) ++ String ")" rest)
    = (flat_map (tokens_of address) l ++ ")" :: tokenize rest)%list.
Proof.
  intros address l rest HP. induction HP as [|x l Hx HP IH]; intros Hr.
  - reflexivity.
  - cbn [forallb] in Hr. apply andb_true_iff in Hr as [Hrx Hrl].
    cbn [flat_map]. rewrite <- List.app_assoc, <- (IH Hrl).
    destruct l as [|y l].
    + cbn [map PyStr.join]. rewrite (Hx Hrx); [reflexivity|].
      right; right. eexists. reflexivity.
    + change (PyStr.join " " (map (lisp_str address) (x :: y :: l)))
        with (lisp_str address x ++ " "
              ++ PyStr.join " " (map (lisp_str address) (y :: l))).
      rewrite !string_app_assoc. rewrite (Hx Hrx).
      * reflexivity.
      * right; left. eexists. reflexivity.
Qed.

Lemma tokenize_lisp_str_rest :
  forall address t,
    readable t = true ->
    forall rest,
      delimited rest ->
      tokenize (lisp_str address t ++ rest)
      = (tokens_of address t ++ tokenize rest)%list.
Proof.
  intros address.
  induction t using obj_ind; intros Hr rest Hrest;
    try (rewrite readable_atom in Hr by reflexivity;
         rewrite tokens_of_atom by reflexivity;
         apply tokenize_token;
         [apply (reads_back_atom address); [reflexivity|exact Hr]
         |exact Hrest]).
  rewrite lisp_str_Lst, readable_Lst in *. cbn [tokens_of].
  rewrite !string_app_assoc. cbn [append].
  rewrite tokenize_open.
  rewrite (tokenize_join address l rest H Hr).
  cbn [app]. rewrite <- List.app_assoc. reflexivity.
Qed.

Lemma tokenize_lisp_str :
  forall address t,
    readable t = true ->
    tokenize (lisp_str address t) = tokens_of address t.
Proof.
  intros address t Hr.
  rewrite <- (string_app_nil_r (lisp_str address t)).
  rewrite (tokenize_lisp_str_rest address t Hr "" (or_introl eq_refl)).
  apply List.app_nil_r.
Qed.

Lemma read_form_mono :
  forall fuel fuel' form tokens r,
    (fuel <= fuel')%nat ->
    read_form fuel form tokens = Some r -> read_form fuel' form tokens = Some r.
Proof.
  intros fuel fuel' form tokens r Hle H.
  induction Hle; [exact H|].
  apply (proj2 (read_fuel_S m)). exact IHHle.
Qed.

Lemma is_token_not_paren :
  forall s,
    is_token s = true -> String.eqb s "(" = false /\ String.eqb s ")" = false.
Proof.
  intros [|c s] H; [discriminate|].
  unfold is_token, token_chars in H. cbn [string_all] in H.
  apply andb_true_iff in H as [Hc _].
  destruct (token_char_spec c Hc) as [_ [H1 H2]].
  cbn [String.eqb]. rewrite H1, H2. split; reflexivity.
Qed.

(** The reader gives back an atom from its token. *)
Lemma read_fuel_atom :
  forall address a rest,
    isinstance_List a = false ->
    reads_back a = true ->
    read_fuel 1 (lisp_str address a :: rest) = Some (Return a, rest).
Proof.
  intros address a rest Hl Hr.
  destruct (reads_back_atom address a Hl Hr) as [Ht Ha].
  destruct (is_token_not_paren _ Ht) as [H1 H2].
  cbn [read_fuel]. rewrite H1, H2, Ha. reflexivity.
Qed.

(** The first token of a printed term does not close a list. *)
Lemma tokens_of_head :
  forall address t,
    readable t = true ->
    exists token more,
      tokens_of address t = token :: more /\ String.eqb token ")" = false.
Proof.
  intros address t Hr.
  destruct (isinstance_List t) eqn:Hl.
  - destruct t; try discriminate. cbn [tokens_of]. eauto.
  - rewrite tokens_of_atom by exact Hl.
    rewrite readable_atom in Hr by exact Hl.
    destruct (reads_back_atom address t Hl Hr) as [Ht _].
    exists (lisp_str address t), []. split; [reflexivity|].
    apply is_token_not_paren. exact Ht.
Qed.

(** The loop of the reader on the tokens of the elements of a list. *)
Lemma read_form_elements :
  forall address l,
    Forall (fun t => readable t = true ->
                     forall rest,
                     exists fuel,
                       read_fuel fuel (tokens_of address t ++ rest)%list
                       = Some (Return t, rest)) l ->
    forallb readable l = true ->
    forall form rest,
    exists fuel,
      read_form fuel form (flat_map (tokens_of address) l ++ ")" :: rest)%list
      = Some (Return (Lst (form ++ l)%list), rest).
Proof.
  intros address l HP. induction HP as [|x l Hx HP IH]; intros Hr form rest.
  - exists 1%nat. cbn. rewrite List.app_nil_r. reflexivity.
  - cbn [forallb] in Hr. apply andb_true_iff in Hr as [Hrx Hrl].
    cbn [flat_map]. rewrite <- List.app_assoc.
    set (R := (flat_map (tokens_of address) l ++ ")" :: rest)%list).
    destruct (Hx Hrx R) as [f1 E1].
    destruct (IH Hrl (form ++ [x])%list rest) as [f2 E2]. fold R in E2.
    rewrite <- List.app_assoc in E2. cbn [app] in E2.
    exists (S (Nat.max f1 f2)).
    apply (read_fuel_mono _ (Nat.max f1 f2)) in E1; [|lia].
    apply (read_form_mono _ (Nat.max f1 f2)) in E2; [|lia].
    destruct (tokens_of_head address x Hrx) as [token [more [Htok Hneq]]].
    rewrite Htok in *. cbn [app read_form] in *.
    rewrite Hneq. cbn [negb]. rewrite E1. exact E2.
Qed.

Lemma read_fuel_tokens_of :
  forall address t,
    readable t = true ->
    forall rest,
    exists fuel,
      read_fuel fuel (tokens_of address t ++ rest)%list = Some (Return t, rest).
Proof.
  intros address.
  induction t using obj_ind; intros Hr rest;
    try (exists 1%nat; rewrite tokens_of_atom by reflexivity;
         apply read_fuel_atom; [reflexivity|exact Hr]).
  rewrite readable_Lst in Hr.
  destruct (read_form_elements address l H Hr [] rest) as [fuel E].
  exists (S fuel). cbn [tokens_of app read_fuel String.eqb Ascii.eqb].
  rewrite <- List.app_assoc. exact E.
Qed.

(** Reading the printed form of a term gives the term. *)
Lemma parse_lisp_str :
  forall address t,
    readable t = true -> parse (lisp_str address t) = Return t.
Proof.
  intros address t Hr. unfold parse.
  rewrite (tokenize_lisp_str address t Hr).
  destruct (read_fuel_tokens_of address t Hr []) as [fuel E].
  rewrite List.app_nil_r in E.
  rewrite (read_from_tokens_fuel _ _ _ E). reflexivity.
Qed.







(** * Further properties *)

(** ** The tokenizer as one scan *)

Lemma flush_app :
  forall word l, flush word l = (flush word [] ++ l)%list.
Proof. intros [|c w] l; reflexivity. Qed.

Lemma split_from_space :
  forall word c s,
    PyStr.isspace c = true ->
    PyStr.split_from word (String c s)
    = flush word (PyStr.split_from "" s).
Proof. intros word c s H. simpl. rewrite H. destruct word; reflexivity. Qed.

Lemma split_from_other :
  forall word c s,
    PyStr.isspace c = false ->
    PyStr.split_from word (String c s)
    = PyStr.split_from (word ++ String c "") s.
Proof. intros word c s H. simpl. rewrite H. reflexivity. Qed.

Lemma spaced_cons :
  forall c s, spaced (String c s) = spaced (String c "") ++ spaced s.
Proof. intros c s. rewrite <- spaced_app. reflexivity. Qed.

Lemma spaced_char :
  forall c,
    Ascii.eqb c "(" = false -> Ascii.eqb c ")" = false ->
    spaced (String c "") = String c "".
Proof.
  intros c H1 H2. unfold spaced. cbn [PyStr.replace]. rewrite H1.
  cbn [PyStr.replace]. rewrite H2. reflexivity.
Qed.

Lemma isspace_not_paren :
  forall c,
    PyStr.isspace c = true ->
    Ascii.eqb c "(" = false /\ Ascii.eqb c ")" = false.
Proof.
  intros c H. split.
  - destruct (Ascii.eqb_spec c "("); [subst; discriminate|reflexivity].
  - destruct (Ascii.eqb_spec c ")"); [subst; discriminate|reflexivity].
Qed.

(** [split] after the two [replace] is the scan. *)
Lemma split_spaced_scan :
  forall s word, PyStr.split_from word (spaced s) = scan word s.
Proof.
  induction s as [|c s IH]; intros word.
  - destruct word; reflexivity.
  - rewrite spaced_cons. cbn [scan].
    destruct (PyStr.isspace c) eqn:Es.
    + destruct (isspace_not_paren c Es) as [N1 N2].
      rewrite (spaced_char c N1 N2).
      change (String c "" ++ spaced s) with (String c (spaced s)).
      rewrite (split_from_space _ _ _ Es), IH. reflexivity.
    + destruct (Ascii.eqb_spec c "(") as [->|N1].
      * change (spaced "(" ++ spaced s)
          with (String " " (String "(" (String " " (spaced s)))).
        rewrite split_from_space by reflexivity.
        rewrite split_from_other by reflexivity.
        rewrite split_from_space by reflexivity.
        rewrite IH. reflexivity.
      * destruct (Ascii.eqb_spec c ")") as [->|N2].
        -- change (spaced ")" ++ spaced s)
             with (String " " (String ")" (String " " (spaced s)))).
           rewrite split_from_space by reflexivity.
           rewrite split_from_other by reflexivity.
           rewrite split_from_space by reflexivity.
           rewrite IH. reflexivity.
        -- rewrite spaced_char
             by (apply Ascii.eqb_neq; assumption).
           change (String c "" ++ spaced s) with (String c (spaced s)).
           rewrite (split_from_other _ _ _ Es), IH. reflexivity.
Qed.

Lemma tokenize_scan : forall s, tokenize s = scan "" s.
Proof. intros s. rewrite tokenize_unfold. apply split_spaced_scan. Qed.

(** *** The tokens *)

Lemma token_char_iff :
  forall c,
    token_char c = true
    <-> PyStr.isspace c = false
        /\ (Ascii.eqb c "(" || Ascii.eqb c ")") = false.
Proof.
  intros c. unfold token_char.
  destruct (PyStr.isspace c), (Ascii.eqb c "("), (Ascii.eqb c ")");
    simpl; intuition congruence.
Qed.

Lemma token_chars_app :
  forall s t, token_chars (s ++ t) = token_chars s && token_chars t.
Proof. intros s t. apply string_all_app. Qed.

Lemma is_token_word :
  forall word, token_chars word = true -> word <> "" -> is_token word = true.
Proof. intros [|c w] H N; [contradiction|exact H]. Qed.

Lemma is_token_lexeme :
  forall token, is_token token = true -> lexeme token = true.
Proof.
  intros token H. unfold lexeme. rewrite H. apply orb_true_r.
Qed.

Lemma flush_lexemes :
  forall word l,
    token_chars word = true ->
    Forall (fun t => lexeme t = true) l ->
    Forall (fun t => lexeme t = true) (flush word l).
Proof.
  intros [|c w] l H Hl; [exact Hl|].
  constructor; [|exact Hl]. apply is_token_lexeme. exact H.
Qed.

Lemma scan_lexemes :
  forall s word,
    token_chars word = true ->
    Forall (fun t => lexeme t = true) (scan word s).
Proof.
  induction s as [|c s IH]; intros word Hw; cbn [scan].
  - apply flush_lexemes; [exact Hw|constructor].
  - destruct (PyStr.isspace c) eqn:Es.
    + apply flush_lexemes; [exact Hw|]. apply IH. reflexivity.
    + destruct (Ascii.eqb c "(" || Ascii.eqb c ")") eqn:Ep.
      * apply flush_lexemes; [exact Hw|].
        constructor; [|apply IH; reflexivity].
        apply orb_true_iff in Ep as [E|E]; apply Ascii.eqb_eq in E;
          subst; reflexivity.
      * apply IH. rewrite token_chars_app, Hw.
        unfold token_chars. cbn [string_all].
        rewrite (proj2 (token_char_iff c) (conj Es Ep)). reflexivity.
Qed.

Lemma tokenize_lexemes :
  forall s, Forall (fun t => lexeme t = true) (tokenize s).
Proof. intros s. rewrite tokenize_scan. apply scan_lexemes. reflexivity. Qed.

(** *** White space only *)

Lemma flush_nil :
  forall word l, flush word l = [] <-> word = "" /\ l = [].
Proof.
  intros [|c w] l; simpl; split.
  - intros ->. split; reflexivity.
  - intros [_ H]. exact H.
  - discriminate.
  - intros [H _]. discriminate.
Qed.

Lemma app_empty :
  forall s t : string, s ++ t = "" -> s = "" /\ t = "".
Proof. intros [|c s] t H; [split; [reflexivity|exact H]|discriminate]. Qed.

Lemma scan_nil :
  forall s word, scan word s = [] <-> word = "" /\ blank_text s = true.
Proof.
  induction s as [|c s IH]; intros word; cbn [scan].
  - rewrite flush_nil. unfold blank_text. simpl. tauto.
  - unfold blank_text. cbn [string_all].
    destruct (PyStr.isspace c) eqn:Es.
    + rewrite flush_nil, IH. unfold blank_text. simpl. tauto.
    + destruct (Ascii.eqb c "(" || Ascii.eqb c ")").
      * rewrite flush_nil. simpl. intuition discriminate.
      * rewrite IH. simpl. split; [|intros [_ H]; discriminate].
        intros [H _]. apply app_empty in H as [_ H]. discriminate.
Qed.

Lemma tokenize_nil :
  forall s, tokenize s = [] <-> blank_text s = true.
Proof. intros s. rewrite tokenize_scan, scan_nil. tauto. Qed.

(** *** Texts put together *)

(** A text that starts with white space or a parenthesis starts a new
    token. *)
Lemma scan_app :
  forall a word b,
    breaks b = true -> scan word (a ++ b) = (scan word a ++ scan "" b)%list.
Proof.
  induction a as [|c a IH]; intros word b Hb.
  - change ("" ++ b) with b. cbn [scan].
    destruct b as [|c b]; [destruct word; reflexivity|].
    cbn [scan]. unfold breaks in Hb.
    destruct (PyStr.isspace c).
    + rewrite (flush_app word (scan "" b)). reflexivity.
    + simpl in Hb. rewrite Hb.
      rewrite (flush_app word (String c "" :: scan "" b)). reflexivity.
  - change (String c a ++ b) with (String c (a ++ b)). cbn [scan].
    destruct (PyStr.isspace c).
    + rewrite IH by exact Hb.
      rewrite (flush_app word (scan "" a ++ scan "" b)).
      rewrite (flush_app word (scan "" a)).
      rewrite List.app_assoc. reflexivity.
    + destruct (Ascii.eqb c "(" || Ascii.eqb c ")").
      * rewrite IH by exact Hb.
        rewrite (flush_app word (String c "" :: scan "" a ++ scan "" b)).
        rewrite (flush_app word (String c "" :: scan "" a)).
        rewrite <- List.app_assoc. reflexivity.
      * apply IH. exact Hb.
Qed.

Lemma scan_word :
  forall s word,
    token_chars s = true -> scan word s = flush (word ++ s) [].
Proof.
  induction s as [|c s IH]; intros word H.
  - rewrite string_app_nil_r. reflexivity.
  - unfold token_chars in H. cbn [string_all] in H.
    apply andb_true_iff in H as [Hc Hs].
    apply token_char_iff in Hc as [Es Ep].
    cbn [scan]. rewrite Es, Ep. rewrite IH by exact Hs.
    rewrite string_app_assoc. reflexivity.
Qed.

Lemma scan_lexeme :
  forall token, lexeme token = true -> scan "" token = [token].
Proof.
  intros token H. unfold lexeme in H.
  destruct (String.eqb_spec token "(") as [E|N1]; [subst; reflexivity|].
  destruct (String.eqb_spec token ")") as [E|N2]; [subst; reflexivity|].
  simpl in H. destruct token as [|c t]; [discriminate|].
  rewrite scan_word by exact H. reflexivity.
Qed.

Lemma scan_join :
  forall l,
    Forall (fun t => lexeme t = true) l -> scan "" (PyStr.join " " l) = l.
Proof.
  induction l as [|x l IH]; intros H; [reflexivity|].
  inversion H as [|? ? Hx Hl]; subst.
  destruct l as [|y l].
  - apply scan_lexeme. exact Hx.
  - change (PyStr.join " " (x :: y :: l))
      with (x ++ String " " (PyStr.join " " (y :: l))).
    rewrite scan_app by reflexivity.
    rewrite scan_lexeme by exact Hx.
    change (scan "" (String " " (PyStr.join " " (y :: l))))
      with (scan "" (PyStr.join " " (y :: l))).
    rewrite IH by exact Hl. reflexivity.
Qed.

(** *** The tokenizer *)

(** X1. [tokenize] is one scan of the text from left to right: white
    space ends the token read so far and is dropped, each parenthesis
    ends it and is a token of its own, any other character goes on with
    it. *)
Theorem X1_tokenize_is_one_scan : forall chars, tokenize chars = scan "" chars.
Proof. exact tokenize_scan. Qed.

(** X2. Every token of [tokenize] is ["("], [")"] or a non-empty text
    without white space and without parentheses. *)
Theorem X2_tokens_are_lexemes :
  forall chars,
    Forall (fun token =>
              token = "(" \/ token = ")"
              \/ (token <> "" /\ token_chars token = true))
      (tokenize chars).
Proof.
  intros chars. pose proof (tokenize_lexemes chars) as H.
  rewrite Forall_forall in *. intros token Hin. specialize (H token Hin).
  unfold lexeme in H.
  destruct (String.eqb_spec token "(") as [E|_]; [tauto|].
  destruct (String.eqb_spec token ")") as [E|_]; [tauto|].
  right; right. simpl in H. destruct token; [discriminate|].
  split; [discriminate|exact H].
Qed.

(** X3. [tokenize] gives no token exactly on a text of white space
    only (the empty text is one), and these are the texts on which
    [parse] fails with the [SyntaxError] "unexpected EOF". *)
Theorem X3_blank_text_is_unexpected_EOF :
  forall chars,
    (tokenize chars = [] <-> blank_text chars = true)
    /\ (parse chars = Raise unexpected_EOF <-> blank_text chars = true).
Proof.
  intros chars. split; [apply tokenize_nil|].
  rewrite <- tokenize_nil. unfold parse. split.
  - intros H.
    pose proof (read_from_tokens_total (tokenize chars)) as T.
    destruct (read_from_tokens (tokenize chars)) as [r rest].
    simpl in H. subst r.
    exact (proj1 (read_fuel_EOF _) _ _ T).
  - intros ->. reflexivity.
Qed.

(** X4. The tokens of two texts joined by a space are the tokens of the
    first followed by those of the second, and a parenthesis between
    two texts is a token between their tokens, whatever surrounds
    it. *)
Theorem X4_tokenize_texts_together :
  forall a b,
    tokenize (a ++ " " ++ b) = (tokenize a ++ tokenize b)%list
    /\ tokenize (a ++ "(" ++ b) = (tokenize a ++ "(" :: tokenize b)%list
    /\ tokenize (a ++ ")" ++ b) = (tokenize a ++ ")" :: tokenize b)%list.
Proof.
  intros a b. rewrite !tokenize_scan.
  repeat split; rewrite scan_app by reflexivity; reflexivity.
Qed.

(** X5. Joining the tokens of a text with spaces gives a text with the
    same tokens. *)
Theorem X5_tokenize_joined_tokens :
  forall chars, tokenize (PyStr.join " " (tokenize chars)) = tokenize chars.
Proof.
  intros chars. rewrite (tokenize_scan (PyStr.join " " (tokenize chars))).
  apply scan_join, tokenize_lexemes.
Qed.

(** ** The reader on every list of tokens *)

Lemma after_close_shorter :
  forall tokens depth rest,
    after_close depth tokens = Some rest ->
    (List.length rest < List.length tokens)%nat.
Proof.
  induction tokens as [|token tokens IH]; intros depth rest H;
    [discriminate|].
  cbn [after_close] in H. cbn [List.length].
  destruct (String.eqb token "(").
  - apply IH in H. lia.
  - destruct (String.eqb token ")").
    + destruct depth as [|depth].
      * inversion H; subst. lia.
      * apply IH in H. lia.
    + apply IH in H. lia.
Qed.

(** Closing one more list is closing the innermost one and then the
    others. *)
Lemma after_close_S :
  forall n tokens depth,
    (List.length tokens <= n)%nat ->
    after_close (S depth) tokens
    = match after_close 0 tokens with
      | Some rest => after_close depth rest
      | None => None
      end.
Proof.
  induction n as [|n IH]; intros tokens depth Hn.
  - destruct tokens; [reflexivity|simpl in Hn; lia].
  - destruct tokens as [|token tokens]; [reflexivity|].
    cbn [List.length] in Hn. cbn [after_close].
    destruct (String.eqb token "(").
    + rewrite (IH tokens (S depth)) by lia.
      rewrite (IH tokens 0%nat) by lia.
      destruct (after_close 0 tokens) as [rest|] eqn:E; [|reflexivity].
      apply after_close_shorter in E. apply IH. lia.
    + destruct (String.eqb token ")"); [reflexivity|].
      apply IH. lia.
Qed.

(** The loop of the reader ends with the list when its closing
    parenthesis is there, and with [IndexError] on the exhausted list
    of tokens when it is not. *)
Lemma read_form_after_close :
  forall fuel form tokens r,
    read_form fuel form tokens = Some r ->
    match after_close 0 tokens with
    | Some rest => exists l, r = (Return (Lst (form ++ l)%list), rest)
    | None => r = (Raise IndexError, [])
    end.
Proof.
  induction fuel as [fuel IH] using lt_wf_ind. intros form tokens r H.
  destruct fuel as [|fuel]; [discriminate|].
  destruct tokens as [|token tokens].
  - inversion H; subst. reflexivity.
  - cbn [read_form] in H. cbn [after_close].
    destruct (String.eqb token ")") eqn:Ec.
    + apply String.eqb_eq in Ec. subst token.
      inversion H; subst. exists []. rewrite List.app_nil_r. reflexivity.
    + cbn [negb] in H.
      destruct fuel as [|fuel']; [discriminate|].
      cbn [read_fuel] in H. rewrite Ec in H.
      destruct (String.eqb token "(") eqn:Eo.
      * rewrite (after_close_S (List.length tokens)) by lia.
        destruct (read_form fuel' [] tokens) as [r1|] eqn:E1;
          [|discriminate].
        apply (IH fuel' ltac:(lia)) in E1.
        destruct (after_close 0 tokens) as [rest1|].
        -- destruct E1 as [l1 ->].
           apply (IH (S fuel') ltac:(lia)) in H.
           destruct (after_close 0 rest1) as [rest|]; [|exact H].
           destruct H as [l ->]. exists (Lst l1 :: l).
           rewrite <- List.app_assoc. reflexivity.
        -- subst r1. inversion H; subst. reflexivity.
      * apply (IH (S fuel') ltac:(lia)) in H.
        destruct (after_close 0 tokens) as [rest|]; [|exact H].
        destruct H as [l ->]. exists (atom token :: l).
        rewrite <- List.app_assoc. reflexivity.
Qed.

Lemma read_from_tokens_nil :
  read_from_tokens [] = (Raise unexpected_EOF, []).
Proof. reflexivity. Qed.

Lemma read_from_tokens_close :
  forall tokens,
    read_from_tokens (")" :: tokens)
    = (Raise (SyntaxError "unexpected )"), tokens).
Proof. intros tokens. apply (read_from_tokens_fuel 1). reflexivity. Qed.

Lemma read_from_tokens_atom :
  forall token tokens,
    String.eqb token "(" = false -> String.eqb token ")" = false ->
    read_from_tokens (token :: tokens) = (Return (atom token), tokens).
Proof.
  intros token tokens H1 H2. apply (read_from_tokens_fuel 1).
  cbn [read_fuel]. rewrite H1, H2. reflexivity.
Qed.

Lemma read_from_tokens_open :
  forall tokens,
    match after_close 0 tokens with
    | Some rest =>
        exists l, read_from_tokens ("(" :: tokens) = (Return (Lst l), rest)
    | None => read_from_tokens ("(" :: tokens) = (Raise IndexError, [])
    end.
Proof.
  intros tokens.
  pose proof (read_from_tokens_total ("(" :: tokens)) as T.
  destruct (read_from_tokens ("(" :: tokens)) as [r rest].
  replace (2 * List.length ("(" :: tokens) + 1)%nat
    with (S (2 * List.length tokens + 2))%nat in T by (simpl; lia).
  cbn [read_fuel] in T. change (String.eqb "(" "(") with true in T.
  cbv iota in T.
  exact (read_form_after_close _ _ _ _ T).
Qed.

(** The first token decides which error the reader can raise. *)
Lemma read_from_tokens_error :
  forall tokens e,
    fst (read_from_tokens tokens) = Raise e ->
    match tokens with
    | [] => e = unexpected_EOF
    | token :: tokens' =>
        (token = ")" /\ e = SyntaxError "unexpected )")
        \/ (token = "(" /\ e = IndexError /\ after_close 0 tokens' = None)
    end.
Proof.
  intros [|token tokens] e H.
  - simpl in H. inversion H. reflexivity.
  - destruct (String.eqb_spec token ")") as [E|N2].
    + subst. rewrite read_from_tokens_close in H. inversion H.
      left. split; reflexivity.
    + destruct (String.eqb_spec token "(") as [E|N1].
      * subst. right. pose proof (read_from_tokens_open tokens) as O.
        destruct (after_close 0 tokens) as [rest|].
        -- destruct O as [l O]. rewrite O in H. discriminate.
        -- rewrite O in H. inversion H. repeat split; reflexivity.
      * rewrite read_from_tokens_atom in H
          by (apply String.eqb_neq; assumption).
        discriminate.
Qed.

(** X6. What [read_from_tokens] does is decided by the first token and
    by the parentheses that follow: no token, the [SyntaxError]
    "unexpected EOF"; a closing parenthesis, the [SyntaxError]
    "unexpected )"; an opening one, the list up to the parenthesis that
    closes it, with the tokens after it left, and [IndexError] on the
    exhausted list of tokens when that parenthesis is missing; any other
    token, the atom of the token with the other tokens left. *)
Theorem X6_read_from_tokens_by_first_token :
  forall tokens,
    match tokens with
    | [] => read_from_tokens tokens = (Raise unexpected_EOF, [])
    | token :: rest =>
        if String.eqb token ")" then
          read_from_tokens tokens = (Raise (SyntaxError "unexpected )"), rest)
        else if String.eqb token "(" then
          match after_close 0 rest with
          | Some after =>
              exists l, read_from_tokens tokens = (Return (Lst l), after)
          | None => read_from_tokens tokens = (Raise IndexError, [])
          end
        else read_from_tokens tokens = (Return (atom token), rest)
    end.
Proof.
  intros [|token rest]; [reflexivity|].
  destruct (String.eqb token ")") eqn:Ec.
  - apply String.eqb_eq in Ec. subst. apply read_from_tokens_close.
  - destruct (String.eqb token "(") eqn:Eo.
    + apply String.eqb_eq in Eo. subst. apply read_from_tokens_open.
    + apply read_from_tokens_atom; assumption.
Qed.

(** ** The environment through an evaluation *)

(** The cases of the evaluator on a list that is not empty. *)
Lemma lisp_eval_Lst :
  forall head operands env,
    (head = Str "quote"
     /\ lisp_eval (Lst (head :: operands)) env
        = special_form "quote" operands env)
    \/ (head = Str "if"
        /\ lisp_eval (Lst (head :: operands)) env
           = special_form "if" operands env)
    \/ (head = Str "define"
        /\ lisp_eval (Lst (head :: operands)) env
           = special_form "define" operands env)
    \/ (py_eq head (Str "quote") = false
        /\ py_eq head (Str "if") = false
        /\ py_eq head (Str "define") = false
        /\ lisp_eval (Lst (head :: operands)) env
           = application head operands env).
Proof.
  intros head operands env.
  destruct (py_eq head (Str "quote")) eqn:Eq.
  { apply py_eq_Str in Eq. subst. left. split; [reflexivity|].
    apply lisp_eval_special. simpl. tauto. }
  destruct (py_eq head (Str "if")) eqn:Ei.
  { apply py_eq_Str in Ei. subst. right. left. split; [reflexivity|].
    apply lisp_eval_special. simpl. tauto. }
  destruct (py_eq head (Str "define")) eqn:Ed.
  { apply py_eq_Str in Ed. subst. right. right. left.
    split; [reflexivity|]. apply lisp_eval_special. simpl. tauto. }
  right. right. right. repeat split; try reflexivity.
  apply lisp_eval_application; assumption.
Qed.

Section Invariant.
Variable R : Env -> Env -> Prop.
Hypothesis R_refl : forall env, R env env.
Hypothesis R_trans :
  forall env1 env2 env3, R env1 env2 -> R env2 env3 -> R env1 env3.
Hypothesis R_put : forall env k v, R env (dict_put env k v).

Lemma eval_args_invariant :
  forall args,
    Forall (fun x => forall env, R env (snd (lisp_eval x env))) args ->
    forall env, R env (snd (eval_args args env)).
Proof.
  induction args as [|arg args IH]; intros H env; [apply R_refl|].
  inversion H as [|? ? Ha Hl]; subst. cbn [eval_args].
  specialize (Ha env).
  destruct (lisp_eval arg env) as [[v|e] env1]; [|exact Ha].
  specialize (IH Hl env1).
  destruct (eval_args args env1) as [[vs|e] env2];
    exact (R_trans _ _ _ Ha IH).
Qed.

(** A relation between environments that [define] respects holds
    between the environment before and after any evaluation. *)
Lemma lisp_eval_invariant :
  forall x env, R env (snd (lisp_eval x env)).
Proof.
  induction x as [n|f|s|l IH|b| |g|g] using obj_ind; intros env;
    try apply R_refl.
  - simpl. destruct (dict_get env (Str s)); apply R_refl.
  - destruct l as [|head operands]; [apply R_refl|].
    inversion IH as [|? ? Hh Ho]; subst.
    destruct (lisp_eval_Lst head operands env)
      as [[-> E]|[[-> E]|[[-> E]|[_ [_ [_ E]]]]]]; rewrite E; clear E.
    + unfold special_form. simpl.
      destruct operands as [|r [|]]; apply R_refl.
    + unfold special_form. simpl.
      destruct operands as [|c [|a [|b [|]]]]; try apply R_refl.
      inversion Ho as [|? ? Hc Ho1]; subst.
      inversion Ho1 as [|? ? Ha Ho2]; subst.
      inversion Ho2 as [|? ? Hb _]; subst.
      specialize (Hc env).
      destruct (lisp_eval c env) as [[v|e] env1]; [|exact Hc].
      destruct (truthy v);
        [exact (R_trans _ _ _ Hc (Ha env1))
        |exact (R_trans _ _ _ Hc (Hb env1))].
    + unfold special_form. simpl.
      destruct operands as [|symbol [|exp [|]]]; try apply R_refl.
      inversion Ho as [|? ? _ Ho1]; subst.
      inversion Ho1 as [|? ? He _]; subst.
      specialize (He env).
      destruct (lisp_eval exp env) as [[v|e] env1]; [|exact He].
      unfold dict_set. destruct (hashable symbol); [|exact He].
      exact (R_trans _ _ _ He (R_put _ _ _)).
    + unfold application. specialize (Hh env).
      destruct (lisp_eval head env) as [[proc|e] env1]; [|exact Hh].
      pose proof (eval_args_invariant operands Ho env1) as Ha.
      destruct (eval_args operands env1) as [[vs|e] env2];
        exact (R_trans _ _ _ Hh Ha).
Qed.
End Invariant.

Lemma keeps_refl : forall env, keeps env env.
Proof. intros env. exists []. rewrite List.app_nil_r. reflexivity. Qed.

Lemma keeps_trans :
  forall env1 env2 env3, keeps env1 env2 -> keeps env2 env3 -> keeps env1 env3.
Proof.
  intros env1 env2 env3 [m1 H1] [m2 H2]. exists (m1 ++ m2)%list.
  rewrite H2, H1, List.app_assoc. reflexivity.
Qed.

(** An assignment keeps the key that is there, or adds the new key at
    the end. *)
Lemma keeps_put : forall env k v, keeps env (dict_put env k v).
Proof.
  intros env k v. induction env as [|[k' v'] env [more IH]]; simpl.
  - exists [k]. reflexivity.
  - destruct (py_eq k' k).
    + exists []. simpl. rewrite List.app_nil_r. reflexivity.
    + exists more. simpl. rewrite IH. reflexivity.
Qed.

Lemma bound_keys :
  forall env k,
    bound env k <-> existsb (fun k' => py_eq k' k) (map fst env) = true.
Proof.
  intros env k. unfold bound. induction env as [|[k' v'] env IH]; simpl.
  - split; [congruence|discriminate].
  - destruct (py_eq k' k); simpl; [|exact IH].
    split; [reflexivity|discriminate].
Qed.

Lemma keeps_bound :
  forall env env' k, keeps env env' -> bound env k -> bound env' k.
Proof.
  intros env env' k [more H]. rewrite !bound_keys, H, existsb_app.
  intros ->. reflexivity.
Qed.

Lemma lisp_eval_keeps : forall x env, keeps env (snd (lisp_eval x env)).
Proof.
  apply lisp_eval_invariant;
    [exact keeps_refl|exact keeps_trans|exact keeps_put].
Qed.

(** ** Expressions without [define] *)

Lemma eval_args_frame :
  forall args,
    Forall (fun x => may_define x = false ->
                     forall env, snd (lisp_eval x env) = env) args ->
    existsb may_define args = false ->
    forall env, snd (eval_args args env) = env.
Proof.
  induction args as [|arg args IH]; intros H Hd env; [reflexivity|].
  inversion H as [|? ? Ha Hl]; subst. cbn [existsb] in Hd.
  apply orb_false_iff in Hd as [Hd1 Hd2]. cbn [eval_args].
  specialize (Ha Hd1 env).
  destruct (lisp_eval arg env) as [[v|e] env1]; simpl in Ha; subst env1;
    [|reflexivity].
  specialize (IH Hl Hd2 env).
  destruct (eval_args args env) as [[vs|e] env2]; exact IH.
Qed.


(** ** Definitions and operands *)

Lemma lisp_eval_define :
  forall s exp env,
    lisp_eval (define_form (Str s) exp) env
    = match lisp_eval exp env with
      | (Return v, env1) => (Return PyNone, dict_put env1 (Str s) v)
      | (Raise e, env1) => (Raise e, env1)
      end.
Proof.
  intros s exp env. unfold define_form.
  rewrite (lisp_eval_special "define") by (simpl; tauto).
  unfold special_form. simpl.
  destruct (lisp_eval exp env) as [[v|e] env1]; reflexivity.
Qed.


(** X12. A [define] of a symbol evaluates the expression and then binds
    the symbol to its value in the environment that the expression
    left, replacing an older binding of the symbol: the symbol then
    evaluates to that value and every other symbol is bound as before.
    When the expression raises, so does the [define], and it binds
    nothing. *)
Theorem X12_define_binds_the_value :
  forall s exp env,
    match lisp_eval exp env with
    | (Return v, env1) =>
        lisp_eval (define_form (Str s) exp) env
        = (Return PyNone, dict_put env1 (Str s) v)
        /\ lisp_eval (Str s) (dict_put env1 (Str s) v)
           = (Return v, dict_put env1 (Str s) v)
        /\ forall t,
             t <> s ->
             dict_get (dict_put env1 (Str s) v) (Str t)
             = dict_get env1 (Str t)
    | (Raise e, env1) =>
        lisp_eval (define_form (Str s) exp) env = (Raise e, env1)
    end.
Proof.
  intros s exp env. rewrite lisp_eval_define.
  destruct (lisp_eval exp env) as [[v|e] env1]; [|reflexivity].
  split; [reflexivity|]. split.
  - cbn [lisp_eval].
    rewrite dict_get_put_same by apply py_eq_Str_refl. reflexivity.
  - intros t Ht. apply dict_get_put_other. congruence.
Qed.

(** The symbol [y] after [(define x 1)] in the standard environment. *)
Lemma X12_witness :
  dict_get (dict_put standard_env (Str "x") (Int 1)) (Str "y")
  = dict_get standard_env (Str "y").
Proof.
  apply (X12_define_binds_the_value "x" (Int 1) standard_env).
  discriminate.
Defined.

(** X13. An evaluation never removes a binding and never moves one:
    whether it returns or raises, the environment that it leaves has
    the keys of the environment before, in the same order, with the
    newly defined keys after them.  So what was bound stays bound. *)
Theorem X13_evaluation_keeps_the_bindings :
  forall x env,
    (exists more,
        map fst (snd (lisp_eval x env)) = (map fst env ++ more)%list)
    /\ (forall k,
           dict_get env k <> None ->
           dict_get (snd (lisp_eval x env)) k <> None).
Proof.
  intros x env. split; [apply lisp_eval_keeps|].
  intros k. apply (keeps_bound env _ k), lisp_eval_keeps.
Qed.

(** [car] is still bound after [(define car 1)], which fails on
    nothing, in the standard environment. *)
Lemma X13_witness :
  dict_get (snd (lisp_eval (define_form (Str "car") (Int 1)) standard_env))
    (Str "car") <> None.
Proof.
  apply (X13_evaluation_keeps_the_bindings
           (define_form (Str "car") (Int 1)) standard_env).
  discriminate.
Defined.

(** X14. Only [define] changes the environment: an expression with no
    [define] form outside of the [quote] forms leaves the environment
    as it was, whether it returns or raises. *)
Theorem X14_without_define_nothing_changes :
  forall x env, may_define x = false -> snd (lisp_eval x env) = env.
Proof.
  intros x env Hd. revert env. revert Hd.
  induction x as [n|f|s|l IH|b| |g|g] using obj_ind; intros Hd env;
    try reflexivity.
  - simpl. destruct (dict_get env (Str s)); reflexivity.
  - destruct l as [|head operands]; [reflexivity|].
    inversion IH as [|? ? Hh Ho]; subst.
    cbn [may_define] in Hd.
    destruct (lisp_eval_Lst head operands env)
      as [[-> E]|[[-> E]|[[-> E]|[Nq [_ [Nd E]]]]]]; rewrite E; clear E.
    + unfold special_form. simpl. destruct operands as [|r [|]]; reflexivity.
    + unfold special_form. simpl. simpl in Hd.
      destruct operands as [|c [|a [|b [|]]]]; try reflexivity.
      inversion Ho as [|? ? Hc Ho1]; subst.
      inversion Ho1 as [|? ? Ha Ho2]; subst.
      inversion Ho2 as [|? ? Hb _]; subst.
      cbn [existsb] in Hd. rewrite orb_false_r in Hd.
      apply orb_false_iff in Hd as [Dc Hd].
      apply orb_false_iff in Hd as [Da Db].
      specialize (Hc Dc env).
      destruct (lisp_eval c env) as [[v|e] env1]; simpl in Hc; subst env1;
        [|reflexivity].
      destruct (truthy v); [apply Ha; exact Da|apply Hb; exact Db].
    + discriminate.
    + rewrite Nq, Nd in Hd. simpl in Hd.
      apply orb_false_iff in Hd as [Dh Do].
      unfold application. specialize (Hh Dh env).
      destruct (lisp_eval head env) as [[proc|e] env1]; simpl in Hh;
        subst env1; [|reflexivity].
      pose proof (eval_args_frame operands Ho Do env) as Ha.
      destruct (eval_args operands env) as [[vs|e] env2]; exact Ha.
Qed.

(** [(if (< 1 2) (quote (define x 1)) (car 5))] *)
Lemma X14_witness :
  snd (lisp_eval
         (if_form (Lst [Str "<"; Int 1; Int 2])
            (quote_form (define_form (Str "x") (Int 1)))
            (Lst [Str "car"; Int 5]))
         standard_env)
  = standard_env.
Proof.
  apply (X14_without_define_nothing_changes
           (if_form (Lst [Str "<"; Int 1; Int 2])
              (quote_form (define_form (Str "x") (Int 1)))
              (Lst [Str "car"; Int 5]))
           standard_env).
  reflexivity.
Defined.


(** ** The exceptions of the primitives and of the evaluator *)

Lemma py_richcmp_error :
  forall a op b e, py_richcmp op a b = Raise e -> e = TypeError.
Proof.
  induction a as [n|f|s|l IH|x| |g|g] using obj_ind; intros op b e H;
    try (destruct b; simpl in H; try discriminate; congruence).
  - destruct b as [n|f|s|l2|x| |g|g]; simpl in H; try congruence.
    revert l2 H. induction IH as [|x l Hx _ IHl]; intros l2 H.
    + destruct l2; discriminate.
    + destruct l2 as [|y l2]; [discriminate|].
      destruct (py_eq x y); [exact (IHl _ H)|exact (Hx _ _ _ H)].
Qed.

Lemma number_arith_error :
  forall op a b e,
    number_arith op a b = Raise e ->
    (e = ZeroDivisionError /\ op = ArDiv /\ zero_number b = true)
    \/ e = OverflowError.
Proof.
  intros op a b e H. unfold number_arith in H.
  assert (Hf : forall x y,
             float_arith op x y = Raise e ->
             e = ZeroDivisionError /\ op = ArDiv
             /\ zero_number (inr y) = true).
  { intros x y Hxy. destruct op; simpl in Hxy; try discriminate.
    destruct y; try discriminate. inversion Hxy. repeat split. }
  assert (Hd : forall n, to_double n = Raise e -> e = OverflowError).
  { intros n Hn. destruct n as [z|f]; simpl in Hn; [|discriminate].
    destruct (PyNum.float_of_int z); [discriminate|congruence]. }
  destruct a as [x|x], b as [y|y].
  - destruct op; simpl in H; try discriminate.
    unfold int_true_divide in H.
    destruct (y =? 0) eqn:Ey.
    + left. inversion H. repeat split. exact Ey.
    + right.
      destruct (PyNum.nearest_float (xorb (x <? 0) (y <? 0))
                  (inject_Z (Z.abs x) / inject_Z (Z.abs y)));
        try discriminate. congruence.
  - destruct (to_double (inl x)) as [fx|e'] eqn:Ex.
    + simpl in H. left. exact (Hf _ _ H).
    + right. inversion H; subst. exact (Hd _ Ex).
  - simpl in H.
    destruct (PyNum.float_of_int y) as [fy|] eqn:Ey.
    + destruct (Hf _ _ H) as [-> [-> Hz]]. left. repeat split.
      simpl in Hz. destruct fy; try discriminate.
      apply float_of_int_zero in Ey. subst. reflexivity.
    + right. congruence.
  - simpl in H. left. exact (Hf _ _ H).
Qed.

Lemma subscript_error :
  forall x i e,
    subscript x i = Raise e -> e = TypeError \/ e = IndexError.
Proof.
  intros x i e H. destruct x; simpl in H; try (left; congruence).
  - destruct (String.get i s); [discriminate|right; congruence].
  - destruct (nth_error l i); [discriminate|right; congruence].
Qed.

(** Which primitive can raise which exception. *)
Lemma call_raises :
  forall proc args e,
    call proc args = Raise e ->
    match e with
    | TypeError => True
    | ZeroDivisionError =>
        exists a b, proc = Builtin op_truediv /\ args = [a; b]
                    /\ exists x y, as_number a = Some x
                                   /\ as_number b = Some y
                                   /\ zero_number y = true
    | OverflowError =>
        proc = Builtin op_add \/ proc = Builtin op_sub
        \/ proc = Builtin op_mul \/ proc = Builtin op_truediv
    | IndexError => proc = Lambda lambda_car \/ proc = Lambda lambda_cdr
    | _ => False
    end.
Proof.
  intros proc args e H.
  destruct proc as [n|f|s|l|b| |g|g]; simpl in H;
    try (inversion H; exact I).
  - destruct args as [|a [|b [|]]]; try (inversion H; exact I).
    destruct g; cbn [call_builtin] in H;
      try (apply py_richcmp_error in H; subst; exact I);
      try discriminate.
    + unfold py_add in H.
      destruct (as_number a) as [x|] eqn:Ea, (as_number b) as [y|] eqn:Eb;
        try (destruct a, b; inversion H; exact I).
      destruct (number_arith_error _ _ _ _ H) as [[_ [Hop _]]| ->];
        [discriminate|tauto].
    + unfold py_sub in H.
      destruct (as_number a) as [x|] eqn:Ea, (as_number b) as [y|] eqn:Eb;
        try (inversion H; exact I).
      destruct (number_arith_error _ _ _ _ H) as [[_ [Hop _]]| ->];
        [discriminate|tauto].
    + unfold py_mul in H.
      destruct (as_number a) as [x|] eqn:Ea, (as_number b) as [y|] eqn:Eb.
      * assert (H' : number_arith ArMul x y = Raise e)
          by (destruct x; exact H).
        destruct (number_arith_error _ _ _ _ H') as [[_ [Hop _]]| ->];
          [discriminate|tauto].
      * destruct x; [|inversion H; exact I].
        destruct b; inversion H; exact I.
      * destruct y; [|inversion H; exact I].
        destruct a; inversion H; exact I.
      * inversion H; exact I.
    + unfold py_truediv in H.
      destruct (as_number a) as [x|] eqn:Ea, (as_number b) as [y|] eqn:Eb;
        try (inversion H; exact I).
      destruct (number_arith_error _ _ _ _ H) as [[-> [_ Hz]]| ->];
        [|tauto].
      exists a, b. repeat split. exists x, y. repeat split; assumption.
  - destruct g, args as [|a [|b [|]]]; simpl in H;
      try (inversion H; exact I).
    + destruct (subscript_error _ _ _ H) as [-> | ->]; [exact I|tauto].
    + destruct (subscript_error _ _ _ H) as [-> | ->]; [exact I|tauto].
Qed.

Lemma call_error_kind :
  forall proc args e, call proc args = Raise e -> call_error e = true.
Proof.
  intros proc args e H. apply call_raises in H.
  destruct e; try contradiction; reflexivity.
Qed.

Lemma eval_args_error :
  forall args,
    Forall (fun x => forall env e env',
                lisp_eval x env = (Raise e, env') -> eval_error e = true)
      args ->
    forall env e env',
      eval_args args env = (Raise e, env') -> eval_error e = true.
Proof.
  induction args as [|arg args IH]; intros H env e env' He;
    [discriminate|].
  inversion H as [|? ? Ha Hl]; subst. cbn [eval_args] in He.
  destruct (lisp_eval arg env) as [[v|e1] env1] eqn:E1.
  - destruct (eval_args args env1) as [[vs|e2] env2] eqn:E2;
      [discriminate|].
    inversion He; subst. exact (IH Hl _ _ _ E2).
  - inversion He; subst. exact (Ha _ _ _ E1).
Qed.

(** The evaluator raises neither [SyntaxError] nor the
    [RecursionError] of the fuelled reader. *)
Lemma lisp_eval_error :
  forall x env e env',
    lisp_eval x env = (Raise e, env') -> eval_error e = true.
Proof.
  induction x as [n|f|s|l IH|b| |g|g] using obj_ind; intros env e env' H;
    try (simpl in H; inversion H; reflexivity).
  - simpl in H. destruct (dict_get env (Str s)); inversion H. reflexivity.
  - destruct l as [|head operands]; [inversion H; reflexivity|].
    inversion IH as [|? ? Hh Ho]; subst.
    destruct (lisp_eval_Lst head operands env)
      as [[-> E]|[[-> E]|[[-> E]|[_ [_ [_ E]]]]]]; rewrite E in H; clear E.
    + unfold special_form in H. simpl in H.
      destruct operands as [|r [|]]; inversion H; reflexivity.
    + unfold special_form in H. simpl in H.
      destruct operands as [|c [|a [|b [|]]]];
        try (inversion H; reflexivity).
      inversion Ho as [|? ? Hc Ho1]; subst.
      inversion Ho1 as [|? ? Ha Ho2]; subst.
      inversion Ho2 as [|? ? Hb _]; subst.
      destruct (lisp_eval c env) as [[v|e1] env1] eqn:E1.
      * destruct (truthy v); [exact (Ha _ _ _ H)|exact (Hb _ _ _ H)].
      * inversion H; subst. exact (Hc _ _ _ E1).
    + unfold special_form in H. simpl in H.
      destruct operands as [|symbol [|exp [|]]];
        try (inversion H; reflexivity).
      inversion Ho as [|? ? _ Ho1]; subst.
      inversion Ho1 as [|? ? He _]; subst.
      destruct (lisp_eval exp env) as [[v|e1] env1] eqn:E1.
      * destruct (dict_set env1 symbol v); inversion H. reflexivity.
      * inversion H; subst. exact (He _ _ _ E1).
    + unfold application in H.
      destruct (lisp_eval head env) as [[proc|e1] env1] eqn:E1.
      * destruct (eval_args operands env1) as [[vs|e2] env2] eqn:E2.
        -- inversion H as [[Hc He]].
           apply call_error_kind in Hc. destruct e; try discriminate;
             reflexivity.
        -- inversion H; subst. exact (eval_args_error _ Ho _ _ _ E2).
      * inversion H; subst. exact (Hh _ _ _ E1).
Qed.

(** X18. Which primitive can raise what.  A call of a procedure of
    [standard_env] raises nothing but [TypeError], [ZeroDivisionError],
    [OverflowError] and [IndexError]; [ZeroDivisionError] comes from [/]
    alone, on two numbers of which the second is zero; [OverflowError]
    from the four arithmetic operators alone; [IndexError] from [car]
    and [cdr] alone.  The comparisons, [eq], [cons] and [atom] raise
    nothing but [TypeError]. *)
Theorem X18_exceptions_of_the_primitives :
  forall proc args e,
    call proc args = Raise e ->
    match e with
    | TypeError => True
    | ZeroDivisionError =>
        exists a b, proc = Builtin op_truediv /\ args = [a; b]
                    /\ exists x y, as_number a = Some x
                                   /\ as_number b = Some y
                                   /\ zero_number y = true
    | OverflowError =>
        proc = Builtin op_add \/ proc = Builtin op_sub
        \/ proc = Builtin op_mul \/ proc = Builtin op_truediv
    | IndexError => proc = Lambda lambda_car \/ proc = Lambda lambda_cdr
    | _ => False
    end.
Proof. exact call_raises. Qed.

(** [(car (quote ()))] *)
Lemma X18_witness :
  Lambda lambda_car = Lambda lambda_car
  \/ Lambda lambda_car = Lambda lambda_cdr.
Proof.
  apply (X18_exceptions_of_the_primitives (Lambda lambda_car) [Lst []]
           IndexError).
  reflexivity.
Defined.

(** X15. The evaluator raises [KeyError], [TypeError], [ValueError],
    [IndexError], [ZeroDivisionError] or [OverflowError] and nothing
    else: never a [SyntaxError], which the loop of [repl] reports as a
    syntax error, and never the [RecursionError] of the model. *)
Theorem X15_exceptions_of_the_evaluator :
  forall x env e env',
    lisp_eval x env = (Raise e, env') ->
    (exists key, e = KeyError key) \/ e = TypeError \/ e = ValueError
    \/ e = IndexError \/ e = ZeroDivisionError \/ e = OverflowError.
Proof.
  intros x env e env' H. apply lisp_eval_error in H.
  destruct e; try discriminate; eauto 7.
Qed.

(** The unbound symbol [x]. *)
Lemma X15_witness :
  (exists key, KeyError "x" = KeyError key) \/ KeyError "x" = TypeError
  \/ KeyError "x" = ValueError \/ KeyError "x" = IndexError
  \/ KeyError "x" = ZeroDivisionError \/ KeyError "x" = OverflowError.
Proof.
  apply (X15_exceptions_of_the_evaluator (Str "x") standard_env
           (KeyError "x") standard_env).
  reflexivity.
Defined.

(** ** The primitives *)

Lemma call_arity :
  forall proc args n,
    arity proc = Some n -> List.length args <> n ->
    call proc args = Raise TypeError.
Proof.
  intros proc args n Ha Hn.
  destruct proc as [ | | | | | |g|g]; try discriminate; simpl in *.
  - inversion Ha; subst.
    destruct args as [|a [|b [|c args]]]; try reflexivity.
    simpl in Hn. lia.
  - destruct g; inversion Ha; subst;
      destruct args as [|a [|b [|c args]]]; try reflexivity;
        simpl in Hn; lia.
Qed.

Lemma call_not_callable :
  forall proc args, arity proc = None -> call proc args = Raise TypeError.
Proof.
  intros proc args H. destruct proc as [ | | | | | |g|g]; try reflexivity.
  - discriminate.
  - destruct g; discriminate.
Qed.

(** *** Comparisons read from right to left *)

Lemma xreal_compare_mirror :
  forall p q,
    xreal_compare q p = option_map CompOpp (xreal_compare p q).
Proof.
  intros [|s|p] [|t|q]; simpl; try reflexivity.
  - destruct s, t; reflexivity.
  - destruct s; reflexivity.
  - destruct t; reflexivity.
  - rewrite Qcompare_antisym. reflexivity.
Qed.

Lemma cmp_holds_mirror :
  forall op c,
    cmp_holds (mirrored op) (option_map CompOpp c) = cmp_holds op c.
Proof. intros [] [[]|]; reflexivity. Qed.

Lemma numbers_eq_sym :
  forall p q : option xreal,
    match p, q with
    | Some p, Some q =>
        match xreal_compare p q with Some Eq => true | _ => false end
    | _, _ => false
    end
    = match q, p with
      | Some p, Some q =>
          match xreal_compare p q with Some Eq => true | _ => false end
      | _, _ => false
      end.
Proof.
  intros [p|] [q|]; try reflexivity.
  rewrite (xreal_compare_mirror p q).
  destruct (xreal_compare p q) as [[]|]; reflexivity.
Qed.

Lemma py_eq_sym : forall a b, py_eq a b = py_eq b a.
Proof.
  induction a as [n|f|s|l IH|x| |g|g] using obj_ind; intros b;
    destruct b as [n2|f2|s2|l2|x2| |g2|g2];
    try reflexivity;
    try (match goal with
         | |- py_eq ?a ?b = _ =>
             exact (numbers_eq_sym (xreal_of a) (xreal_of b))
         end).
  - simpl. apply String.eqb_sym.
  - cbn [py_eq]. revert l2.
    induction IH as [|x l Hx _ IHl]; intros l2.
    + destruct l2; reflexivity.
    + destruct l2 as [|y l2]; [reflexivity|].
      rewrite (Hx y), (IHl l2). reflexivity.
  - destruct g, g2; reflexivity.
  - destruct g, g2; reflexivity.
Qed.

Lemma py_richcmp_mirror :
  forall a op b, py_richcmp (mirrored op) b a = py_richcmp op a b.
Proof.
  assert (N : forall op a b,
             match xreal_of b, xreal_of a with
             | Some p, Some q =>
                 Return (Bool (cmp_holds (mirrored op) (xreal_compare p q)))
             | _, _ => Raise TypeError
             end
             = match xreal_of a, xreal_of b with
               | Some p, Some q =>
                   Return (Bool (cmp_holds op (xreal_compare p q)))
               | _, _ => Raise TypeError
               end).
  { intros op a b. destruct (xreal_of a) as [p|], (xreal_of b) as [q|];
      try reflexivity.
    rewrite (xreal_compare_mirror p q), cmp_holds_mirror. reflexivity. }
  induction a as [n|f|s|l IH|x| |g|g] using obj_ind; intros op b;
    destruct b as [n2|f2|s2|l2|x2| |g2|g2];
    try reflexivity;
    try (match goal with
         | |- _ = py_richcmp _ ?a ?b => exact (N op a b)
         end).
  - cbn [py_richcmp]. rewrite (String.compare_antisym s2 s).
    change (Some (CompOpp (s ?= s2)%string))
      with (option_map CompOpp (Some (s ?= s2)%string)).
    rewrite cmp_holds_mirror. reflexivity.
  - cbn [py_richcmp]. revert l2.
    induction IH as [|x l Hx _ IHl]; intros l2.
    + destruct l2; destruct op; reflexivity.
    + destruct l2 as [|y l2]; [destruct op; reflexivity|].
      rewrite (py_eq_sym y x). destruct (py_eq x y);
        [apply IHl|apply Hx].
Qed.

(** *** Order on numbers *)





(** X17. A procedure of [standard_env] called with another number of
    arguments than it has parameters (two for the operators and [cons],
    one for [car], [cdr] and [atom]) raises [TypeError], whatever the
    arguments are; so does the call of an object that is no
    procedure. *)
Theorem X17_wrong_number_of_arguments :
  forall proc args,
    match arity proc with
    | Some n => List.length args <> n -> call proc args = Raise TypeError
    | None => call proc args = Raise TypeError
    end.
Proof.
  intros proc args. destruct (arity proc) as [n|] eqn:E.
  - apply call_arity. exact E.
  - apply call_not_callable. exact E.
Qed.

(** [(+ 1 2 3)] *)
Lemma X17_witness :
  call (Builtin op_add) [Int 1; Int 2; Int 3] = Raise TypeError.
Proof.
  apply (X17_wrong_number_of_arguments (Builtin op_add)
           [Int 1; Int 2; Int 3]).
  discriminate.
Defined.

(** X19. The comparisons read from right to left: [(< a b)] is
    [(> b a)] and [(<= a b)] is [(>= b a)], with the same value or the
    same exception, and [(eq a b)] is [(eq b a)], on all objects. *)
Theorem X19_comparisons_mirrored :
  forall a b,
    call (Builtin op_lt) [a; b] = call (Builtin op_gt) [b; a]
    /\ call (Builtin op_le) [a; b] = call (Builtin op_ge) [b; a]
    /\ call (Builtin op_eq) [a; b] = call (Builtin op_eq) [b; a].
Proof.
  intros a b. cbn [call call_builtin]. repeat split.
  - symmetry. exact (py_richcmp_mirror a CmpLt b).
  - symmetry. exact (py_richcmp_mirror a CmpLe b).
  - rewrite (py_eq_sym a b). reflexivity.
Qed.



(** ** The floats that rounding gives *)

Section FloatFormat.
Local Open Scope Q_scope.

Lemma bounded_of_cases :
  forall m e,
    (-1074 <= e <= 971)%Z ->
    ((2 ^ 52 <= Zpos m < 2 ^ 53)%Z \/ (e = -1074 /\ Zpos m < 2 ^ 52)%Z) ->
    bounded PyNum.prec PyNum.emax m e = true.
Proof.
  intros m e He Hm. unfold bounded, canonical_mantissa.
  apply andb_true_iff.
  split; [|apply Z.leb_le; unfold PyNum.emax, PyNum.prec; lia].
  apply Z.eqb_eq. unfold fexp, emin, PyNum.prec, PyNum.emax.
  pose proof (digits2_pos_bounds m) as [D1 D2].
  set (d := Zpos (digits2_pos m)) in *.
  assert (Hd : (1 <= d)%Z) by (unfold d; lia).
  destruct Hm as [[M1 M2]|[-> M]].
  - assert (d = 53)%Z; [|lia].
    destruct (Z_lt_le_dec d 53) as [L|L].
    + exfalso. assert (2 ^ d <= 2 ^ 52)%Z by (apply Z.pow_le_mono_r; lia).
      lia.
    + destruct (Z_lt_le_dec 53 d) as [G|G]; [|lia].
      exfalso. assert (2 ^ 53 <= 2 ^ (d - 1))%Z
        by (apply Z.pow_le_mono_r; lia).
      lia.
  - assert (d <= 52)%Z; [|lia].
    destruct (Z_lt_le_dec 52 d) as [G|G]; [|lia].
    exfalso. assert (2 ^ 52 <= 2 ^ (d - 1))%Z
      by (apply Z.pow_le_mono_r; lia).
    lia.
Qed.

Lemma round_half_even_ceil :
  forall x : Q, (PyNum.round_half_even x <= Qfloor x + 1)%Z.
Proof.
  intros x. unfold PyNum.round_half_even.
  destruct (x - inject_Z (Qfloor x) ?= 1 # 2);
    [destruct (Z.even (Qfloor x))| |]; lia.
Qed.

Lemma round_half_even_bounds :
  forall (x : Q) (a b : Z),
    inject_Z a <= x -> x < inject_Z b ->
    (a <= PyNum.round_half_even x <= b)%Z.
Proof.
  intros x a b Ha Hb.
  pose proof (round_half_even_floor x) as F1.
  pose proof (round_half_even_ceil x) as F2.
  assert (a <= Qfloor x)%Z.
  { rewrite <- (Qfloor_Z a). apply Qfloor_resp_le. exact Ha. }
  assert (Qfloor x < b)%Z.
  { rewrite Zlt_Qlt. apply Qle_lt_trans with x; [apply Qfloor_le|exact Hb]. }
  lia.
Qed.

(** The nearest float is a float of the format. *)
Lemma nearest_float_valid :
  forall neg v,
    valid_binary PyNum.prec PyNum.emax (PyNum.nearest_float neg v) = true.
Proof.
  intros neg v. unfold PyNum.nearest_float.
  destruct (Qle_bool v 0) eqn:E; [reflexivity|].
  assert (Hv : 0 < v).
  { apply Qnot_le_lt. intros H. apply Qle_bool_iff in H. congruence. }
  destruct (magnitude_spec v Hv) as [M1 M2].
  set (k := PyNum.magnitude v) in *.
  set (e := Z.max (k - PyNum.prec) (-1074)).
  set (x := v * 2 ^ (- e)).
  pose proof (pow2_pos (- e)) as Pe.
  assert (He : (-1074 <= e)%Z) by (unfold e; lia).
  assert (Hx : ((e = k - 53)%Z /\ inject_Z (2 ^ 52) <= x
               /\ x < inject_Z (2 ^ 53))
               \/ (e = (-1074)%Z /\ 0 <= x /\ x < inject_Z (2 ^ 52))).
  { destruct (Z_le_gt_dec (-1074) (k - 53)) as [L|G].
    - left. assert (Ee : e = (k - 53)%Z) by (unfold e, PyNum.prec; lia).
      split; [exact Ee|]. unfold x. rewrite Ee.
      rewrite !pow2_inject by lia. split.
      + replace 52%Z with ((k - 1) + - (k - 53))%Z by lia.
        rewrite pow2_add. apply Qmult_le_compat_r; [exact M1|].
        apply Qlt_le_weak, pow2_pos.
      + replace 53%Z with (k + - (k - 53))%Z at 2 by lia.
        rewrite pow2_add. apply Qmult_lt_compat_r; [apply pow2_pos|exact M2].
    - right. assert (Ee : e = (-1074)%Z) by (unfold e, PyNum.prec; lia).
      split; [exact Ee|]. unfold x. rewrite Ee. split.
      + apply Qmult_le_0_compat; [lra|apply Qlt_le_weak, pow2_pos].
      + rewrite pow2_inject by lia.
        apply Qlt_le_trans with (2 ^ k * 2 ^ (- -1074)).
        * apply Qmult_lt_compat_r; [apply pow2_pos|exact M2].
        * rewrite <- pow2_add. apply pow2_le. lia. }
  set (m := PyNum.round_half_even x).
  assert (Hm : (e = k - 53 /\ 2 ^ 52 <= m <= 2 ^ 53)%Z
               \/ (e = (-1074)%Z /\ 0 <= m <= 2 ^ 52)%Z).
  { destruct Hx as [[Ee [X1 X2]]|[Ee [X1 X2]]]; [left|right];
      (split; [exact Ee|]); apply round_half_even_bounds; assumption. }
  destruct (Z.eqb_spec m (2 ^ PyNum.prec)) as [Em|Nm].
  - change (2 ^ (PyNum.prec - 1))%Z with (Zpos (2 ^ 52)). cbv iota beta.
    destruct (Z.leb_spec (e + 1) (PyNum.emax - PyNum.prec)) as [L|G];
      [|reflexivity].
    cbn [valid_binary]. apply bounded_of_cases.
    + unfold PyNum.emax, PyNum.prec in L. lia.
    + left. simpl. lia.
  - unfold PyNum.prec in Nm.
    destruct m as [|p|p] eqn:Ep; try reflexivity.
    destruct (Z.leb_spec e (PyNum.emax - PyNum.prec)) as [L|G];
      [|reflexivity].
    cbn [valid_binary]. apply bounded_of_cases.
    + unfold PyNum.emax, PyNum.prec in L. lia.
    + destruct Hm as [[_ Hm]|[Ee Hm]].
      * left. lia.
      * destruct (Z.eq_dec (Zpos p) (2 ^ 52)) as [Q|Q].
        -- left. rewrite Q. simpl. lia.
        -- right. split; [exact Ee|lia].
Qed.

Lemma py_float_valid :
  forall s f,
    PyNum.py_float s = Some f ->
    valid_binary PyNum.prec PyNum.emax f = true.
Proof.
  intros s f H. unfold PyNum.py_float in H.
  destruct (negb (PyNum.underscores_ok zero (PyStr.strip PyNum.blank s)));
    [discriminate|].
  destruct (PyNum.signed
              (PyNum.remove_underscores (PyStr.strip PyNum.blank s)))
    as [neg body].
  destruct (String.eqb (PyStr.lowercase body) "inf"
            || String.eqb (PyStr.lowercase body) "infinity").
  { inversion H. reflexivity. }
  destruct (String.eqb (PyStr.lowercase body) "nan").
  { inversion H. reflexivity. }
  destruct (PyNum.decimal_of_string body) as [[m x]|]; [|discriminate].
  inversion H. apply nearest_float_valid.
Qed.

(** *** Exact quotients *)

(** A positive integer below [2^53] is a float. *)
Lemma nearest_float_integer :
  forall neg v n,
    v == inject_Z (Zpos n) -> (Zpos n < 2 ^ 53)%Z ->
    exists m e,
      PyNum.nearest_float neg v = S754_finite neg m e
      /\ PyNum.float_value m e == v.
Proof.
  intros neg v n Hv Hn.
  set (k := (Z.log2 (Zpos n) + 1)%Z).
  destruct (Z.log2_spec (Zpos n) ltac:(lia)) as [L1 L2].
  pose proof (Z.log2_nonneg (Zpos n)) as L0.
  assert (Hk : (1 <= k <= 53)%Z).
  { unfold k. split; [lia|].
    assert (Z.log2 (Zpos n) < 53)%Z; [|lia].
    apply Z.log2_lt_pow2; lia. }
  assert (Hpos : 0 < v).
  { rewrite Hv. change 0 with (inject_Z 0). rewrite <- Zlt_Qlt. lia. }
  assert (Hmag : PyNum.magnitude v = k).
  { apply magnitude_unique; rewrite Hv.
    - unfold k. replace (Z.log2 (Zpos n) + 1 - 1)%Z with (Z.log2 (Zpos n))
        by lia.
      rewrite <- pow2_inject by lia. rewrite <- Zle_Qle. exact L1.
    - rewrite <- pow2_inject by lia. rewrite <- Zlt_Qlt. unfold k.
      replace (Z.log2 (Zpos n) + 1)%Z with (Z.succ (Z.log2 (Zpos n)))
        by lia.
      exact L2. }
  set (e := (k - 53)%Z).
  set (M := (Zpos n * 2 ^ (53 - k))%Z).
  assert (HM : (2 ^ 52 <= M < 2 ^ 53)%Z).
  { unfold M.
    assert (P1 : (2 ^ 52 = 2 ^ (k - 1) * 2 ^ (53 - k))%Z).
    { rewrite <- Z.pow_add_r by lia. f_equal. lia. }
    assert (P2 : (2 ^ 53 = 2 ^ k * 2 ^ (53 - k))%Z).
    { rewrite <- Z.pow_add_r by lia. f_equal. lia. }
    assert (P3 : (0 < 2 ^ (53 - k))%Z) by (apply Z.pow_pos_nonneg; lia).
    assert (A1 : (2 ^ (k - 1) <= Zpos n)%Z).
    { unfold k. replace (Z.log2 (Zpos n) + 1 - 1)%Z
        with (Z.log2 (Zpos n)) by lia. exact L1. }
    assert (A2 : (Zpos n < 2 ^ k)%Z).
    { unfold k. replace (Z.log2 (Zpos n) + 1)%Z
        with (Z.succ (Z.log2 (Zpos n))) by lia. exact L2. }
    rewrite P1, P2. split.
    - apply Z.mul_le_mono_nonneg_r; lia.
    - apply Z.mul_lt_mono_pos_r; lia. }
  assert (Hx : v * 2 ^ (- e) == inject_Z M).
  { unfold M, e. rewrite inject_Z_mult, pow2_inject by lia. rewrite Hv.
    replace (- (k - 53))%Z with (53 - k)%Z by lia. reflexivity. }
  destruct M as [|m|m] eqn:EM; try lia.
  exists m, e. split.
  - apply nearest_float_at; [exact Hpos| | | |].
    + rewrite Hmag. unfold e, PyNum.prec. lia.
    + apply round_half_even_near; rewrite Hx; [lra|lra|right; lra].
    + unfold PyNum.prec. lia.
    + unfold e, PyNum.emax, PyNum.prec. lia.
  - unfold PyNum.float_value. rewrite <- Hx. apply units_back.
Qed.

(** The quotient of two integers that is an integer below [2^53] in
    absolute value is the float equal to it. *)
Lemma int_true_divide_exact :
  forall a b q,
    b <> 0%Z -> a = (q * b)%Z -> (Z.abs q < 2 ^ 53)%Z ->
    exists f,
      int_true_divide a b = Return (Float f)
      /\ py_eq (Float f) (Int q) = true.
Proof.
  intros a b q Hb Ha Hq. unfold int_true_divide.
  destruct (Z.eqb_spec b 0) as [E|_]; [contradiction|].
  set (neg := xorb (a <? 0)%Z (b <? 0)%Z).
  set (v := inject_Z (Z.abs a) / inject_Z (Z.abs b)).
  assert (Hv : v == inject_Z (Z.abs q)).
  { unfold v. rewrite Ha, Z.abs_mul, inject_Z_mult.
    field. change 0 with (inject_Z 0). rewrite inject_Z_injective. lia. }
  destruct (Z.eq_dec q 0) as [Q0|Q0].
  - subst q. unfold PyNum.nearest_float.
    assert (L : Qle_bool v 0 = true)
      by (apply Qle_bool_iff; rewrite Hv; apply Qle_refl).
    rewrite L. exists (S754_zero neg). split; reflexivity.
  - assert (Hn : exists n, Z.abs q = Zpos n)
      by (destruct q; [contradiction|eexists; reflexivity
                      |eexists; reflexivity]).
    destruct Hn as [n Hn]. rewrite Hn in Hv, Hq.
    destruct (nearest_float_integer neg v n Hv Hq) as [m [e [-> Hf]]].
    exists (S754_finite neg m e). split; [reflexivity|].
    cbn [py_eq xreal_of xreal_of_float xreal_compare].
    assert (Hs : neg = (q <? 0)%Z).
    { unfold neg. subst a. destruct q, b; try contradiction; reflexivity. }
    assert (Hval : (if neg then - PyNum.float_value m e
                    else PyNum.float_value m e) == inject_Z q).
    { rewrite Hs. destruct q as [|p|p]; [contradiction| |].
      - simpl in Hn. inversion Hn; subst.
        change (Zpos n <? 0)%Z with false. cbv iota.
        rewrite Hf, Hv. reflexivity.
      - simpl in Hn. inversion Hn; subst.
        change (Zneg n <? 0)%Z with true. cbv iota.
        rewrite Hf, Hv. reflexivity. }
    apply Qeq_alt in Hval. rewrite Hval. reflexivity.
Qed.
End FloatFormat.

(** X21. [/] on two [int]s always gives a [float]: when the divisor is
    not zero and the quotient is an integer below [2^53] in absolute
    value, the [float] is equal to that integer. *)
Theorem X21_exact_quotient :
  forall a b q,
    b <> 0 -> a = q * b -> Z.abs q < 2 ^ 53 ->
    exists f,
      call (Builtin op_truediv) [Int a; Int b] = Return (Float f)
      /\ call (Builtin op_eq) [Float f; Int q] = Return (Bool true).
Proof.
  intros a b q Hb Ha Hq.
  destruct (int_true_divide_exact a b q Hb Ha Hq) as [f [H1 H2]].
  exists f. split; [exact H1|].
  cbn [call call_builtin]. rewrite H2. reflexivity.
Qed.

(** [(/ 6 3)] is [2.0]. *)
Lemma X21_witness :
  exists f,
    call (Builtin op_truediv) [Int 6; Int 3] = Return (Float f)
    /\ call (Builtin op_eq) [Float f; Int 2] = Return (Bool true).
Proof.
  apply (X21_exact_quotient 6 3 2); [discriminate|reflexivity|reflexivity].
Defined.

(** ** What the reader gives *)

Lemma lexeme_cases :
  forall token,
    lexeme token = true ->
    String.eqb token "(" = false -> String.eqb token ")" = false ->
    is_token token = true.
Proof.
  intros token H H1 H2. unfold lexeme in H. rewrite H1, H2 in H. exact H.
Qed.

Lemma atom_parsed :
  forall token, is_token token = true -> parsed (atom token) = true.
Proof.
  intros token H. unfold atom.
  destruct (PyNum.py_int token) eqn:Ei; [reflexivity|].
  destruct (PyNum.py_float token) eqn:Ef.
  - exact (py_float_valid _ _ Ef).
  - simpl. rewrite H, Ei, Ef. reflexivity.
Qed.

Lemma read_fuel_parsed :
  forall fuel,
    (forall tokens x rest,
        Forall (fun t => lexeme t = true) tokens ->
        read_fuel fuel tokens = Some (Return x, rest) ->
        parsed x = true /\ Forall (fun t => lexeme t = true) rest)
    /\ (forall form tokens x rest,
           Forall (fun t => lexeme t = true) tokens ->
           forallb parsed form = true ->
           read_form fuel form tokens = Some (Return x, rest) ->
           parsed x = true /\ Forall (fun t => lexeme t = true) rest).
Proof.
  induction fuel as [|fuel [IHr IHf]]; split; intros; try discriminate.
  - destruct tokens as [|token tokens']; [discriminate|].
    inversion H as [|? ? Ht Hts]; subst. cbn [read_fuel] in H0.
    destruct (String.eqb token "(") eqn:E1.
    + apply (IHf [] tokens'); [exact Hts|reflexivity|exact H0].
    + destruct (String.eqb token ")") eqn:E2; [discriminate|].
      inversion H0; subst. split; [|exact Hts].
      apply atom_parsed, lexeme_cases; assumption.
  - destruct tokens as [|token tokens']; [discriminate|].
    cbn [read_form] in H1.
    destruct (negb (String.eqb token ")")).
    + destruct (read_fuel fuel (token :: tokens')) as [[[y|e] r]|] eqn:E;
        try discriminate.
      destruct (IHr _ _ _ H E) as [Py Pr].
      apply (IHf (form ++ [y])%list r); [exact Pr| |exact H1].
      rewrite forallb_app, H0. simpl. rewrite Py. reflexivity.
    + inversion H as [|? ? Ht Hts]; subst.
      inversion H1; subst. split; [exact H0|exact Hts].
Qed.

Lemma parse_parsed :
  forall s t, parse s = Return t -> parsed t = true.
Proof.
  intros s t H. unfold parse in H.
  pose proof (read_from_tokens_total (tokenize s)) as T.
  destruct (read_from_tokens (tokenize s)) as [r rest]. simpl in H. subst r.
  exact (proj1 (proj1 (read_fuel_parsed _) _ _ _ (tokenize_lexemes s) T)).
Qed.

(** ** Printing and reading what the reader gives *)

(** The printed form of an atom of the reader is one token, and [atom]
    maps it to the atom. *)
Lemma parsed_atom :
  forall address a,
    isinstance_List a = false ->
    parsed a = true ->
    is_token (lisp_str address a) = true
    /\ atom (lisp_str address a) = a.
Proof.
  intros address a Hl H.
  destruct a as [n|f|s|l|b| |g|g]; try discriminate;
    try (apply reads_back_atom; [exact Hl|exact H]).
  destruct f as [z|z| |z m e].
  - apply reads_back_atom; [exact Hl|reflexivity].
  - apply reads_back_atom; [exact Hl|reflexivity].
  - split; reflexivity.
  - apply reads_back_atom; [exact Hl|].
    simpl in H. simpl. unfold float_number. cbn [valid_binary].
    rewrite H. reflexivity.
Qed.

Lemma parsed_atom_lexeme :
  forall address a,
    isinstance_List a = false -> parsed a = true ->
    lexeme (lisp_str address a) = true.
Proof.
  intros address a Hl H. apply is_token_lexeme.
  apply (parsed_atom address a Hl H).
Qed.

Lemma scan_join_terms :
  forall address l,
    Forall (fun t => scan "" (lisp_str address t) = tokens_of address t) l ->
    scan "" (PyStr.join " " (map (lisp_str address) l))
    = flat_map (tokens_of address) l.
Proof.
  intros address l H. induction H as [|x l Hx _ IH]; [reflexivity|].
  destruct l as [|y l].
  - cbn [map PyStr.join flat_map]. rewrite List.app_nil_r. exact Hx.
  - change (PyStr.join " " (map (lisp_str address) (x :: y :: l)))
      with (lisp_str address x
            ++ String " " (PyStr.join " " (map (lisp_str address) (y :: l)))).
    rewrite scan_app by reflexivity. rewrite Hx.
    cbn [flat_map] in *. rewrite <- IH. reflexivity.
Qed.

Lemma tokenize_parsed :
  forall address t,
    parsed t = true -> tokenize (lisp_str address t) = tokens_of address t.
Proof.
  intros address t H. rewrite tokenize_scan. revert H.
  induction t as [n|f|s|l IH|b| |g|g] using obj_ind; intros H;
    try (rewrite tokens_of_atom by reflexivity;
         apply scan_lexeme, parsed_atom_lexeme; [reflexivity|exact H]).
  rewrite lisp_str_Lst. cbn [tokens_of].
  change ("(" ++ PyStr.join " " (map (lisp_str address) l) ++ ")")
    with (String "(" (PyStr.join " " (map (lisp_str address) l) ++ ")")).
  cbn [scan]. change (PyStr.isspace "(") with false. cbv iota.
  cbn [Ascii.eqb Bool.eqb orb flush]. f_equal.
  rewrite scan_app by reflexivity. f_equal.
  apply scan_join_terms.
  cbn [parsed] in H. rewrite forallb_forall in H.
  rewrite Forall_forall in IH |- *. intros x Hx. apply IH; [exact Hx|].
  apply H. exact Hx.
Qed.

(** The first token of a printed term does not close a list. *)
Lemma tokens_of_parsed_head :
  forall address t,
    parsed t = true ->
    exists token more,
      tokens_of address t = token :: more /\ String.eqb token ")" = false.
Proof.
  intros address t H.
  destruct (isinstance_List t) eqn:Hl.
  - destruct t; try discriminate. cbn [tokens_of]. eauto.
  - rewrite tokens_of_atom by exact Hl.
    exists (lisp_str address t), []. split; [reflexivity|].
    apply is_token_not_paren. apply (parsed_atom address t Hl H).
Qed.

Lemma read_form_parsed :
  forall address l,
    Forall (fun t => parsed t = true ->
                     forall rest,
                     exists fuel,
                       read_fuel fuel (tokens_of address t ++ rest)%list
                       = Some (Return t, rest)) l ->
    forallb parsed l = true ->
    forall form rest,
    exists fuel,
      read_form fuel form (flat_map (tokens_of address) l ++ ")" :: rest)%list
      = Some (Return (Lst (form ++ l)%list), rest).
Proof.
  intros address l HP. induction HP as [|x l Hx HP IH]; intros Hr form rest.
  - exists 1%nat. cbn. rewrite List.app_nil_r. reflexivity.
  - cbn [forallb] in Hr. apply andb_true_iff in Hr as [Hrx Hrl].
    cbn [flat_map]. rewrite <- List.app_assoc.
    set (R := (flat_map (tokens_of address) l ++ ")" :: rest)%list).
    destruct (Hx Hrx R) as [f1 E1].
    destruct (IH Hrl (form ++ [x])%list rest) as [f2 E2]. fold R in E2.
    rewrite <- List.app_assoc in E2. cbn [app] in E2.
    exists (S (Nat.max f1 f2)).
    apply (read_fuel_mono _ (Nat.max f1 f2)) in E1; [|lia].
    apply (read_form_mono _ (Nat.max f1 f2)) in E2; [|lia].
    destruct (tokens_of_parsed_head address x Hrx)
      as [token [more [Htok Hneq]]].
    rewrite Htok in *. cbn [app read_form] in *.
    rewrite Hneq. cbn [negb]. rewrite E1. exact E2.
Qed.

Lemma read_fuel_parsed_term :
  forall address t,
    parsed t = true ->
    forall rest,
    exists fuel,
      read_fuel fuel (tokens_of address t ++ rest)%list = Some (Return t, rest).
Proof.
  intros address.
  induction t as [n|f|s|l IH|b| |g|g] using obj_ind; intros Hr rest;
    try (exists 1%nat; rewrite tokens_of_atom by reflexivity;
         match goal with
         | |- read_fuel 1 ([lisp_str address ?a] ++ rest)%list = _ =>
             destruct (parsed_atom address a eq_refl Hr) as [Ht Ha];
             destruct (is_token_not_paren _ Ht) as [H1 H2];
             cbn [app read_fuel]; rewrite H1, H2, Ha; reflexivity
         end).
  cbn [parsed] in Hr.
  destruct (read_form_parsed address l IH Hr [] rest) as [fuel E].
  exists (S fuel). cbn [tokens_of app read_fuel String.eqb Ascii.eqb].
  rewrite <- List.app_assoc. exact E.
Qed.

Lemma read_from_tokens_parsed :
  forall address t rest,
    parsed t = true ->
    read_from_tokens (tokens_of address t ++ rest)%list = (Return t, rest).
Proof.
  intros address t rest H.
  destruct (read_fuel_parsed_term address t H rest) as [fuel E].
  exact (read_from_tokens_fuel _ _ _ E).
Qed.

(** Reading the printed form of a term of the reader gives the term. *)
Lemma parse_lisp_str_parsed :
  forall address t,
    parsed t = true -> parse (lisp_str address t) = Return t.
Proof.
  intros address t H. unfold parse.
  rewrite (tokenize_parsed address t H).
  rewrite <- (List.app_nil_r (tokens_of address t)).
  rewrite (read_from_tokens_parsed address t [] H). reflexivity.
Qed.


(** X7. [parse] returns a term made of lists, of [int]s, of [float]s
    of the binary64 format and of symbols that are tokens which read
    neither as an [int] nor as a [float], and nothing else (no boolean,
    no [None], no procedure); when it fails, it is with the
    [SyntaxError] "unexpected EOF", the [SyntaxError] "unexpected )" or
    [IndexError]. *)
Theorem X7_what_parse_gives :
  forall input_program,
    match parse input_program with
    | Return t => parsed t = true
    | Raise e =>
        e = unexpected_EOF \/ e = SyntaxError "unexpected )"
        \/ e = IndexError
    end.
Proof.
  intros s. destruct (parse s) as [t|e] eqn:P.
  - exact (parse_parsed s t P).
  - unfold parse in P. apply read_from_tokens_error in P.
    destruct (tokenize s) as [|token tokens]; [left; exact P|].
    destruct P as [[_ ->]|[_ [-> _]]]; tauto.
Qed.


(** X9. Reading, printing and reading again gives what the first
    reading gave: the printed form of a term of the reader is read as
    that term. *)
Theorem X9_read_print_read :
  forall address input_program t,
    parse input_program = Return t ->
    parse (lisp_str address t) = Return t.
Proof.
  intros address s t H. apply parse_lisp_str_parsed.
  exact (parse_parsed s t H).
Qed.

(** The text [( +  1e2 (quote  nan) )]. *)
Lemma X9_witness :
  parse
    (lisp_str (fun _ => "0")
       (Lst [Str "+"; Float (S754_finite false 7036874417766400 (-46));
             Lst [Str "quote"; Float S754_nan]]))
  = Return
      (Lst [Str "+"; Float (S754_finite false 7036874417766400 (-46));
            Lst [Str "quote"; Float S754_nan]]).
Proof.
  apply (X9_read_print_read (fun _ => "0") "( +  1e2 (quote  nan) )").
  vm_compute. reflexivity.
Defined.



(** X11. Two terms of the reader with the same printed form are the
    same term. *)
Theorem X11_printed_forms_differ :
  forall address t1 t2,
    parsed t1 = true -> parsed t2 = true ->
    lisp_str address t1 = lisp_str address t2 -> t1 = t2.
Proof.
  intros address t1 t2 H1 H2 E.
  pose proof (parse_lisp_str_parsed address t1 H1) as P1.
  pose proof (parse_lisp_str_parsed address t2 H2) as P2.
  rewrite E in P1. congruence.
Qed.

(** The term [(a (1))]. *)
Lemma X11_witness : Lst [Str "a"; Lst [Int 1]] = Lst [Str "a"; Lst [Int 1]].
Proof.
  apply (X11_printed_forms_differ (fun _ => "0")
           (Lst [Str "a"; Lst [Int 1]]) (Lst [Str "a"; Lst [Int 1]]));
    reflexivity.
Defined.



(** ** The read-eval-print loop *)

Lemma run_parse_error :
  forall text env e,
    parse text = Raise e -> run text env = (Raise e, env).
Proof. intros text env e H. unfold run. rewrite H. reflexivity. Qed.

Lemma parse_blank :
  forall text, blank_text text = true -> parse text = Raise unexpected_EOF.
Proof.
  intros text H. unfold parse. apply tokenize_nil in H. rewrite H.
  reflexivity.
Qed.

Lemma parse_close :
  forall text tokens,
    tokenize text = ")" :: tokens ->
    parse text = Raise (SyntaxError "unexpected )").
Proof.
  intros text tokens H. unfold parse.
  rewrite H, read_from_tokens_close. reflexivity.
Qed.

Lemma parse_unterminated :
  forall text tokens,
    tokenize text = "(" :: tokens -> after_close 0 tokens = None ->
    parse text = Raise IndexError.
Proof.
  intros text tokens H Hc. unfold parse. rewrite H.
  pose proof (read_from_tokens_open tokens) as O. rewrite Hc in O.
  rewrite O. reflexivity.
Qed.

Lemma parse_error :
  forall text e,
    parse text = Raise e ->
    e = unexpected_EOF \/ e = SyntaxError "unexpected )" \/ e = IndexError.
Proof.
  intros text e H. unfold parse in H.
  apply read_from_tokens_error in H.
  destruct (tokenize text) as [|token tokens]; [left; exact H|].
  destruct H as [[_ ->]|[_ [-> _]]]; tauto.
Qed.

(** One turn of the loop. *)
Lemma repl_loop_value :
  forall address prompt text events env val env',
    run text env = (Return val, env') ->
    repl_loop address prompt (Line text :: events) env
    = let '(out, env'', e) := repl_loop address prompt events env' in
      (Prompt prompt
       :: match repl_print address val with
          | Some line => Printed line :: out
          | None => out
          end,
       env'', e).
Proof.
  intros address prompt text events env val env' H.
  cbn [repl_loop]. rewrite H. reflexivity.
Qed.

Lemma repl_loop_caught :
  forall address prompt text events env e env',
    run text env = (Raise e, env') -> repl_catches e = true ->
    repl_loop address prompt (Line text :: events) env
    = let '(out, env'', e') := repl_loop address prompt events env' in
      (Prompt prompt :: Printed (repl_message e) :: out, env'', e').
Proof.
  intros address prompt text events env e env' H Hc.
  cbn [repl_loop]. rewrite H, Hc. reflexivity.
Qed.

Lemma repl_loop_uncaught :
  forall address prompt text events env e env',
    run text env = (Raise e, env') -> repl_catches e = false ->
    repl_loop address prompt (Line text :: events) env
    = ([Prompt prompt], env', Uncaught e).
Proof.
  intros address prompt text events env e env' H Hc.
  cbn [repl_loop]. rewrite H, Hc. reflexivity.
Qed.

(** The loop always writes something: at least the prompt. *)
Lemma repl_loop_output :
  forall address prompt events env,
    fst (fst (repl_loop address prompt events env)) <> [].
Proof.
  intros address prompt [|[text|] events] env; cbn [repl_loop];
    try discriminate.
  destruct (run text env) as [[val|e] env'].
  - destruct (repl_loop address prompt events env') as [[out env''] e'].
    discriminate.
  - destruct (repl_catches e); [|discriminate].
    destruct (repl_loop address prompt events env') as [[out env''] e'].
    discriminate.
Qed.

Lemma removelast_cons :
  forall (A : Type) (x : A) l,
    l <> [] -> removelast (x :: l) = x :: removelast l.
Proof. intros A x [|y l] H; [contradiction|reflexivity]. Qed.


(** The exceptions of one turn. *)
Lemma run_error :
  forall text env e env',
    run text env = (Raise e, env') ->
    repl_catches e = true \/ fatal e = true.
Proof.
  intros text env e env' H. unfold run in H.
  destruct (parse text) as [x|e0] eqn:P.
  - apply lisp_eval_error in H. destruct e; try discriminate; auto.
  - inversion H; subst.
    destruct (parse_error _ _ P) as [->|[->| ->]]; auto.
Qed.

Lemma repl_loop_ending :
  forall address prompt events env out env' e,
    repl_loop address prompt events env = (out, env', Uncaught e) ->
    fatal e = true.
Proof.
  intros address prompt events.
  induction events as [|[text|] events IH]; intros env out env' e H;
    try discriminate.
  cbn [repl_loop] in H.
  destruct (run text env) as [[val|e0] env0] eqn:R.
  - destruct (repl_loop address prompt events env0) as [[out1 env1] e1] eqn:L.
    inversion H; subst. exact (IH _ _ _ _ L).
  - destruct (repl_catches e0) eqn:C.
    + destruct (repl_loop address prompt events env0)
        as [[out1 env1] e1] eqn:L.
      inversion H; subst. exact (IH _ _ _ _ L).
    + inversion H; subst.
      destruct (run_error _ _ _ _ R) as [C'|F]; [congruence|exact F].
Qed.

Lemma run_keeps : forall text env, keeps env (snd (run text env)).
Proof.
  intros text env. unfold run.
  destruct (parse text); [apply lisp_eval_keeps|apply keeps_refl].
Qed.

Lemma repl_loop_keeps :
  forall address prompt events env,
    keeps env (snd (fst (repl_loop address prompt events env))).
Proof.
  intros address prompt events.
  induction events as [|[text|] events IH]; intros env;
    try apply keeps_refl.
  cbn [repl_loop]. pose proof (run_keeps text env) as K.
  destruct (run text env) as [[val|e] env0]; simpl in K.
  - specialize (IH env0).
    destruct (repl_loop address prompt events env0) as [[out1 env1] e1].
    exact (keeps_trans _ _ _ K IH).
  - destruct (repl_catches e); [|exact K].
    specialize (IH env0).
    destruct (repl_loop address prompt events env0) as [[out1 env1] e1].
    exact (keeps_trans _ _ _ K IH).
Qed.

(** *** The text of a [KeyError] *)

Lemma escape_plain :
  forall c, plain_char c = true -> PyRepr.escape "'" c = String c "".
Proof.
  intros c H. unfold plain_char in H.
  apply andb_true_iff in H as [H H3]. apply andb_true_iff in H as [H1 H2].
  apply negb_true_iff in H2, H3. unfold PyRepr.escape.
  rewrite H2, H3, H1. cbn [orb].
  destruct (Ascii.eqb_spec c (ascii_of_N 9)) as [->|_]; [discriminate|].
  destruct (Ascii.eqb_spec c (ascii_of_N 10)) as [->|_]; [discriminate|].
  destruct (Ascii.eqb_spec c (ascii_of_N 13)) as [->|_]; [discriminate|].
  reflexivity.
Qed.

Lemma escape_all_plain :
  forall s,
    string_all plain_char s = true -> PyRepr.escape_all "'" s = s.
Proof.
  induction s as [|c s IH]; intros H; [reflexivity|].
  cbn [string_all] in H. apply andb_true_iff in H as [Hc Hs].
  cbn [PyRepr.escape_all]. rewrite (escape_plain c Hc), (IH Hs).
  reflexivity.
Qed.

Lemma contains_plain :
  forall s, string_all plain_char s = true -> PyRepr.contains "'" s = false.
Proof.
  induction s as [|c s IH]; intros H; [reflexivity|].
  cbn [string_all] in H. apply andb_true_iff in H as [Hc Hs].
  cbn [PyRepr.contains]. rewrite (IH Hs).
  unfold plain_char in Hc.
  apply andb_true_iff in Hc as [Hc _]. apply andb_true_iff in Hc as [_ Hc].
  apply negb_true_iff in Hc. rewrite Hc. reflexivity.
Qed.

Lemma repr_plain :
  forall s,
    string_all plain_char s = true -> PyRepr.repr s = "'" ++ s ++ "'".
Proof.
  intros s H. unfold PyRepr.repr.
  rewrite (contains_plain s H). cbn [andb]. cbv zeta.
  rewrite (escape_all_plain s H). reflexivity.
Qed.

Lemma run_unbound :
  forall s env,
    reads_back (Str s) = true -> dict_get env (Str s) = None ->
    run s env = (Raise (KeyError s), env).
Proof.
  intros s env Hs Hu. unfold run.
  pose proof (parse_lisp_str (fun _ => "") (Str s) Hs) as P.
  cbn [lisp_str] in P. rewrite P.
  cbn [lisp_eval]. rewrite Hu. reflexivity.
Qed.

(** X22. The loop of [repl] reads nothing after its end: after the
    [break] of a [KeyboardInterrupt] or after an exception that it does
    not catch, the events that follow change nothing.  A session that
    has used up its events goes on with the next ones in the
    environment that it left, its last prompt being the one at which
    the next event is read. *)
Theorem X22_sessions_one_after_the_other :
  forall address prompt events1 events2 env,
    repl_loop address prompt (events1 ++ events2) env
    = match repl_loop address prompt events1 env with
      | (out1, env1, EndOfInput) =>
          let '(out2, env2, e2) := repl_loop address prompt events2 env1 in
          ((removelast out1 ++ out2)%list, env2, e2)
      | r => r
      end.
Proof.
  intros address prompt events1 events2.
  induction events1 as [|[text|] events1 IH]; intros env.
  - cbn [app repl_loop removelast].
    destruct (repl_loop address prompt events2 env) as [[out2 env2] e2].
    reflexivity.
  - cbn [app repl_loop].
    destruct (run text env) as [[val|e] env'].
    + rewrite IH.
      pose proof (repl_loop_output address prompt events1 env') as N.
      destruct (repl_loop address prompt events1 env') as [[out1 env1] e1].
      simpl in N.
      destruct e1; try reflexivity.
      destruct (repl_loop address prompt events2 env1) as [[out2 env2] e2].
      destruct (repl_print address val).
      * rewrite !removelast_cons by (try discriminate; exact N).
        reflexivity.
      * rewrite removelast_cons by exact N. reflexivity.
    + destruct (repl_catches e); [|reflexivity].
      rewrite IH.
      pose proof (repl_loop_output address prompt events1 env') as N.
      destruct (repl_loop address prompt events1 env') as [[out1 env1] e1].
      simpl in N.
      destruct e1; try reflexivity.
      destruct (repl_loop address prompt events2 env1) as [[out2 env2] e2].
      rewrite !removelast_cons by (try discriminate; exact N).
      reflexivity.
  - reflexivity.
Qed.

(** X23. What the loop of [repl] does with a line that the reader
    rejects.  On a line of white space only it prints "Syntax error:
    unexpected EOF" and on a line whose first token is a closing
    parenthesis "Syntax error: unexpected )", and it goes on with the
    next event; on a line that opens a list and does not close it the
    [IndexError] of the reader ends the loop.  The environment is
    unchanged in the three cases. *)
Theorem X23_lines_that_the_reader_rejects :
  forall address prompt text events env,
    (blank_text text = true ->
     repl_loop address prompt (Line text :: events) env
     = let '(out, env', e) := repl_loop address prompt events env in
       (Prompt prompt :: Printed "Syntax error: unexpected EOF" :: out,
        env', e))
    /\ (forall tokens,
           tokenize text = ")" :: tokens ->
           repl_loop address prompt (Line text :: events) env
           = let '(out, env', e) := repl_loop address prompt events env in
             (Prompt prompt :: Printed "Syntax error: unexpected )" :: out,
              env', e))
    /\ (forall tokens,
           tokenize text = "(" :: tokens -> after_close 0 tokens = None ->
           repl_loop address prompt (Line text :: events) env
           = ([Prompt prompt], env, Uncaught IndexError)).
Proof.
  intros address prompt text events env. split; [|split].
  - intros H.
    apply (repl_loop_caught address prompt text events env unexpected_EOF);
      [|reflexivity].
    apply run_parse_error, parse_blank. exact H.
  - intros tokens H.
    apply (repl_loop_caught address prompt text events env
             (SyntaxError "unexpected )")); [|reflexivity].
    apply run_parse_error. exact (parse_close text tokens H).
  - intros tokens H Hc.
    apply repl_loop_uncaught; [|reflexivity].
    apply run_parse_error. exact (parse_unterminated text tokens H Hc).
Qed.

(** An empty line, the line [) 1] and the line [(+ 1 (car x)], each
    followed by [Ctrl-C]. *)
Lemma X23_witness :
  repl_loop (fun _ => "0") ">> " [Line ""; Interrupt] standard_env
  = ([Prompt ">> "; Printed "Syntax error: unexpected EOF"; Prompt ">> ";
      Printed "Keyboard Interrupt"], standard_env, Break)
  /\ repl_loop (fun _ => "0") ">> " [Line ") 1"; Interrupt] standard_env
     = ([Prompt ">> "; Printed "Syntax error: unexpected )"; Prompt ">> ";
         Printed "Keyboard Interrupt"], standard_env, Break)
  /\ repl_loop (fun _ => "0") ">> " [Line "(+ 1 (car x)"; Interrupt]
       standard_env
     = ([Prompt ">> "], standard_env, Uncaught IndexError).
Proof.
  split; [|split].
  - apply (proj1 (X23_lines_that_the_reader_rejects (fun _ => "0") ">> " ""
                    [Interrupt] standard_env)).
    reflexivity.
  - apply (proj1 (proj2 (X23_lines_that_the_reader_rejects (fun _ => "0")
                           ">> " ") 1" [Interrupt] standard_env)) ["1"]).
    reflexivity.
  - apply (proj2 (proj2 (X23_lines_that_the_reader_rejects (fun _ => "0")
                           ">> " "(+ 1 (car x)" [Interrupt] standard_env))
             ["+"; "1"; "("; "car"; "x"; ")"]);
      reflexivity.
Defined.

(** X24. The loop of [repl] ends by [break], by the end of the input,
    or by one of four exceptions that it does not catch: [TypeError],
    [ValueError], [IndexError] and [OverflowError]. *)
Theorem X24_what_ends_the_loop :
  forall address prompt events env out env' e,
    repl_loop address prompt events env = (out, env', Uncaught e) ->
    e = TypeError \/ e = ValueError \/ e = IndexError \/ e = OverflowError.
Proof.
  intros address prompt events env out env' e H.
  apply repl_loop_ending in H. destruct e; try discriminate; tauto.
Qed.

(** The line [(car 1)]. *)
Lemma X24_witness :
  TypeError = TypeError \/ TypeError = ValueError
  \/ TypeError = IndexError \/ TypeError = OverflowError.
Proof.
  apply (X24_what_ends_the_loop (fun _ => "0") ">> " [Line "(car 1)"]
           standard_env [Prompt ">> "] standard_env TypeError).
  reflexivity.
Defined.

(** X25. On a line that is a symbol without a binding the loop of
    [repl] prints "Lisp syntax error: " and the text of the [KeyError],
    which is [repr] of the symbol: the symbol between single quotes
    when it is made of printable characters other than the single quote
    and the backslash.  Then it goes on, with the environment
    unchanged. *)
Theorem X25_unbound_symbol_line :
  forall address prompt s events env,
    reads_back (Str s) = true -> dict_get env (Str s) = None ->
    repl_loop address prompt (Line s :: events) env
    = (let '(out, env', e) := repl_loop address prompt events env in
       (Prompt prompt
        :: Printed ("Lisp syntax error: " ++ PyRepr.repr s) :: out,
        env', e))
    /\ (string_all plain_char s = true ->
        PyRepr.repr s = "'" ++ s ++ "'").
Proof.
  intros address prompt s events env Hs Hu. split.
  - apply (repl_loop_caught address prompt s events env (KeyError s));
      [|reflexivity].
    apply run_unbound; assumption.
  - apply repr_plain.
Qed.

(** The line [x] followed by [Ctrl-C]. *)
Lemma X25_witness :
  repl_loop (fun _ => "0") ">> " [Line "x"; Interrupt] standard_env
  = ([Prompt ">> "; Printed "Lisp syntax error: 'x'"; Prompt ">> ";
      Printed "Keyboard Interrupt"], standard_env, Break).
Proof.
  apply (proj1 (X25_unbound_symbol_line (fun _ => "0") ">> " "x" [Interrupt]
                  standard_env eq_refl eq_refl)).
Defined.

(** X26. A session of [repl] never loses a binding: the environment
    that it leaves has the keys of the environment in which it started,
    the primitives of [standard_env], in the same order, with the
    defined keys after them. *)
Theorem X26_session_keeps_the_bindings :
  forall address prompt events,
    exists more,
      map fst (snd (fst (repl address prompt events)))
      = (map fst standard_env ++ more)%list.
Proof.
  intros address prompt events. unfold repl.
  pose proof (repl_loop_keeps address prompt events global_env) as K.
  destruct (repl_loop address prompt events global_env) as [[out env] e].
  exact K.
Qed.
